(** * The cell-growth simulation (level 3) of [main.py]

    A shallow embedding of the classes [Container], [Cell], [Entity],
    [Player] and [Enemy] of [src/main.py], and the properties of the
    specification checked against it.

    Python [int] is [Z]; Python [float] is the kernel's binary64 [float],
    whose operations round exactly as CPython's do; a Python exception is a
    [Raise] result.  The objects of the program are mutable and shared (a
    cell is referenced by its entity and by the global container [cells]), so
    cells live in a store and are named by references. *)

From Stdlib Require Import ZArith List Lia Bool Sorted Permutation Floats.
Import ListNotations.

Local Open Scope Z_scope.

(** ** Python results *)

Inductive exn : Set :=
| IndexError
| ValueError
| TypeError
| ZeroDivisionError
| OverflowError
| StopIteration.

(** [OutOfFuel] is not a Python outcome: it marks a loop model that was given
    too few iterations, and the theorems below show the fuel handed to every
    loop is enough. *)
Inductive result (A : Type) : Type :=
| Ok (a : A)
| Raise (e : exn)
| OutOfFuel.

Arguments Ok {A} a.
Arguments Raise {A} e.
Arguments OutOfFuel {A}.

Definition bind {A B : Type} (r : result A) (k : A -> result B) : result B :=
  match r with
  | Ok a => k a
  | Raise e => Raise e
  | OutOfFuel => OutOfFuel
  end.

Notation "x <- r ;; k" := (bind r (fun x => k))
  (at level 61, r at next level, right associativity).
Notation "' p <- r ;; k" := (bind r (fun p => k))
  (at level 61, p pattern, r at next level, right associativity).

(** ** Python lists *)

Module Py.

Definition len {A : Type} (l : list A) : Z := Z.of_nat (length l).

(** [l[i]]: a negative index counts from the end, an index out of range
    raises [IndexError]. *)
Definition getitem {A : Type} (l : list A) (i : Z) : result A :=
  let j := if i <? 0 then i + len l else i in
  if (0 <=? j) && (j <? len l)
  then match nth_error l (Z.to_nat j) with
       | Some x => Ok x
       | None => Raise IndexError
       end
  else Raise IndexError.

(** The bound of a slice: negative counts from the end, then clamped to
    [0 .. len l]. *)
Definition slice_bound {A : Type} (l : list A) (i : Z) : nat :=
  Z.to_nat (if i <? 0 then Z.max (i + len l) 0 else Z.min i (len l)).

(** [l[start:]] *)
Definition slice_from {A : Type} (l : list A) (start : Z) : list A :=
  skipn (slice_bound l start) l.

(** [l[:stop]] *)
Definition slice_to {A : Type} (l : list A) (stop : Z) : list A :=
  firstn (slice_bound l stop) l.

(** [sorted(l, key=key)]: the stable sort, ascending by key. *)
Fixpoint insert_by {A : Type} (key : A -> Z) (x : A) (l : list A) : list A :=
  match l with
  | [] => [x]
  | y :: l' => if key x <=? key y then x :: l else y :: insert_by key x l'
  end.

Definition sorted {A : Type} (key : A -> Z) (l : list A) : list A :=
  fold_right (insert_by key) [] l.

(** [l.remove(x)] on a list of references: drops the first occurrence,
    [ValueError] when there is none. *)
Fixpoint remove (x : nat) (l : list nat) : result (list nat) :=
  match l with
  | [] => Raise ValueError
  | y :: l' => if Nat.eqb y x then Ok l'
               else (r <- remove x l' ;; Ok (y :: r))
  end.

(** [min(l, key=key)] and [max(l, key=key)]: the first extremal element in
    iteration order; [ValueError] on an empty sequence.  [lt] is [<] on the
    keys. *)
Fixpoint min_from {A K : Type} (lt : K -> K -> bool) (key : A -> K)
    (best : A) (l : list A) : A :=
  match l with
  | [] => best
  | x :: l' => min_from lt key (if lt (key x) (key best) then x else best) l'
  end.

Definition min {A K : Type} (lt : K -> K -> bool) (key : A -> K)
    (l : list A) : result A :=
  match l with
  | [] => Raise ValueError
  | x :: l' => Ok (min_from lt key x l')
  end.

Fixpoint max_from {A K : Type} (lt : K -> K -> bool) (key : A -> K)
    (best : A) (l : list A) : A :=
  match l with
  | [] => best
  | x :: l' => max_from lt key (if lt (key best) (key x) then x else best) l'
  end.

Definition max {A K : Type} (lt : K -> K -> bool) (key : A -> K)
    (l : list A) : result A :=
  match l with
  | [] => Raise ValueError
  | x :: l' => Ok (max_from lt key x l')
  end.

(** [l.pop(i)] and [l[i] = v] for an index [0 <= i < len(l)], as lists. *)
Definition pop {A : Type} (l : list A) (i : nat) : list A :=
  firstn i l ++ skipn (S i) l.

Definition update {A : Type} (l : list A) (i : nat) (v : A) : list A :=
  firstn i l ++ v :: skipn (S i) l.

(** [l[i] = v]: a negative index counts from the end, an index out of range
    raises [IndexError]. *)
Definition setitem {A : Type} (l : list A) (i : Z) (v : A) : result (list A) :=
  let j := if i <? 0 then i + len l else i in
  if (0 <=? j) && (j <? len l)
  then Ok (update l (Z.to_nat j) v)
  else Raise IndexError.

(** [i in range(len(l))] for an [int] *)
Definition in_range {A : Type} (i : Z) (l : list A) : bool :=
  (0 <=? i) && (i <? len l).

End Py.

(** ** Python floats *)

Module Flt.

Local Open Scope float_scope.

(** [math.pi], the binary64 nearest to pi. *)
Definition pi : float := 0x1.921fb54442d18p+1.

(** [float(z)]: the nearest binary64, exact below [2^53]. *)
Definition of_Z (z : Z) : float :=
  SF2Prim (binary_normalize prec emax z 0 false).

(** [x ** 0.5] for [x >= 0], taken as the correctly rounded square root. *)
Definition pow_half (x : float) : float := PrimFloat.sqrt x.

(** [x ** 2], taken as the correctly rounded square. *)
Definition pow_two (x : float) : float := x * x.

(** The integer nearest to [m * 2^e], ties to the even one. *)
Definition round_half_even (m : positive) (e : Z) : Z :=
  if (0 <=? e)%Z then (Z.pos m * 2 ^ e)%Z
  else
    let d := (2 ^ (- e))%Z in
    let q := (Z.pos m / d)%Z in
    let r := (Z.pos m mod d)%Z in
    match (2 * r ?= d)%Z with
    | Lt => q
    | Gt => (q + 1)%Z
    | Eq => if Z.even q then q else (q + 1)%Z
    end.

(** [round(x)] with one argument: an [int]. *)
Definition round (x : float) : result Z :=
  match Prim2SF x with
  | S754_zero _ => Ok 0%Z
  | S754_finite s m e =>
      let n := round_half_even m e in Ok (if s then (- n)%Z else n)
  | S754_infinity _ => Raise OverflowError
  | S754_nan => Raise ValueError
  end.

(** [x / y] in Python: division by zero raises. *)
Definition truediv (x y : float) : result float :=
  if y =? 0 then Raise ZeroDivisionError else Ok (x / y).

(** The builtins [min(a, b)] and [max(a, b)] on two floats: the second
    argument replaces the first only when it compares strictly better. *)
Definition min2 (a b : float) : float := if b <? a then b else a.
Definition max2 (a b : float) : float := if a <? b then b else a.

End Flt.

(** ** [pygame.math.Vector2]

    Two binary64 coordinates; the operations follow pygame 2's [math.c]. *)

Module Vector2.

Local Open Scope float_scope.

Record t : Set := mk { x : float; y : float }.

(** [VECTOR_EPSILON], the binary64 nearest to 1e-6. *)
Definition epsilon : float := 0x1.0c6f7a0b5ed8dp-20.

Definition add (a b : t) : t := mk (x a + x b) (y a + y b).
Definition sub (a b : t) : t := mk (x a - x b) (y a - y b).
Definition neg (a : t) : t := mk (- x a) (- y a).
Definition scale (a : t) (k : float) : t := mk (x a * k) (y a * k).

Definition dot (a b : t) : float := x a * x b + y a * y b.
Definition magnitude (a : t) : float := PrimFloat.sqrt (dot a a).

(** [a.distance_squared_to(b)] *)
Definition distance_squared_to (a b : t) : float :=
  let d := sub b a in dot d d.

(** [a == b] between two vectors: every coordinate within [epsilon]
    (a NaN difference compares unequal). *)
Definition close (d : float) : bool := PrimFloat.abs d <? epsilon.
Definition eqb (a b : t) : bool := close (x a - x b) && close (y a - y b).

(** [a.scale_to_length(l)] *)
Definition scale_to_length (a : t) (l : float) : result t :=
  let old := magnitude a in
  if old <? epsilon then Raise ValueError
  else Ok (scale a (l / old)).

(** [a.clamp_magnitude(max_length)]; a vector of length zero is refused. *)
Definition clamp_magnitude (a : t) (max_length : float) : result t :=
  if max_length <? 0 then Raise ValueError
  else
    let old_sq := dot a a in
    if old_sq =? 0 then Raise ValueError
    else if max_length * max_length <? old_sq
         then Ok (scale a (max_length / PrimFloat.sqrt old_sq))
         else Ok a.

End Vector2.

(** ** [Container] *)

Module Container.

(** The fields [__game_objects] and [__index]. *)
Record t (A : Type) : Type := mk { game_objects : list A; index : Z }.
Arguments mk {A} game_objects index.
Arguments game_objects {A} _.
Arguments index {A} _.

Section Methods.
Context {A : Type}.

(** The constructor [Container(...)] *)
Definition init (objs : list A) : t A := mk objs 0.

(** [__iter__]: rewinds the index and returns the container itself. *)
Definition iter (c : t A) : t A := mk (game_objects c) 0.

(** [__next__]: the index moves first, then the object it names is
    returned; [StopIteration] leaves the container as it was. *)
Definition next (c : t A) : result (A * t A) :=
  if index c + 1 <? Py.len (game_objects c)
  then x <- Py.getitem (game_objects c) (index c + 1) ;;
       Ok (x, mk (game_objects c) (index c + 1))
  else Raise StopIteration.

Definition len (c : t A) : Z := Py.len (game_objects c).

(** [__getitem__] with an integer *)
Definition getitem (c : t A) (i : Z) : result A :=
  Py.getitem (game_objects c) i.

Definition sort (key : A -> Z) (c : t A) : t A :=
  mk (Py.sorted key (game_objects c)) (index c).

Definition add_object (x : A) (c : t A) : t A :=
  mk (game_objects c ++ [x]) (index c).

(** The loop [for x in c] seen as the objects it hands to its body, with
    the container the loop leaves behind: [iter], then [next] until
    [StopIteration]. *)
Fixpoint drain (fuel : nat) (c : t A) : result (list A * t A) :=
  match fuel with
  | O => OutOfFuel
  | S fuel' =>
      match next c with
      | Ok (x, c') =>
          '(xs, c'') <- drain fuel' c' ;; Ok (x :: xs, c'')
      | Raise StopIteration => Ok ([], c)
      | Raise e => Raise e
      | OutOfFuel => OutOfFuel
      end
  end.

Definition for_in (c : t A) : result (list A * t A) :=
  drain (S (length (game_objects c))) (iter c).

End Methods.

(** [remove_object]: [delete()] of a cell does nothing, then the list
    drops the reference. *)
Definition remove_object (x : nat) (c : t nat) : result (t nat) :=
  l <- Py.remove x (game_objects c) ;; Ok (mk l (index c)).

(** [__setitem__] with an integer *)
Definition setitem {A : Type} (c : t A) (i : Z) (v : A) : result (t A) :=
  l <- Py.setitem (game_objects c) i v ;; Ok (mk l (index c)).

(** [copy]: a new container of the same objects. *)
Definition copy {A : Type} (c : t A) : t A := init (game_objects c).

End Container.

(** ** The objects of level 3 *)

(** A reference names an object of the store. *)
Definition ref : Set := nat.

(** [WIN_SIZE] and [MAX_FPS] *)
Definition WIN_SIZE : Z * Z := (720, 720).
Definition MAX_FPS : Z := 144.

(** The fields of a [Cell] that the simulation reads: the outline [points],
    the colours and the rendered text only feed the drawing and are left
    out. *)
Record cell_obj : Set := mk_cell {
  entity : ref;
  position : Vector2.t;
  mass : Z;
  radius : float;
  sqr_radius : float;
  point_count : Z;
  speed : float
}.

(** The two subclasses of [Entity]. *)
Inductive entity_class : Set := Player_class | Enemy_class.

(** The fields of an [Entity]; [e_cells] is its list [cells].  (The
    destination starts as the very vector that is the entity's own
    position; that position is read by the drawing only.) *)
Record entity_obj : Set := mk_entity {
  class_of : entity_class;
  cell_count : Z;
  e_cells : list ref;
  destination : Vector2.t
}.

(** The state of [level_3]: the store of cells and of entities, the
    containers [cells] and [entities] of references into it, the global
    [delta_time] and the class attribute [Cell.food_timer]. *)
Record world : Type := mk_world {
  heap : ref -> cell_obj;
  next_cell : ref;
  entity_heap : ref -> entity_obj;
  next_entity : ref;
  cells : Container.t ref;
  entities : Container.t ref;
  delta_time : float;
  food_timer : float
}.

Definition set_heap (w : world) (h : ref -> cell_obj) : world :=
  mk_world h (next_cell w) (entity_heap w) (next_entity w) (cells w)
           (entities w) (delta_time w) (food_timer w).

Definition set_cells (w : world) (c : Container.t ref) : world :=
  mk_world (heap w) (next_cell w) (entity_heap w) (next_entity w) c
           (entities w) (delta_time w) (food_timer w).

Definition set_entity_heap (w : world) (h : ref -> entity_obj) : world :=
  mk_world (heap w) (next_cell w) h (next_entity w) (cells w)
           (entities w) (delta_time w) (food_timer w).

Definition set_food_timer (w : world) (t : float) : world :=
  mk_world (heap w) (next_cell w) (entity_heap w) (next_entity w) (cells w)
           (entities w) (delta_time w) t.

Definition set_delta_time (w : world) (t : float) : world :=
  mk_world (heap w) (next_cell w) (entity_heap w) (next_entity w) (cells w)
           (entities w) t (food_timer w).

(** Writing one object of a store. *)
Definition store {A : Type} (h : ref -> A) (r : ref) (a : A) : ref -> A :=
  fun r' => if Nat.eqb r' r then a else h r'.

Definition write_cell (w : world) (r : ref) (c : cell_obj) : world :=
  set_heap w (store (heap w) r c).

Definition write_entity (w : world) (r : ref) (e : entity_obj) : world :=
  set_entity_heap w (store (entity_heap w) r e).

Definition set_position (c : cell_obj) (p : Vector2.t) : cell_obj :=
  mk_cell (entity c) p (mass c) (radius c) (sqr_radius c) (point_count c)
          (speed c).

Definition set_destination (e : entity_obj) (d : Vector2.t) : entity_obj :=
  mk_entity (class_of e) (cell_count e) (e_cells e) d.

(** The key [lambda x: x.mass] on references. *)
Definition mass_key (w : world) (r : ref) : Z := mass (heap w r).

(** ** [Cell] *)

Module Cell.

Local Open Scope float_scope.

Definition food_cooldown : float := 1.

(** [get_predators]: the loop starts at the last index and moves upwards. *)
Fixpoint predators_scan (fuel : nat) (w : world) (m : Z) (index : Z)
    : result Z :=
  match fuel with
  | O => OutOfFuel
  | S fuel' =>
      c <- Container.getitem (cells w) index ;;
      if (m + 1024 <? mass_key w c)%Z
         && (index + 1 <? Container.len (cells w))%Z
      then predators_scan fuel' w m (index + 1)%Z
      else Ok index
  end.

Definition get_predators (w : world) (m : Z) : result (list ref) :=
  index <- predators_scan (S (length (Container.game_objects (cells w)))) w m
             (Container.len (cells w) - 1)%Z ;;
  Ok (Py.slice_from (Container.game_objects (cells w)) (index + 1)%Z).

Definition get_near_predators (w : world) (m : Z) (pos : Vector2.t)
    : result (list ref) :=
  ps <- get_predators w m ;;
  Ok (filter (fun x => Vector2.distance_squared_to pos (position (heap w x))
                       <=? sqr_radius (heap w x) * 16)
             ps).

(** [get_preys]: the loop starts at index 0 and has no bound of its own. *)
Fixpoint preys_scan (fuel : nat) (w : world) (m : Z) (index : Z)
    : result Z :=
  match fuel with
  | O => OutOfFuel
  | S fuel' =>
      c <- Container.getitem (cells w) index ;;
      if (mass_key w c + 1024 <? m)%Z
      then preys_scan fuel' w m (index + 1)%Z
      else Ok index
  end.

Definition get_preys (w : world) (m : Z) : result (list ref) :=
  index <- preys_scan (S (length (Container.game_objects (cells w)))) w m 0%Z ;;
  Ok (Py.slice_to (Container.game_objects (cells w)) index).

(** [get_radius]: [(mass / pi) ** 0.5].  For a negative mass Python's power
    yields a complex number, for which this model has no value; it raises
    [TypeError] there, as the first ordered comparison on such a radius
    would. *)
Definition get_radius (m : Z) : result float :=
  if (m <? 0)%Z then Raise TypeError
  else Ok (Flt.pow_half (Flt.of_Z m / Flt.pi)).

(** [get_near_preys]: the filter evaluates [get_radius] once per prey. *)
Definition get_near_preys (w : world) (m : Z) (pos : Vector2.t)
    : result (list ref) :=
  ps <- get_preys w m ;;
  match ps with
  | [] => Ok []
  | _ =>
      r <- get_radius m ;;
      Ok (filter (fun x =>
                    Vector2.distance_squared_to pos (position (heap w x))
                    <=? Flt.pow_two r * 16)
                 ps)
  end.

Definition get_nearest_prey (w : world) (m : Z) (pos : Vector2.t)
    : result ref :=
  ps <- get_preys w m ;;
  Py.min PrimFloat.ltb
         (fun x => Vector2.distance_squared_to pos (position (heap w x))) ps.

Definition get_most_perspective_prey (w : world) (m : Z) (pos : Vector2.t)
    : result ref :=
  ps <- get_near_preys w m pos ;;
  Py.max Z.ltb (mass_key w) ps.

(** [get_point_count(radius)] *)
Definition get_point_count (radius : float) : result Z :=
  Flt.round (2 * Flt.pi * radius / 10 + 8).

(** [1024.0 / self.mass ** 0.5] *)
Definition speed_for (m : Z) : result float :=
  if (m <? 0)%Z then Raise TypeError
  else Flt.truediv 1024 (Flt.pow_half (Flt.of_Z m)).

(** [__init__]: the new cell enters [cells] at the end, and no sort follows;
    its point count is taken from [get_point_count(self.mass)]. *)
Definition init (w : world) (e : ref) (pos : Vector2.t) (m : Z)
    : result (world * ref) :=
  let self := next_cell w in
  let w1 :=
    mk_world (heap w) (S self) (entity_heap w) (next_entity w)
             (Container.add_object self (cells w)) (entities w)
             (delta_time w) (food_timer w) in
  r <- get_radius m ;;
  n <- get_point_count (Flt.of_Z m) ;;
  s <- speed_for m ;;
  Ok (write_cell w1 self (mk_cell e pos m r (r * r) n s), self).

(** [intersects] *)
Definition intersects (a b : cell_obj) : bool :=
  Vector2.distance_squared_to (position a) (position b)
  <? Flt.pow_two (radius a + radius b).

(** [update_values]: the derived fields are recomputed from the mass, the
    point count again from [get_point_count(self.mass)], and the container
    is sorted. *)
Definition update_values (w : world) (self : ref) : result world :=
  let c := heap w self in
  r <- get_radius (mass c) ;;
  n <- get_point_count (Flt.of_Z (mass c)) ;;
  s <- speed_for (mass c) ;;
  let w1 :=
    write_cell w self (mk_cell (entity c) (position c) (mass c) r (r * r) n s)
  in
  Ok (set_cells w1 (Container.sort (mass_key w1) (cells w1))).

(** [change_mass] *)
Definition change_mass (w : world) (self : ref) (change : Z) : result world :=
  let c := heap w self in
  let w1 :=
    write_cell w self
      (mk_cell (entity c) (position c) (mass c + change)%Z (radius c)
               (sqr_radius c) (point_count c) (speed c)) in
  update_values w1 self.

(** [move_cell]: the argument is a point of the world, towards which the
    cell advances by at most [speed * delta_time]. *)
Definition move_cell (w : world) (self : ref) (dest : Vector2.t)
    : result world :=
  let c := heap w self in
  if Vector2.eqb (position c) dest then Ok w
  else
    direction <- Vector2.clamp_magnitude (Vector2.sub dest (position c))
                   (speed c * delta_time w) ;;
    Ok (write_cell w self (set_position c (Vector2.add (position c) direction))).

(** [max(0.0, min(v, bound))] *)
Definition clamp (v : float) (bound : Z) : float :=
  Flt.max2 0 (Flt.min2 v (Flt.of_Z bound)).

(** [update]: move towards the owner's destination, then clamp both
    coordinates ([move_points] only touches the outline). *)
Definition update (w : world) (self : ref) : result world :=
  w1 <- move_cell w self (destination (entity_heap w (entity (heap w self)))) ;;
  let c := heap w1 self in
  let p := position c in
  let p1 := Vector2.mk (clamp (Vector2.x p) (fst WIN_SIZE)) (Vector2.y p) in
  let p2 := Vector2.mk (Vector2.x p1) (clamp (Vector2.y p1) (snd WIN_SIZE)) in
  Ok (write_cell w1 self (set_position c p2)).

End Cell.

(** ** [Entity] *)

Module Entity.

Local Open Scope float_scope.

(** [__init__] with an explicit position ([randint] and the colour are the
    caller's): two cells, at [position] and at [position + (1, 1)]. *)
Definition init (w : world) (k : entity_class) (pos : Vector2.t) (m : Z)
    : result (world * ref) :=
  let self := next_entity w in
  let w0 :=
    mk_world (heap w) (next_cell w) (entity_heap w) (S self) (cells w)
             (entities w) (delta_time w) (food_timer w) in
  '(w1, c0) <- Cell.init w0 self (Vector2.add pos (Vector2.mk 0 0)) m ;;
  '(w2, c1) <- Cell.init w1 self (Vector2.add pos (Vector2.mk 1 1)) m ;;
  Ok (write_entity w2 self (mk_entity k 2 [c0; c1] pos), self).

(** [add_direction] *)
Definition add_direction (w : world) (self : ref) (direction : Vector2.t)
    (coefficient : float) : world :=
  let e := entity_heap w self in
  write_entity w self
    (set_destination e
       (Vector2.add (destination e) (Vector2.scale direction coefficient))).

(** [a / b] between two [int]s. *)
Definition int_truediv (a b : Z) : result float :=
  if (b =? 0)%Z then Raise ZeroDivisionError
  else Ok (Flt.of_Z a / Flt.of_Z b).

(** The body of the inner loop of [push_away] for the pair
    [(cell1, cell2)].  [direction == 0] compares a vector with an [int] and
    is [False]. *)
Definition push_pair (w : world) (cell1 cell2 : ref) : result world :=
  let c1 := heap w cell1 in
  let c2 := heap w cell2 in
  if negb (Cell.intersects c1 c2) then Ok w
  else
    let direction := Vector2.sub (position c2) (position c1) in
    if (Vector2.x direction =? 0) || false then Ok w
    else
      let m := (mass c1 + mass c2)%Z in
      let distance := radius c1 + radius c2 - Vector2.magnitude direction in
      direction' <- Vector2.scale_to_length direction distance ;;
      share <- int_truediv (mass c2) m ;;
      w1 <- Cell.move_cell w cell1 (Vector2.scale (Vector2.neg direction') share) ;;
      Cell.move_cell w1 cell2 (Vector2.scale direction' share).

(** [for cell2 in self.cells[i + 1:]] *)
Fixpoint push_row (w : world) (cell1 : ref) (rest : list ref) : result world :=
  match rest with
  | [] => Ok w
  | cell2 :: rest' => w1 <- push_pair w cell1 cell2 ;; push_row w1 cell1 rest'
  end.

(** [for i, cell1 in enumerate(self.cells)] *)
Fixpoint push_rows (w : world) (l : list ref) : result world :=
  match l with
  | [] => Ok w
  | cell1 :: rest => w1 <- push_row w cell1 rest ;; push_rows w1 rest
  end.

(** [push_away] *)
Definition push_away (w : world) (self : ref) : result world :=
  let e := entity_heap w self in
  if (cell_count e =? 1)%Z then Ok w else push_rows w (e_cells e).

(** [for cell in self.cells: cell.update()] *)
Fixpoint update_cells (w : world) (l : list ref) : result world :=
  match l with
  | [] => Ok w
  | c :: l' => w1 <- Cell.update w c ;; update_cells w1 l'
  end.

(** [update] *)
Definition update (w : world) (self : ref) : result world :=
  update_cells w (e_cells (entity_heap w self)).

End Entity.

(** ** [Player] *)

Module Player.

Local Open Scope float_scope.

(** The comprehension [[i for i in cells if i.mass * 1.125 < cell.mass]]:
    it iterates the container [cells], which is left with its index moved.
    Python compares the product with the [int] exactly; so does the
    comparison of the two floats here for masses below [2^53], which
    convert without rounding. *)
Definition candidates (w : world) (cell : ref)
    : result (list ref * Container.t ref) :=
  '(seen, cs) <- Container.for_in (cells w) ;;
  Ok (filter (fun i => Flt.of_Z (mass_key w i) * 1.125
                       <? Flt.of_Z (mass_key w cell))
             seen,
      cs).

(** The body of [for cell in self.cells] in [update]. *)
Definition absorb (w : world) (cell : ref) : result world :=
  '(preys, cs) <- candidates w cell ;;
  let w := set_cells w cs in
  if (0 <? Py.len preys)%Z then
    prey <- Py.min PrimFloat.ltb
              (fun x => Vector2.distance_squared_to (position (heap w x))
                          (position (heap w cell)))
              preys ;;
    if Vector2.distance_squared_to (position (heap w prey))
         (position (heap w cell))
       <=? sqr_radius (heap w cell) / 4
    then
      w1 <- Cell.change_mass w cell (mass_key w prey) ;;
      cs1 <- Container.remove_object prey (cells w1) ;;
      Ok (set_cells w1 cs1)
    else Ok w
  else Ok w.

Fixpoint absorb_all (w : world) (l : list ref) : result world :=
  match l with
  | [] => Ok w
  | cell :: l' => w1 <- absorb w cell ;; absorb_all w1 l'
  end.

(** What [update] does before its last statement; [mouse] is what
    [pygame.mouse.get_pos()] returns. *)
Definition before_push (w : world) (self : ref) (mouse : Z * Z)
    : result world :=
  w1 <- Entity.update w self ;;
  let w2 :=
    write_entity w1 self
      (set_destination (entity_heap w1 self)
         (Vector2.mk (Flt.of_Z (fst mouse)) (Flt.of_Z (snd mouse)))) in
  w3 <- absorb_all w2 (e_cells (entity_heap w2 self)) ;;
  let t := if Cell.food_cooldown <=? food_timer w3
           then food_timer w3 - Cell.food_cooldown else food_timer w3 in
  Ok (set_food_timer w3 (t + delta_time w3)).

(** [update]: the last statement is [self.push_away()]. *)
Definition update (w : world) (self : ref) (mouse : Z * Z) : result world :=
  w4 <- before_push w self mouse ;;
  Entity.push_away w4 self.

End Player.

(** ** [Enemy] *)

Module Enemy.

Local Open Scope float_scope.

(** The body of [for cell in self.cells] in [update].  With a predator
    nearby the loop subtracts a [Cell] from a vector, which pygame refuses. *)
Definition steer (w : world) (self : ref) (cell : ref) : result world :=
  let c := heap w cell in
  predators <- Cell.get_near_predators w (mass c) (position c) ;;
  if (0 <? Py.len predators)%Z then Raise TypeError
  else
    preys <- Cell.get_near_preys w (mass c) (position c) ;;
    if (0 <? Py.len preys)%Z then
      prey <- Py.max Z.ltb (mass_key w) preys ;;
      k <- Flt.truediv 1 (Flt.of_Z (cell_count (entity_heap w self))) ;;
      Ok (Entity.add_direction w self (position (heap w prey)) (k * 2))
    else Ok w.

Fixpoint steer_all (w : world) (self : ref) (l : list ref) : result world :=
  match l with
  | [] => Ok w
  | cell :: l' => w1 <- steer w self cell ;; steer_all w1 self l'
  end.

Definition update (w : world) (self : ref) : result world :=
  w1 <- Entity.update w self ;;
  steer_all w1 self (e_cells (entity_heap w1 self)).

End Enemy.

(** ** [level_3] *)

Module Level3.

Local Open Scope float_scope.

(** [entities.update()]: every entity runs the [update] of its class. *)
Fixpoint update_entities (w : world) (mouse : Z * Z) (l : list ref)
    : result world :=
  match l with
  | [] => Ok w
  | e :: l' =>
      w1 <- match class_of (entity_heap w e) with
            | Player_class => Player.update w e mouse
            | Enemy_class => Enemy.update w e
            end ;;
      update_entities w1 mouse l'
  end.

(** [hierarchy.update()]: the container of entities, then the container of
    cells, each walking its list of objects. *)
Definition hierarchy_update (w : world) (mouse : Z * Z) : result world :=
  w1 <- update_entities w mouse (Container.game_objects (entities w)) ;;
  Entity.update_cells w1 (Container.game_objects (cells w1)).

(** One turn of the loop: [elapsed] is [now() - start_time]. *)
Definition frame (w : world) (mouse : Z * Z) (elapsed : float) : result world :=
  w1 <- hierarchy_update w mouse ;;
  let floor_dt := 1 / Flt.of_Z MAX_FPS in
  Ok (set_delta_time w1 (Flt.max2 elapsed floor_dt)).

(** The state in which [level_3] starts: no object, empty containers, and
    the [delta_time] left by the menu. *)
Definition empty (dt : float) : world :=
  mk_world
    (fun _ => mk_cell 0%nat (Vector2.mk 0 0) 0%Z 0 0 0%Z 0)
    0%nat
    (fun _ => mk_entity Enemy_class 0%Z [] (Vector2.mk 0 0))
    0%nat
    (Container.init []) (Container.init []) dt 0.

Definition add_entity (r : result world) (k : entity_class)
    (pos : Vector2.t) (m : Z) : result world :=
  w <- r ;;
  '(w1, e) <- Entity.init w k pos m ;;
  Ok (mk_world (heap w1) (next_cell w1) (entity_heap w1) (next_entity w1)
               (cells w1) (Container.add_object e (entities w1))
               (delta_time w1) (food_timer w1)).

(** [start_new_game] *)
Definition start_new_game (w : world) : world :=
  set_cells w (Container.sort (mass_key w) (cells w)).

(** What [level_3] does before its loop: the player of mass 4096 in the
    middle of the window, the enemies of mass 512 at the positions drawn by
    [randint] (ten of them in the source), then [start_new_game]. *)
Definition setup (dt : float) (enemy_positions : list (Z * Z)) : result world :=
  let mid :=
    Vector2.mk (Flt.of_Z (fst WIN_SIZE) / 2) (Flt.of_Z (snd WIN_SIZE) / 2) in
  w <- fold_left
         (fun r p =>
            add_entity r Enemy_class
              (Vector2.mk (Flt.of_Z (fst p)) (Flt.of_Z (snd p))) 512)
         enemy_positions
         (add_entity (Ok (empty dt)) Player_class mid 4096) ;;
  Ok (start_new_game w).

(** The states of the simulation: the one [setup] builds, and those a
    frame produces from a state already reached. *)
Inductive reachable : world -> Prop :=
| reach_setup dt ps w :
    setup dt ps = Ok w -> reachable w
| reach_frame w mouse elapsed w' :
    reachable w -> frame w mouse elapsed = Ok w' -> reachable w'.

End Level3.

(** ** [Sprite] *)

Module Sprite.

(** The fields [frames], [current_frame] and [image]; a surface is an
    object of pygame, of a type left open. *)
Record t (S : Type) : Type :=
  mk { frames : list S; current_frame : Z; image : S }.
Arguments mk {S} frames current_frame image.
Arguments frames {S} _.
Arguments current_frame {S} _.
Arguments image {S} _.

Section Methods.
Context {S : Type}.

(** [Sprite(name, *images)]: the first image is the one shown. *)
Definition init (images : list S) : result (t S) :=
  first <- Py.getitem images 0 ;; Ok (mk images 0 first).

Definition add_frame (s : t S) (img : S) : t S :=
  mk (frames s ++ [img]) (current_frame s) (image s).

(** [replace_frame]: the image shown is not touched. *)
Definition replace_frame (s : t S) (img : S) (index : Z) : t S :=
  if Py.in_range index (frames s)
  then mk (Py.update (frames s) (Z.to_nat index) img) (current_frame s)
          (image s)
  else s.

(** [delete_frame]: after the frame is popped, an index at or before the
    current frame moves the current frame one back and shows
    [frames[current_frame]], read as Python reads it. *)
Definition delete_frame (s : t S) (index : Z) : result (t S) :=
  if Py.in_range index (frames s) then
    let fs := Py.pop (frames s) (Z.to_nat index) in
    if index <=? current_frame s then
      img <- Py.getitem fs (current_frame s - 1) ;;
      Ok (mk fs (current_frame s - 1) img)
    else Ok (mk fs (current_frame s) (image s))
  else Ok s.

(** [set_current_frame]: an index in range names a frame. *)
Definition set_current_frame (s : t S) (index : Z) : t S :=
  if Py.in_range index (frames s) then
    match nth_error (frames s) (Z.to_nat index) with
    | Some img => mk (frames s) index img
    | None => s
    end
  else s.

End Methods.

End Sprite.

(** ** [Button] *)

Module Button.

Local Open Scope float_scope.

(** [pygame.BUTTON_LEFT] and [pygame.BUTTON_RIGHT] *)
Definition BUTTON_LEFT : Z := 1.
Definition BUTTON_RIGHT : Z := 3.

Section WithCallbacks.

(** Surfaces, and the functions a button calls. *)
Context {S F : Type}.

(** A [dict] from mouse buttons to a function or [None]. *)
Definition dict : Type := list (Z * option F).

(** [d[k]]: nothing when the key is missing ([KeyError]). *)
Fixpoint lookup (d : dict) (k : Z) : option (option F) :=
  match d with
  | [] => None
  | (k', v) :: d' => if (k' =? k)%Z then Some v else lookup d' k
  end.

(** [d[k] = v] *)
Fixpoint assign (d : dict) (k : Z) (v : option F) : dict :=
  match d with
  | [] => [(k, v)]
  | (k', v') :: d' =>
      if (k' =? k)%Z then (k, v) :: d' else (k', v') :: assign d' k v
  end.

(** The fields of a [Button] that its mouse handling reads. *)
Record t : Type := mk {
  sprite : Sprite.t S;
  is_selected : bool;
  is_active : bool;
  position : Vector2.t;
  size : float * float;
  functions_down : dict;
  functions_up : dict
}.

Definition with_sprite (b : t) (s : Sprite.t S) : t :=
  mk s (is_selected b) (is_active b) (position b) (size b)
     (functions_down b) (functions_up b).

Definition with_selected (b : t) (v : bool) : t :=
  mk (sprite b) v (is_active b) (position b) (size b)
     (functions_down b) (functions_up b).

(** [Button(name, image, selected, pressed)]; [size] is what
    [image.get_size()] returns. *)
Definition init (image selected pressed : S) (size : float * float) : t :=
  mk (Sprite.mk [image; selected; pressed] 0 image) false true
     (Vector2.mk 0 0) size
     [(BUTTON_LEFT, None); (BUTTON_RIGHT, None)]
     [(BUTTON_LEFT, None); (BUTTON_RIGHT, None)].

Definition set_function_down (b : t) (button : Z) (f : F) : t :=
  mk (sprite b) (is_selected b) (is_active b) (position b) (size b)
     (assign (functions_down b) button (Some f)) (functions_up b).

Definition set_function_up (b : t) (button : Z) (f : F) : t :=
  mk (sprite b) (is_selected b) (is_active b) (position b) (size b)
     (functions_down b) (assign (functions_up b) button (Some f)).

(** [set_active], and with it [show] and [hide] *)
Definition set_active (b : t) (v : bool) : t :=
  mk (sprite b) (is_selected b) v (position b) (size b)
     (functions_down b) (functions_up b).

(** [Image.move] *)
Definition move (b : t) (dx dy : float) : t :=
  mk (sprite b) (is_selected b) (is_active b)
     (Vector2.add (position b) (Vector2.mk dx dy)) (size b)
     (functions_down b) (functions_up b).

(** [point in self]: [Image.__contains__] *)
Definition contains (b : t) (point : Z * Z) : bool :=
  if negb (is_active b) then false
  else
    let dx := Flt.of_Z (fst point) - Vector2.x (position b) in
    let dy := Flt.of_Z (snd point) - Vector2.y (position b) in
    ((0 <=? dx) && (dx <=? fst (size b)))
    && ((0 <=? dy) && (dy <=? snd (size b))).

Definition mouse_enter (b : t) : t :=
  with_sprite b (Sprite.set_current_frame (sprite b) 1).

Definition mouse_exit (b : t) : t :=
  with_sprite b (Sprite.set_current_frame (sprite b) 0).

(** What a press or a release comes to: the button it leaves and the
    function it has called, if any, or a [KeyError] raised with the button
    as it was left. *)
Inductive pressed : Type :=
| Returned (b : t) (called : option F)
| KeyError (b : t).

(** [mouse_button_down]: the frame changes first, then the dictionary is
    read. *)
Definition mouse_button_down (b : t) (button : Z) : pressed :=
  let b1 := with_sprite b (Sprite.set_current_frame (sprite b) 2) in
  match lookup (functions_down b1) button with
  | None => KeyError b1
  | Some f => Returned b1 f
  end.

Definition mouse_button_up (b : t) (button : Z) : pressed :=
  let b1 := with_sprite b (Sprite.set_current_frame (sprite b) 1) in
  match lookup (functions_up b1) button with
  | None => KeyError b1
  | Some f => Returned b1 f
  end.

(** [mouse_button_down_check] and [mouse_button_up_check]; [point] is what
    [pygame.mouse.get_pos()] returns. *)
Definition mouse_button_down_check (b : t) (button : Z) (point : Z * Z)
    : pressed :=
  if is_active b && is_selected b && contains b point
  then mouse_button_down b button
  else Returned b None.

Definition mouse_button_up_check (b : t) (button : Z) (point : Z * Z)
    : pressed :=
  if is_active b && is_selected b && contains b point
  then mouse_button_up b button
  else Returned b None.

(** [mouse_move_check] ([mouse_on] does nothing) *)
Definition mouse_move_check (b : t) (point : Z * Z) : t :=
  if negb (is_active b) then b
  else if contains b point then
    if is_selected b then b
    else mouse_enter (with_selected b true)
  else
    if is_selected b then mouse_exit (with_selected b false)
    else b.

(** What reaches a button from the menu: from its loop, the pointer
    moves and a mouse button goes down or up; from the functions the
    buttons call, the button is shown or hidden; from its set-up, the
    button is moved and given functions. *)
Inductive event : Type :=
| Moved (point : Z * Z)
| Down (button : Z) (point : Z * Z)
| Up (button : Z) (point : Z * Z)
| Active (v : bool)
| Move (dx dy : float)
| Function_down (button : Z) (f : F)
| Function_up (button : Z) (f : F).

(** The button after an event, or nothing if the event raised. *)
Definition after (b : t) (e : event) : option t :=
  match e with
  | Moved p => Some (mouse_move_check b p)
  | Down k p =>
      match mouse_button_down_check b k p with
      | Returned b' _ => Some b'
      | KeyError _ => None
      end
  | Up k p =>
      match mouse_button_up_check b k p with
      | Returned b' _ => Some b'
      | KeyError _ => None
      end
  | Active v => Some (set_active b v)
  | Move dx dy => Some (move b dx dy)
  | Function_down k f => Some (set_function_down b k f)
  | Function_up k f => Some (set_function_up b k f)
  end.

Fixpoint after_all (b : t) (es : list event) : option t :=
  match es with
  | [] => Some b
  | e :: es' =>
      match after b e with
      | Some b' => after_all b' es'
      | None => None
      end
  end.

(** The mouse buttons for which a list of events sets a function. *)
Fixpoint set_down (es : list event) : list Z :=
  match es with
  | [] => []
  | Function_down k _ :: es' => k :: set_down es'
  | _ :: es' => set_down es'
  end.

Fixpoint set_up (es : list event) : list Z :=
  match es with
  | [] => []
  | Function_up k _ :: es' => k :: set_up es'
  | _ :: es' => set_up es'
  end.

End WithCallbacks.

Arguments t : clear implicits.
Arguments dict : clear implicits.
Arguments pressed : clear implicits.
Arguments event : clear implicits.

End Button.

(** ** [level_1]: the ball among the bricks *)

Module Level1.

Section BrickLoop.

(** [self.intersects(brick)] for the ball at hand: the test goes through
    pygame's [Rect] and is left open. *)
Variable intersects : ref -> bool.

(** The loop [for brick in bricks] of [Ball.update]: the first brick met
    that the ball touches is removed, [win()] is called if no brick is
    left, and the loop is left.  The result is the brick removed, if any,
    the container, and whether [win()] was called.  (The new angle of the
    ball and the upgrade a brick may drop touch neither.) *)
Fixpoint strike (fuel : nat) (bricks : Container.t ref)
    : result (option ref * Container.t ref * bool) :=
  match fuel with
  | O => OutOfFuel
  | S fuel' =>
      match Container.next bricks with
      | Ok (brick, bricks') =>
          if intersects brick then
            left_over <- Container.remove_object brick bricks' ;;
            Ok (Some brick, left_over, (Container.len left_over =? 0)%Z)
          else strike fuel' bricks'
      | Raise StopIteration => Ok (None, bricks, false)
      | Raise e => Raise e
      | OutOfFuel => OutOfFuel
      end
  end.

Definition hit_bricks (bricks : Container.t ref)
    : result (option ref * Container.t ref * bool) :=
  strike (S (length (Container.game_objects bricks))) (Container.iter bricks).

End BrickLoop.

(** What an upgrade that multiplies the balls reads and writes: the
    position and the angle of every ball, the container [balls], the
    balls made so far, and how many angles were drawn. *)
Record state : Type := mk {
  position : ref -> Vector2.t;
  angle : ref -> float;
  balls : Container.t ref;
  next_ball : ref;
  drawn : nat
}.

Section Upgrade.

(** The value of [random() * pi * 2.0] at its n-th evaluation. *)
Variable angles : nat -> float.

(** [spawn_ball(x, y, angle)] with an angle: a ball is made at the origin,
    moved by [(x, y)], given the angle, and added to [balls]. *)
Definition spawn_ball (s : state) (x y : float) (a : float) : state :=
  let ball := next_ball s in
  mk (store (position s) ball
        (Vector2.add (Vector2.mk 0 0) (Vector2.mk x y)))
     (store (angle s) ball a)
     (Container.add_object ball (balls s))
     (S ball) (drawn s).

(** The body of the loop of an upgrade of type 0: the angle is drawn, then
    the ball is spawned, twice. *)
Definition spawn_two (s : state) (ball : ref) : state :=
  let s1 :=
    spawn_ball
      (mk (position s) (angle s) (balls s) (next_ball s) (S (drawn s)))
      (Vector2.x (position s ball)) (Vector2.y (position s ball))
      (angles (drawn s)) in
  spawn_ball
    (mk (position s1) (angle s1) (balls s1) (next_ball s1) (S (drawn s1)))
    (Vector2.x (position s1 ball)) (Vector2.y (position s1 ball))
    (angles (drawn s1)).

(** [case 0] of [Upgrade.update]: with fewer than 128 balls, the loop
    [for ball in balls.copy()] spawns two balls where each ball it meets
    is. *)
Definition multiply (s : state) : result state :=
  if (Container.len (balls s) <? 128)%Z then
    '(met, _) <- Container.for_in (Container.copy (balls s)) ;;
    Ok (fold_left spawn_two met s)
  else Ok s.

End Upgrade.

End Level1.

(** ** [level_2]: the bullets *)

Module Level2.

Local Open Scope float_scope.

(** What [Bullet.update] reads and writes: the ordinate of every bullet
    and the container [bullets]. *)
Record state : Type := mk { ordinate : ref -> float; bullets : Container.t ref }.

Section Bullets.

(** The global [delta_time], and [self.h], the height of a bullet's
    image. *)
Variable delta_time : float.
Variable h : float.

(** [Bullet.update]: the bullet moves up, and leaves the container once
    it is above the window. *)
Definition bullet_update (s : state) (self : ref) : result state :=
  let y := ordinate s self + -256 * delta_time in
  let s1 := mk (store (ordinate s) self y) (bullets s) in
  if y + h <=? 0 then
    cs <- Container.remove_object self (bullets s1) ;;
    Ok (mk (ordinate s1) cs)
  else Ok s1.

(** [Container.update] on [bullets]: the loop
    [for game_object in self.__game_objects] reads the list by a running
    index, compared with the length of the list at every turn, while the
    updates shorten the list. *)
Fixpoint update_from (fuel : nat) (s : state) (i : nat) : result state :=
  match fuel with
  | O => OutOfFuel
  | S fuel' =>
      match nth_error (Container.game_objects (bullets s)) i with
      | None => Ok s
      | Some b => s' <- bullet_update s b ;; update_from fuel' s' (S i)
      end
  end.

Definition update (s : state) : result state :=
  update_from (S (length (Container.game_objects (bullets s)))) s 0.

End Bullets.

(** The balls of [level_2] among the bullets. *)
Module Ball.

(** What [hit] and the loop of [Ball.update] over the bullets read and
    write: the three containers, the fields of the balls, the player's
    score, the global [current_level], the objects made so far, and how
    many times [random()] was compared with 0.05. *)
Record state : Type := mk {
  bullets : Container.t ref;
  balls : Container.t ref;
  upgrades : Container.t ref;
  health : ref -> Z;
  damage_cooldown : ref -> float;
  type : ref -> Z;
  score : Z;
  current_level : Z;
  next_object : ref;
  draws : nat
}.

Definition set_bullets (s : state) (c : Container.t ref) : state :=
  mk c (balls s) (upgrades s) (health s) (damage_cooldown s) (type s)
     (score s) (current_level s) (next_object s) (draws s).

Definition set_balls (s : state) (c : Container.t ref) : state :=
  mk (bullets s) c (upgrades s) (health s) (damage_cooldown s) (type s)
     (score s) (current_level s) (next_object s) (draws s).

Definition set_health (s : state) (self : ref) (v : Z) : state :=
  mk (bullets s) (balls s) (upgrades s) (store (health s) self v)
     (damage_cooldown s) (type s) (score s) (current_level s)
     (next_object s) (draws s).

Section Hits.

(** [self.intersects(bullet)] for the ball at hand, [player.damage], the
    outcome of the n-th comparison [random() < 0.05], and the health
    [round(timer / 32.0 + 1.0)] of a ball made now. *)
Variable touches : ref -> bool.
Variable damage : Z.
Variable drop : nat -> bool.
Variable new_health : Z.

(** [player.add_score]: [win()] sets [current_level] to 0. *)
Definition add_score (s : state) (points : Z) : state :=
  let total := (score s + points)%Z in
  mk (bullets s) (balls s) (upgrades s) (health s) (damage_cooldown s)
     (type s) total
     (if (1000 <=? total)%Z then 0%Z else current_level s)
     (next_object s) (draws s).

(** [upgrades.add_object(Upgrade(...))] *)
Definition new_upgrade (s : state) : state :=
  mk (bullets s) (balls s)
     (Container.add_object (next_object s) (upgrades s))
     (health s) (damage_cooldown s) (type s) (score s) (current_level s)
     (S (next_object s)) (draws s).

(** [balls.add_object(Ball((0, side, position)))]: a ball of type 0. *)
Definition new_ball (s : state) : state :=
  let r := next_object s in
  mk (bullets s) (Container.add_object r (balls s)) (upgrades s)
     (store (health s) r new_health) (store (damage_cooldown s) r 0)
     (store (type s) r 0%Z) (score s) (current_level s) (S r) (draws s).

(** [hit] *)
Definition hit (s : state) (self : ref) (dmg : Z) : result state :=
  if 0 <? damage_cooldown s self then Ok s
  else
    let s1 := add_score s (Z.min dmg (health s self)) in
    let s2 := set_health s1 self (health s1 self - dmg)%Z in
    if (health s2 self <=? 0)%Z then
      left_over <- Container.remove_object self (balls s2) ;;
      let s3 := set_balls s2 left_over in
      let drawn :=
        mk (bullets s3) (balls s3) (upgrades s3) (health s3)
           (damage_cooldown s3) (type s3) (score s3) (current_level s3)
           (next_object s3) (S (draws s3)) in
      let s4 := if drop (draws s3) || (type s3 self =? 2)%Z
                then new_upgrade drawn else drawn in
      Ok (if (type s4 self =? 1)%Z then new_ball (new_ball s4) else s4)
    else Ok s2.

(** The loop [for bullet in bullets] of [Ball.update]: a bullet the ball
    touches is removed, and the ball is hit. *)
Fixpoint strike (fuel : nat) (s : state) (self : ref) : result state :=
  match fuel with
  | O => OutOfFuel
  | S fuel' =>
      match Container.next (bullets s) with
      | Ok (bullet, met) =>
          let s1 := set_bullets s met in
          if touches bullet then
            left_over <- Container.remove_object bullet (bullets s1) ;;
            s2 <- hit (set_bullets s1 left_over) self damage ;;
            strike fuel' s2 self
          else strike fuel' s1 self
      | Raise StopIteration => Ok s
      | Raise e => Raise e
      | OutOfFuel => OutOfFuel
      end
  end.

Definition hit_by_bullets (s : state) (self : ref) : result state :=
  strike (S (length (Container.game_objects (bullets s))))
         (set_bullets s (Container.iter (bullets s))) self.

End Hits.

End Ball.

End Level2.

(** ** Notions used by the statements *)

(** The order [sorted(l, key=key)] establishes. *)
Definition ascending_key {A : Type} (key : A -> Z) (a b : A) : Prop :=
  key a <= key b.

(** The container [cells] holds its references in ascending order of mass. *)
Definition mass_le (w : world) (a b : ref) : Prop :=
  mass_key w a <= mass_key w b.

Definition sorted_by_mass (w : world) : Prop :=
  StronglySorted (mass_le w) (Container.game_objects (cells w)).

(** No cell is held twice by the container, and every reference it holds
    was handed out by the store. *)
Definition distinct_cells (w : world) : Prop :=
  NoDup (Container.game_objects (cells w)).

Definition allocated_cells (w : world) : Prop :=
  forall r, In r (Container.game_objects (cells w)) -> (r < next_cell w)%nat.

(** The same, on a list of references read in a given world. *)
Definition ascending (w : world) (l : list ref) : Prop :=
  StronglySorted (mass_le w) l.

(** The cells the specification calls the preys and the predators of a
    mass: lighter, respectively heavier, by more than 1024. *)
Definition is_prey_of (w : world) (m : Z) (r : ref) : bool :=
  mass_key w r <? m - 1024.

Definition is_predator_of (w : world) (m : Z) (r : ref) : bool :=
  m + 1024 <? mass_key w r.

(** Two worlds with the same list [cells] and the same masses: what a step
    that only moves cells or steers entities leaves unchanged. *)
Definition same_masses (w w' : world) : Prop :=
  Container.game_objects (cells w') = Container.game_objects (cells w)
  /\ forall r, mass_key w' r = mass_key w r.

(** A position inside the window, bounds included. *)
Definition in_window (p : Vector2.t) : bool :=
  (PrimFloat.leb 0 (Vector2.x p)
   && PrimFloat.leb (Vector2.x p) (Flt.of_Z (fst WIN_SIZE)))
  && (PrimFloat.leb 0 (Vector2.y p)
      && PrimFloat.leb (Vector2.y p) (Flt.of_Z (snd WIN_SIZE))).

(** The squared distance between the centres of two cells. *)
Definition sqr_distance (w : world) (a b : ref) : float :=
  Vector2.distance_squared_to (position (heap w a)) (position (heap w b)).

(** [p.mass * 1.125 < c.mass]: the cell [p] is a prey candidate of [c]. *)
Definition candidate_of (w : world) (c p : ref) : bool :=
  PrimFloat.ltb (PrimFloat.mul (Flt.of_Z (mass_key w p)) 1.125)
                (Flt.of_Z (mass_key w c)).

(** No candidate of [c] in the population is nearer to [c] than [p]. *)
Definition nearest_candidate (w : world) (c p : ref) : bool :=
  forallb (fun r => negb (candidate_of w c r)
                    || PrimFloat.leb (sqr_distance w p c) (sqr_distance w r c))
          (Container.game_objects (cells w)).

(** The centre of [p] lies within half the radius of [c]. *)
Definition within_reach (w : world) (c p : ref) : bool :=
  PrimFloat.leb (sqr_distance w p c)
                (PrimFloat.div (sqr_radius (heap w c)) 4).

(** The distance between the centres of two cells. *)
Definition centre_distance (w : world) (a b : ref) : float :=
  Vector2.magnitude (Vector2.sub (position (heap w b)) (position (heap w a))).

(** The mass of the population: the sum over the container [cells]. *)
Definition total_mass (w : world) : Z :=
  fold_right Z.add 0 (map (mass_key w) (Container.game_objects (cells w))).

(** Two worlds whose entities have the same class, the same [cell_count]
    and the same list of cells. *)
Definition same_entities (w w' : world) : Prop :=
  forall e,
    class_of (entity_heap w' e) = class_of (entity_heap w e)
    /\ cell_count (entity_heap w' e) = cell_count (entity_heap w e)
    /\ e_cells (entity_heap w' e) = e_cells (entity_heap w e).

(** The preys of a mass in the population, whatever its order: the cells
    lighter than the mass by more than 1024.  The near ones among them:
    those whose centre is within four times the radius of that mass from a
    position, the squared distance being compared with
    [get_radius(mass) ** 2 * 16.0]. *)
Definition prey_set (w : world) (m : Z) : list ref :=
  filter (is_prey_of w m) (Container.game_objects (cells w)).

Definition is_near (w : world) (m : Z) (pos : Vector2.t) (r : ref) : bool :=
  PrimFloat.leb
    (Vector2.distance_squared_to pos (position (heap w r)))
    (PrimFloat.mul
       (Flt.pow_two (Flt.pow_half (PrimFloat.div (Flt.of_Z m) Flt.pi))) 16).

Definition near_prey_set (w : world) (m : Z) (pos : Vector2.t) : list ref :=
  filter (is_near w m pos) (prey_set w m).

(** The frames of a list that carry a given key, in their order. *)
Definition with_key {A : Type} (key : A -> Z) (k : Z) (l : list A) : list A :=
  filter (fun x => key x =? k) l.

(** A sprite that shows the frame named by its [current_frame], an index
    into its frames. *)
Definition shows_current {S : Type} (s : Sprite.t S) : Prop :=
  0 <= Sprite.current_frame s
  /\ nth_error (Sprite.frames s) (Z.to_nat (Sprite.current_frame s))
     = Some (Sprite.image s).

(** A button of the three surfaces [image], [selected] and [pressed] that
    shows [image] when the pointer is not on it, and [selected] or
    [pressed] when it is. *)
Definition shows_its_state {S F : Type} (image selected pressed : S)
    (b : Button.t S F) : Prop :=
  Sprite.frames (Button.sprite b) = [image; selected; pressed]
  /\ if Button.is_selected b
     then (Sprite.current_frame (Button.sprite b) = 1
           /\ Sprite.image (Button.sprite b) = selected)
          \/ (Sprite.current_frame (Button.sprite b) = 2
              /\ Sprite.image (Button.sprite b) = pressed)
     else Sprite.current_frame (Button.sprite b) = 0
          /\ Sprite.image (Button.sprite b) = image.

(** The keys of a [dict]. *)
Definition keys {F : Type} (d : Button.dict F) : list Z := map fst d.

(** The events that come from the pointer and the mouse buttons. *)
Definition from_the_mouse {F : Type} (e : Button.event F) : bool :=
  match e with
  | Button.Moved _ | Button.Down _ _ | Button.Up _ _ => true
  | _ => false
  end.

(** Where [Bullet.update] takes a bullet, and whether it then is above
    the window. *)
Definition risen (delta_time : float) (s : Level2.state) (r : ref) : float :=
  PrimFloat.add (Level2.ordinate s r)
                (PrimFloat.mul (PrimFloat.opp 256) delta_time).

Definition leaves (delta_time h : float) (s : Level2.state) (r : ref)
    : bool :=
  PrimFloat.leb (PrimFloat.add (risen delta_time s r) h) 0.

(** The objects a loop over a list reaches when the turn of an object
    that is [leaving] removes it from the list: the object after a
    removed one takes its place and is passed over. *)
Fixpoint reached (leaving : ref -> bool) (l : list ref) : list ref :=
  match l with
  | [] => []
  | a :: rest =>
      a :: (if leaving a
            then match rest with
                 | [] => []
                 | _ :: rest' => reached leaving rest'
                 end
            else reached leaving rest)
  end.

(** The fields a cell derives from its mass are those of its mass: the
    radius, its square, the speed, and the point count, which is
    [get_point_count] of the mass. *)
Definition derived_from_mass (c : cell_obj) : Prop :=
  Cell.get_radius (mass c) = Ok (radius c)
  /\ sqr_radius c = PrimFloat.mul (radius c) (radius c)
  /\ Cell.get_point_count (Flt.of_Z (mass c)) = Ok (point_count c)
  /\ Cell.speed_for (mass c) = Ok (speed c).

(** Two worlds with the same list [cells] whose cells differ by their
    positions at most. *)
Definition only_positions (w w' : world) : Prop :=
  Container.game_objects (cells w') = Container.game_objects (cells w)
  /\ forall r, set_position (heap w' r) (position (heap w r)) = heap w r.

(** ** Scenarios *)

Module Scenario.

Local Open Scope float_scope.

(** The initial [delta_time = 1.0 / MAX_FPS]. *)
Definition dt0 : float := 1 / Flt.of_Z MAX_FPS.

(** A draw of the ten enemy positions in which the first enemy lands next
    to the player: its first cell at (378, 361) is within half the radius
    of the player's cell at (360, 360), its second cell is not. *)
Definition near_first : list (Z * Z) :=
  [(378, 361); (10, 10); (700, 20); (50, 600); (300, 100);
   (100, 300); (650, 650); (400, 500); (200, 200); (500, 50)]%Z.

(** The same draw with the first two enemies exchanged. *)
Definition near_second : list (Z * Z) :=
  [(10, 10); (378, 361); (700, 20); (50, 600); (300, 100);
   (100, 300); (650, 650); (400, 500); (200, 200); (500, 50)]%Z.

Definition game_start : result world := Level3.setup dt0 near_first.

Definition game_start' : result world := Level3.setup dt0 near_second.

(** The mouse resting on the middle of the window. *)
Definition mouse_mid : Z * Z := (360, 360)%Z.

(** The first frame of [game_start'], the mouse resting. *)
Definition first_frame' : result world :=
  w <- game_start' ;; Level3.frame w mouse_mid dt0.

(** A lone entity of mass 1024. *)
Definition lone_1024 : result world :=
  Level3.add_entity (Ok (Level3.empty dt0)) Enemy_class (Vector2.mk 100 100)
                    1024.

(** Its first cell after [change_mass(1024)]. *)
Definition lone_2048 : result world :=
  w <- lone_1024 ;; Cell.change_mass w 0%nat 1024.

(** A player created in the corner (0, 0) of the window. *)
Definition corner_player : result world :=
  Level3.add_entity (Ok (Level3.empty dt0)) Player_class (Vector2.mk 0 0)
                    4096.

(** Its first [update], the mouse in the corner too: the state in which
    [update] calls [push_away], and the one [push_away] leaves. *)
Definition corner_before_push : result world :=
  w <- corner_player ;; Player.before_push w 0%nat (0, 0)%Z.

Definition corner_pushed : result world :=
  w <- corner_before_push ;; Entity.push_away w 0%nat.

(** An entity of mass 16 one unit from the right edge, steered to a
    destination 100 units to the right, outside the window. *)
Definition edge_enemy : result world :=
  w <- Level3.add_entity (Ok (Level3.empty dt0)) Enemy_class
         (Vector2.mk 719 300) 16 ;;
  Ok (Entity.add_direction w 0%nat (Vector2.mk 100 0) 1).

Definition edge_updated : result world :=
  w <- edge_enemy ;; Cell.update w 0%nat.

(** The player's [update] in the first frame of [game_start] and of
    [game_start']: the state in which it calls [push_away], the state
    [push_away] leaves, which is the one [update] leaves, and for
    [game_start'] the state after a second pass of [push_away]. *)
Definition before_push : result world :=
  w <- game_start ;; Player.before_push w 0%nat mouse_mid.

Definition after_update : result world :=
  w <- before_push ;; Entity.push_away w 0%nat.

Definition before_push' : result world :=
  w <- game_start' ;; Player.before_push w 0%nat mouse_mid.

Definition after_update' : result world :=
  w <- before_push' ;; Entity.push_away w 0%nat.

Definition pushed_twice : result world :=
  w <- after_update' ;; Entity.push_away w 0%nat.

(** The world a scenario builds (the empty one if it raised, which the
    statements below rule out). *)
Definition world_of (r : result world) : world :=
  match r with
  | Ok w => w
  | _ => Level3.empty 0
  end.

(** A list of references without repeats, decided. *)
Fixpoint distinct (l : list ref) : bool :=
  match l with
  | [] => true
  | x :: l' => negb (existsb (Nat.eqb x) l') && distinct l'
  end.

(** The first turn of the player's loop over its cells in [game_start'],
    taken alone. *)
Definition absorbed' : result world :=
  w <- game_start' ;; Player.absorb w 0%nat.

(** The second and the third frame of [game_start']. *)
Definition second_frame' : result world :=
  w <- first_frame' ;; Level3.frame w mouse_mid dt0.

Definition third_frame' : result world :=
  w <- second_frame' ;; Level3.frame w mouse_mid dt0.

(** The first enemy's [update] in [game_start]. *)
Definition enemy_updated : result world :=
  w <- game_start ;; Enemy.update w 1%nat.

(** What [level_3] has built for [game_start] when it calls
    [start_new_game]: the player and the ten enemies, their cells in the
    order in which they were made. *)
Definition before_sort : result world :=
  fold_left
    (fun r p =>
       Level3.add_entity r Enemy_class
         (Vector2.mk (Flt.of_Z (fst p)) (Flt.of_Z (snd p))) 512)
    near_first
    (Level3.add_entity (Ok (Level3.empty dt0)) Player_class
       (Vector2.mk (Flt.of_Z (fst WIN_SIZE) / 2) (Flt.of_Z (snd WIN_SIZE) / 2))
       4096).

(** The first frame of [game_start'] when it takes half a second. *)
Definition slow_frame' : result world :=
  w <- game_start' ;; Level3.frame w mouse_mid 0.5.

(** In the first frame of [game_start'], after the player's [update]: the
    state in which the first enemy has moved its cells and is about to
    look for predators and preys. *)
Definition enemy_moved' : result world :=
  w <- after_update' ;; Entity.update w 1%nat.

(** A button 100 wide and 40 high, its three surfaces named 10, 11 and
    12, and the functions it may call named by numbers. *)
Definition button : Button.t nat nat :=
  Button.init 10%nat 11%nat 12%nat (100, 40)%float.

(** A sprite of three frames showing the second. *)
Definition sprite : Sprite.t nat :=
  Sprite.mk [10; 11; 12]%nat 1 11%nat.

(** Three bullets 14 high, the first two about to leave the window by
    its upper edge, one behind the other, the third far below. *)
Definition volley : Level2.state :=
  Level2.mk
    (fun r => match r with
              | O => -13.5
              | S O => -13.75
              | _ => 100
              end)
    (Container.init [0; 1; 2]%nat).

(** Four bullets and one ball, of health 1, type 0 and no cooldown; the
    objects 0 to 10 are in use. *)
Definition salvo : Level2.Ball.state :=
  Level2.Ball.mk (Container.init [0; 1; 2; 3]%nat)
                 (Container.init [10%nat]) (Container.init [])
                 (fun _ => 1%Z) (fun _ => 0) (fun _ => 0%Z) 0%Z 2%Z
                 11%nat 0%nat.

(** Three balls of level 1, the objects 0 to 2. *)
Definition three_balls : Level1.state :=
  Level1.mk
    (fun r => match r with
              | O => Vector2.mk 100 600
              | S O => Vector2.mk 200 500
              | _ => Vector2.mk 300 400
              end)
    (fun _ => 0) (Container.init [0; 1; 2]%nat) 3%nat 0%nat.

(** References in these scenarios: entity 0 is the first one created and
    owns the cells 0 and 1; the next entity owns the cells 2 and 3. *)
Definition player : ref := 0%nat.
Definition p0 : ref := 0%nat.
Definition p1 : ref := 1%nat.
Definition e0 : ref := 2%nat.
Definition e1 : ref := 3%nat.

End Scenario.

(** * Properties *)

(** ** Lists and containers *)

Lemma getitem_nth {A : Type} (l : list A) (n : nat) (x : A) :
  nth_error l n = Some x -> Py.getitem l (Z.of_nat n) = Ok x.
Proof.
  intros H. unfold Py.getitem, Py.len.
  assert (n < length l)%nat by (apply nth_error_Some; congruence).
  destruct (Z.ltb_spec (Z.of_nat n) 0); [lia|].
  destruct (Z.leb_spec 0 (Z.of_nat n)); [|lia].
  destruct (Z.ltb_spec (Z.of_nat n) (Z.of_nat (length l))); [|lia].
  simpl. rewrite Nat2Z.id, H. reflexivity.
Qed.

Lemma getitem_beyond {A : Type} (l : list A) (n : nat) :
  (length l <= n)%nat -> Py.getitem l (Z.of_nat n) = Raise IndexError.
Proof.
  intros H. unfold Py.getitem, Py.len.
  destruct (Z.ltb_spec (Z.of_nat n) 0); [lia|].
  destruct (Z.ltb_spec (Z.of_nat n) (Z.of_nat (length l))); [lia|].
  rewrite andb_false_r. reflexivity.
Qed.

Lemma slice_to_nat {A : Type} (l : list A) (n : nat) :
  (n <= length l)%nat -> Py.slice_to l (Z.of_nat n) = firstn n l.
Proof.
  intros H. unfold Py.slice_to, Py.slice_bound, Py.len.
  destruct (Z.ltb_spec (Z.of_nat n) 0); [lia|].
  rewrite Z.min_l by lia. rewrite Nat2Z.id. reflexivity.
Qed.

Lemma slice_from_nat {A : Type} (l : list A) (n : nat) :
  Py.slice_from l (Z.of_nat n) = skipn n l.
Proof.
  unfold Py.slice_from, Py.slice_bound, Py.len.
  destruct (Z.ltb_spec (Z.of_nat n) 0); [lia|].
  destruct (Nat.le_gt_cases n (length l)).
  - rewrite Z.min_l by lia. rewrite Nat2Z.id. reflexivity.
  - rewrite Z.min_r by lia. rewrite Nat2Z.id.
    rewrite !skipn_all2 by lia. reflexivity.
Qed.

(** The loop [for x in c] started at index [n] hands out the objects after
    index [n], and stops with the index on the last object. *)
Lemma drain_from {A : Type} (l : list A) :
  forall (fuel n : nat),
    (length l <= n + fuel)%nat ->
    Container.drain (S fuel) (Container.mk l (Z.of_nat n))
    = Ok (skipn (S n) l,
          Container.mk l (Z.of_nat (Nat.max n (length l - 1)))).
Proof.
  induction fuel as [|fuel IH]; intros n Hlen.
  - cbn [Container.drain]. unfold Container.next. cbn [Container.game_objects Container.index].
    unfold Py.len.
    destruct (Z.ltb_spec (Z.of_nat n + 1) (Z.of_nat (length l))); [lia|].
    rewrite skipn_all2 by lia.
    replace (Nat.max n (length l - 1)) with n by lia. reflexivity.
  - remember (S fuel) as f eqn:Hf.
    cbn [Container.drain]. unfold Container.next.
    cbn [Container.game_objects Container.index]. unfold Py.len.
    destruct (Z.ltb_spec (Z.of_nat n + 1) (Z.of_nat (length l))) as [Hlt|Hge].
    + destruct (nth_error l (S n)) as [x|] eqn:Hx.
      2:{ apply nth_error_None in Hx. lia. }
      replace (Z.of_nat n + 1) with (Z.of_nat (S n)) by lia.
      rewrite (getitem_nth _ _ _ Hx). cbn [bind].
      subst f. rewrite IH by lia. cbn [bind].
      replace (Nat.max (S n) (length l - 1)) with (Nat.max n (length l - 1)) by lia.
      f_equal. f_equal.
      clear - Hx. revert l Hx. generalize (S n) as k.
      induction k as [|k IHk]; intros [|y l] Hx; simpl in *; try discriminate.
      * congruence.
      * apply IHk. exact Hx.
    + rewrite skipn_all2 by lia.
      replace (Nat.max n (length l - 1)) with n by lia. reflexivity.
Qed.

(** [for x in c] hands out the tail of the list of objects. *)
Lemma for_in_tail {A : Type} (c : Container.t A) :
  Container.for_in c
  = Ok (tl (Container.game_objects c),
        Container.mk (Container.game_objects c)
                     (Z.of_nat (length (Container.game_objects c) - 1))).
Proof.
  unfold Container.for_in, Container.iter.
  change 0 with (Z.of_nat 0).
  rewrite drain_from by lia.
  rewrite Nat.max_0_l.
  destruct (Container.game_objects c); reflexivity.
Qed.

(** ** The classifier *)

(** [get_predators] never leaves its starting index: on a non-empty
    container the guard [index + 1 < len(cells)] is false at once, and the
    slice taken after the last index is empty. *)
Lemma get_predators_empty (w : world) (m : Z) :
  Container.game_objects (cells w) <> [] ->
  Cell.get_predators w m = Ok [].
Proof.
  intros Hne. unfold Cell.get_predators.
  set (l := Container.game_objects (cells w)) in *.
  destruct (nth_error l (length l - 1)) as [c|] eqn:Hc.
  2:{ apply nth_error_None in Hc. destruct l; [congruence|simpl in Hc; lia]. }
  assert (Hlen : (0 < length l)%nat) by (destruct l; [congruence|simpl; lia]).
  cbn [Cell.predators_scan]. unfold Container.getitem, Container.len, Py.len.
  fold l.
  replace (Z.of_nat (length l) - 1) with (Z.of_nat (length l - 1)) by lia.
  rewrite (getitem_nth _ _ _ Hc). cbn [bind].
  destruct (Z.ltb_spec (Z.of_nat (length l - 1) + 1) (Z.of_nat (length l))); [lia|].
  rewrite andb_false_r. cbn [bind].
  replace (Z.of_nat (length l - 1) + 1) with (Z.of_nat (length l)) by lia.
  rewrite slice_from_nat, skipn_all. reflexivity.
Qed.

(** On an empty container [get_predators] reads [cells[-1]]. *)
Lemma get_predators_no_cell (w : world) (m : Z) :
  Container.game_objects (cells w) = [] ->
  Cell.get_predators w m = Raise IndexError.
Proof.
  intros He. unfold Cell.get_predators.
  cbn [Cell.predators_scan]. unfold Container.getitem, Container.len.
  rewrite He. reflexivity.
Qed.

(** The scan of [get_preys], started after a prefix of the list: it stops at
    the first cell that is not lighter than [m - 1024], provided there is
    one. *)
Lemma preys_scan_stops (w : world) (m : Z) :
  forall (suf pre : list ref),
    Container.game_objects (cells w) = pre ++ suf ->
    (exists c, In c suf /\ m <= mass_key w c + 1024) ->
    exists k,
      Cell.preys_scan (S (length suf)) w m (Z.of_nat (length pre))
      = Ok (Z.of_nat (length pre + k))
      /\ (k < length suf)%nat
      /\ Forall (fun r => mass_key w r + 1024 < m) (firstn k suf)
      /\ (forall c, nth_error suf k = Some c -> m <= mass_key w c + 1024).
Proof.
  induction suf as [|x suf IH]; intros pre Hl [c [Hin Hc]].
  - destruct Hin.
  - cbn [length]. remember (S (length suf)) as f eqn:Hf.
    cbn [Cell.preys_scan].
    unfold Container.getitem. rewrite Hl.
    assert (Hx : nth_error (pre ++ x :: suf) (length pre) = Some x).
    { rewrite nth_error_app2 by lia. rewrite Nat.sub_diag. reflexivity. }
    rewrite (getitem_nth _ _ _ Hx). cbn [bind].
    destruct (Z.ltb_spec (mass_key w x + 1024) m) as [Hlt|Hge].
    + destruct Hin as [->|Hin]; [lia|].
      destruct (IH (pre ++ [x])) as [k [Hk [Hkl [Hall Hnth]]]].
      * rewrite <- app_assoc. exact Hl.
      * exists c. auto.
      * exists (S k). rewrite length_app in Hk. cbn [length] in Hk.
        replace (Z.of_nat (length pre) + 1) with (Z.of_nat (length pre + 1)) by lia.
        subst f. rewrite Hk. repeat split.
        -- f_equal. lia.
        -- simpl. lia.
        -- simpl. constructor; assumption.
        -- simpl. exact Hnth.
    + exists 0%nat. repeat split.
      * f_equal. lia.
      * simpl. lia.
      * simpl. constructor.
      * simpl. intros c' [= <-]. exact Hge.
Qed.

(** In an ascending list, the cells before the first one that is not a prey
    are all the preys. *)
Lemma ascending_prefix_is_filter (w : world) (m : Z) :
  forall (l : list ref) (k : nat),
    ascending w l ->
    Forall (fun r => mass_key w r + 1024 < m) (firstn k l) ->
    (k < length l)%nat ->
    (forall c, nth_error l k = Some c -> m <= mass_key w c + 1024) ->
    firstn k l = filter (is_prey_of w m) l.
Proof.
  induction l as [|x l IH]; intros k Hs Hall Hk Hnth.
  - simpl in Hk. lia.
  - inversion Hs as [|? ? Hs' Hx]; subst.
    destruct k as [|k].
    + simpl. specialize (Hnth x eq_refl).
      unfold is_prey_of at 1.
      destruct (Z.ltb_spec (mass_key w x) (m - 1024)); [lia|].
      clear - Hx Hnth. induction l as [|y l IHl]; [reflexivity|].
      inversion Hx as [|? ? Hy Hx']; subst. simpl.
      unfold mass_le in *. unfold is_prey_of at 1.
      destruct (Z.ltb_spec (mass_key w y) (m - 1024)); [lia|].
      apply IHl. exact Hx'.
    + simpl in *. inversion Hall as [|? ? Hx0 Hall']; subst.
      unfold is_prey_of at 1.
      destruct (Z.ltb_spec (mass_key w x) (m - 1024)); [|lia].
      f_equal. apply IH; auto. lia.
Qed.

(** [get_preys] on an ascending container, for a mass at which the scan
    stops: a prefix of the container, and exactly the preys. *)
Lemma get_preys_filter (w : world) (m : Z) :
  sorted_by_mass w ->
  (exists c, In c (Container.game_objects (cells w))
             /\ m <= mass_key w c + 1024) ->
  exists k,
    Cell.get_preys w m = Ok (firstn k (Container.game_objects (cells w)))
    /\ firstn k (Container.game_objects (cells w))
       = filter (is_prey_of w m) (Container.game_objects (cells w)).
Proof.
  intros Hs Hc. unfold Cell.get_preys.
  destruct (preys_scan_stops w m (Container.game_objects (cells w)) [])
    as [k [Hk [Hkl [Hall Hnth]]]]; [reflexivity|exact Hc|].
  change (Z.of_nat (length (@nil ref))) with 0 in Hk.
  cbn [length Nat.add] in Hk. rewrite Hk. cbn [bind].
  rewrite slice_to_nat by lia.
  exists k. split; [reflexivity|].
  apply ascending_prefix_is_filter; assumption.
Qed.

(** ** The scan of [get_preys] past the end *)

Lemma preys_scan_off_end (w : world) (m : Z) :
  forall (suf pre : list ref),
    Container.game_objects (cells w) = pre ++ suf ->
    Forall (fun r => mass_key w r + 1024 < m) suf ->
    Cell.preys_scan (S (length suf)) w m (Z.of_nat (length pre))
    = Raise IndexError.
Proof.
  induction suf as [|x suf IH]; intros pre Hl Hall.
  - cbn [Cell.preys_scan length]. unfold Container.getitem. rewrite Hl.
    rewrite getitem_beyond; [reflexivity|].
    rewrite length_app. simpl. lia.
  - cbn [length]. remember (S (length suf)) as f eqn:Hf.
    cbn [Cell.preys_scan]. unfold Container.getitem. rewrite Hl.
    assert (Hx : nth_error (pre ++ x :: suf) (length pre) = Some x).
    { rewrite nth_error_app2 by lia. rewrite Nat.sub_diag. reflexivity. }
    rewrite (getitem_nth _ _ _ Hx). cbn [bind].
    inversion Hall as [|? ? Hlt Hall']; subst.
    destruct (Z.ltb_spec (mass_key w x + 1024) m); [|lia].
    replace (Z.of_nat (length pre) + 1) with (Z.of_nat (length (pre ++ [x])))
      by (rewrite length_app; simpl; lia).
    apply IH; [rewrite <- app_assoc; exact Hl|exact Hall'].
Qed.

(** When every cell of the container is lighter than [m - 1024] (and so on
    an empty container), [get_preys] raises [IndexError]. *)
Lemma get_preys_all_lighter (w : world) (m : Z) :
  Forall (fun r => mass_key w r + 1024 < m) (Container.game_objects (cells w)) ->
  Cell.get_preys w m = Raise IndexError.
Proof.
  intros Hall. unfold Cell.get_preys.
  change 0 with (Z.of_nat (length (@nil ref))).
  rewrite (preys_scan_off_end w m (Container.game_objects (cells w)) []);
    [reflexivity|reflexivity|exact Hall].
Qed.

(** [get_preys] always ends: with a prefix of the container, or with
    [IndexError]. *)
Lemma get_preys_total (w : world) (m : Z) :
  Cell.get_preys w m = Raise IndexError
  \/ exists k,
       Cell.get_preys w m = Ok (firstn k (Container.game_objects (cells w))).
Proof.
  destruct (Forall_Exists_dec (fun r => mass_key w r + 1024 < m)
              (fun r => Z_lt_dec (mass_key w r + 1024) m)
              (Container.game_objects (cells w))) as [Hall|Hex].
  - left. apply get_preys_all_lighter. exact Hall.
  - right. apply Exists_exists in Hex. destruct Hex as [c [Hin Hc]].
    destruct (preys_scan_stops w m (Container.game_objects (cells w)) [])
      as [k [Hk [Hkl _]]]; [reflexivity|exists c; split; [exact Hin|lia]|].
    change (Z.of_nat (length (@nil ref))) with 0 in Hk.
    cbn [length Nat.add] in Hk.
    exists k. unfold Cell.get_preys. rewrite Hk. cbn [bind].
    rewrite slice_to_nat by lia. reflexivity.
Qed.

(** ** Results *)

Lemma bind_ok {A B : Type} (r : result A) (k : A -> result B) (b : B) :
  bind r k = Ok b -> exists a, r = Ok a /\ k a = Ok b.
Proof.
  destruct r as [a| |]; simpl; intros H; try discriminate.
  exists a. auto.
Qed.

(** Splits a hypothesis [x <- r ;; k = Ok b] into its two steps. *)
Ltac bind_inv H :=
  let a := fresh "a" in
  let Ha := fresh "Ha" in
  apply bind_ok in H; destruct H as [a [Ha H]].

(** ** Sorting *)

Section Sorting.

Context {A : Type} (key : A -> Z).

#[local] Abbreviation key_le := (ascending_key key).

Lemma insert_by_In (x y : A) (l : list A) :
  In y (Py.insert_by key x l) <-> y = x \/ In y l.
Proof.
  induction l as [|z l IH]; simpl.
  - intuition.
  - destruct (key x <=? key z); simpl; rewrite ?IH; intuition.
Qed.

Lemma insert_by_sorted (x : A) (l : list A) :
  StronglySorted key_le l -> StronglySorted key_le (Py.insert_by key x l).
Proof.
  induction 1 as [|z l Hs IH Hz]; simpl.
  - repeat constructor.
  - destruct (Z.leb_spec (key x) (key z)) as [Hle|Hgt].
    + constructor; [constructor; assumption|].
      constructor; [exact Hle|].
      eapply Forall_impl; [|exact Hz].
      unfold ascending_key. intros a Ha. lia.
    + constructor; [exact IH|].
      apply Forall_forall. intros y Hy.
      apply insert_by_In in Hy. destruct Hy as [->|Hy].
      * unfold ascending_key. lia.
      * rewrite Forall_forall in Hz. auto.
Qed.

Lemma sorted_is_sorted (l : list A) : StronglySorted key_le (Py.sorted key l).
Proof.
  induction l as [|x l IH]; simpl.
  - constructor.
  - apply insert_by_sorted. exact IH.
Qed.

Lemma insert_by_perm (x : A) (l : list A) :
  Permutation (Py.insert_by key x l) (x :: l).
Proof.
  induction l as [|z l IH]; simpl.
  - reflexivity.
  - destruct (key x <=? key z).
    + reflexivity.
    + rewrite IH. apply perm_swap.
Qed.

Lemma sorted_perm (l : list A) : Permutation (Py.sorted key l) l.
Proof.
  induction l as [|x l IH]; simpl.
  - reflexivity.
  - rewrite insert_by_perm. constructor. exact IH.
Qed.

(** Sorting a list that is in order already changes nothing. *)
Lemma sorted_fixpoint (l : list A) :
  StronglySorted key_le l -> Py.sorted key l = l.
Proof.
  induction 1 as [|z l Hs IH Hz]; simpl.
  - reflexivity.
  - rewrite IH. destruct l as [|y l]; [reflexivity|]. simpl.
    inversion Hz as [|? ? Hy _]; subst. unfold ascending_key in Hy.
    destruct (Z.leb_spec (key z) (key y)); [reflexivity|lia].
Qed.

End Sorting.

Lemma remove_sorted (R : ref -> ref -> Prop) (x : ref) :
  forall (l l' : list ref),
    Py.remove x l = Ok l' -> StronglySorted R l -> StronglySorted R l'.
Proof.
  induction l as [|y l IH]; simpl; intros l' H Hs.
  - discriminate.
  - inversion Hs as [|? ? Hs' Hy]; subst.
    destruct (Nat.eqb y x).
    + injection H as <-. exact Hs'.
    + bind_inv H. injection H as <-.
      constructor; [eapply IH; eauto|].
      rewrite Forall_forall in *. intros z Hz. apply Hy.
      clear - Ha Hz. revert a Ha Hz.
      induction l as [|u l IHl]; simpl; intros a Ha Hz; [discriminate|].
      destruct (Nat.eqb u x).
      * injection Ha as <-. auto.
      * bind_inv Ha. injection Ha as <-. destruct Hz as [->|Hz]; eauto.
Qed.

Lemma remove_In (x : ref) :
  forall (l l' : list ref) (z : ref),
    Py.remove x l = Ok l' -> In z l' -> In z l.
Proof.
  induction l as [|u l IHl]; simpl; intros l' z Ha Hz; [discriminate|].
  destruct (Nat.eqb u x).
  - injection Ha as <-. auto.
  - bind_inv Ha. injection Ha as <-. destruct Hz as [->|Hz]; eauto.
Qed.

(** A reference held by the list can be removed. *)
Lemma remove_present (x : ref) :
  forall (l : list ref), In x l -> exists l', Py.remove x l = Ok l'.
Proof.
  induction l as [|u l IHl]; simpl; intros Hin; [destruct Hin|].
  destruct (Nat.eqb_spec u x) as [->|Hne].
  - eauto.
  - destruct Hin as [->|Hin]; [congruence|].
    destruct (IHl Hin) as [l' ->]. simpl. eauto.
Qed.

(** Without repeats, the removed reference is gone. *)
Lemma remove_absent (x : ref) :
  forall (l l' : list ref),
    NoDup l -> Py.remove x l = Ok l' -> ~ In x l'.
Proof.
  induction l as [|u l IHl]; simpl; intros l' Hnd Ha; [discriminate|].
  inversion Hnd as [|? ? Hu Hnd']; subst.
  destruct (Nat.eqb_spec u x) as [->|Hne].
  - injection Ha as <-. exact Hu.
  - bind_inv Ha. injection Ha as <-. simpl. intros [E|Hin]; [congruence|].
    eapply IHl; eauto.
Qed.

(** ** Steps that keep the masses *)

Lemma StronglySorted_weaken {A : Type} (R R' : A -> A -> Prop) (l : list A) :
  (forall a b, R a b -> R' a b) -> StronglySorted R l -> StronglySorted R' l.
Proof.
  intros HR. induction 1 as [|x l Hs IH Hx]; constructor; auto.
  eapply Forall_impl; [|exact Hx]. auto.
Qed.

Lemma same_masses_refl (w : world) : same_masses w w.
Proof. split; auto. Qed.

Lemma same_masses_trans (w1 w2 w3 : world) :
  same_masses w1 w2 -> same_masses w2 w3 -> same_masses w1 w3.
Proof.
  intros [H1 H2] [H3 H4]. split; [congruence|].
  intros r. rewrite H4. apply H2.
Qed.

Lemma same_masses_sorted (w w' : world) :
  same_masses w w' -> sorted_by_mass w -> sorted_by_mass w'.
Proof.
  intros [Hl Hm] Hs. unfold sorted_by_mass. rewrite Hl.
  eapply StronglySorted_weaken; [|exact Hs].
  unfold mass_le. intros a b. rewrite !Hm. auto.
Qed.

Lemma write_position_same (w : world) (self : ref) (p : Vector2.t) :
  same_masses w (write_cell w self (set_position (heap w self) p)).
Proof.
  split; [reflexivity|]. intros r. unfold mass_key, write_cell, store. simpl.
  destruct (Nat.eqb_spec r self) as [->|]; reflexivity.
Qed.

Lemma write_entity_same (w : world) (self : ref) (e : entity_obj) :
  same_masses w (write_entity w self e).
Proof. split; reflexivity. Qed.

Lemma move_cell_same (w w' : world) (self : ref) (d : Vector2.t) :
  Cell.move_cell w self d = Ok w' -> same_masses w w'.
Proof.
  unfold Cell.move_cell. destruct (Vector2.eqb _ _).
  - intros [= <-]. apply same_masses_refl.
  - intros H. bind_inv H. injection H as <-. apply write_position_same.
Qed.

Lemma cell_update_same (w w' : world) (self : ref) :
  Cell.update w self = Ok w' -> same_masses w w'.
Proof.
  unfold Cell.update. intros H. bind_inv H. injection H as <-.
  eapply same_masses_trans; [eapply move_cell_same; eauto|].
  apply write_position_same.
Qed.

Lemma update_cells_same (l : list ref) :
  forall (w w' : world), Entity.update_cells w l = Ok w' -> same_masses w w'.
Proof.
  induction l as [|c l IH]; simpl; intros w w' H.
  - injection H as <-. apply same_masses_refl.
  - bind_inv H. eapply same_masses_trans; [eapply cell_update_same|]; eauto.
Qed.

Lemma push_pair_same (w w' : world) (c1 c2 : ref) :
  Entity.push_pair w c1 c2 = Ok w' -> same_masses w w'.
Proof.
  unfold Entity.push_pair.
  destruct (negb _); [intros [= <-]; apply same_masses_refl|].
  destruct (_ || _); [intros [= <-]; apply same_masses_refl|].
  intros H. do 3 bind_inv H.
  eapply same_masses_trans; eapply move_cell_same; eauto.
Qed.

Lemma push_row_same (c1 : ref) (l : list ref) :
  forall (w w' : world), Entity.push_row w c1 l = Ok w' -> same_masses w w'.
Proof.
  induction l as [|c l IH]; simpl; intros w w' H.
  - injection H as <-. apply same_masses_refl.
  - bind_inv H. eapply same_masses_trans; [eapply push_pair_same|]; eauto.
Qed.

Lemma push_rows_same (l : list ref) :
  forall (w w' : world), Entity.push_rows w l = Ok w' -> same_masses w w'.
Proof.
  induction l as [|c l IH]; simpl; intros w w' H.
  - injection H as <-. apply same_masses_refl.
  - bind_inv H. eapply same_masses_trans; [eapply push_row_same|]; eauto.
Qed.

Lemma push_away_same (w w' : world) (self : ref) :
  Entity.push_away w self = Ok w' -> same_masses w w'.
Proof.
  unfold Entity.push_away. destruct (_ =? _).
  - intros [= <-]. apply same_masses_refl.
  - apply push_rows_same.
Qed.

Lemma steer_same (w w' : world) (self cell : ref) :
  Enemy.steer w self cell = Ok w' -> same_masses w w'.
Proof.
  unfold Enemy.steer. intros H. bind_inv H.
  destruct (0 <? Py.len a); [discriminate|]. bind_inv H.
  destruct (0 <? Py.len a0).
  - do 2 bind_inv H. injection H as <-. apply write_entity_same.
  - injection H as <-. apply same_masses_refl.
Qed.

Lemma steer_all_same (self : ref) (l : list ref) :
  forall (w w' : world), Enemy.steer_all w self l = Ok w' -> same_masses w w'.
Proof.
  induction l as [|c l IH]; simpl; intros w w' H.
  - injection H as <-. apply same_masses_refl.
  - bind_inv H. eapply same_masses_trans; [eapply steer_same|]; eauto.
Qed.

Lemma enemy_update_same (w w' : world) (self : ref) :
  Enemy.update w self = Ok w' -> same_masses w w'.
Proof.
  unfold Enemy.update, Entity.update. intros H. bind_inv H.
  eapply same_masses_trans; [eapply update_cells_same|eapply steer_all_same];
    eauto.
Qed.

(** ** Steps that change a mass or the container *)

(** After [update_values], hence after [change_mass], the container is in
    ascending order, whatever it was before. *)
Lemma update_values_sorted (w w' : world) (self : ref) :
  Cell.update_values w self = Ok w' -> sorted_by_mass w'.
Proof.
  unfold Cell.update_values. intros H. do 3 bind_inv H. injection H as <-.
  match goal with
  | |- context [Container.sort (mass_key ?w1) _] =>
      exact (sorted_is_sorted (mass_key w1) (Container.game_objects (cells w1)))
  end.
Qed.

Lemma change_mass_sorted (w w' : world) (self : ref) (change : Z) :
  Cell.change_mass w self change = Ok w' -> sorted_by_mass w'.
Proof. unfold Cell.change_mass. apply update_values_sorted. Qed.

(** [remove_object] keeps the order of what remains. *)
Lemma remove_object_sorted (w : world) (x : ref) (cs : Container.t ref) :
  Container.remove_object x (cells w) = Ok cs ->
  sorted_by_mass w -> sorted_by_mass (set_cells w cs).
Proof.
  unfold Container.remove_object. intros H Hs. bind_inv H. injection H as <-.
  unfold sorted_by_mass. cbn [cells set_cells Container.game_objects].
  eapply remove_sorted; eauto.
Qed.

Lemma candidates_objects (w : world) (cell : ref) (preys : list ref)
    (cs : Container.t ref) :
  Player.candidates w cell = Ok (preys, cs) ->
  Container.game_objects cs = Container.game_objects (cells w).
Proof.
  unfold Player.candidates. rewrite for_in_tail. cbn [bind].
  intros [= _ <-]. reflexivity.
Qed.

Lemma absorb_sorted (w w' : world) (cell : ref) :
  Player.absorb w cell = Ok w' -> sorted_by_mass w -> sorted_by_mass w'.
Proof.
  unfold Player.absorb. intros H Hs. bind_inv H. destruct a as [preys cs].
  assert (Hw : sorted_by_mass (set_cells w cs)).
  { eapply same_masses_sorted; [|exact Hs]. split; [|reflexivity].
    eapply candidates_objects; eauto. }
  destruct (0 <? Py.len preys); [|injection H as <-; exact Hw].
  bind_inv H.
  destruct (PrimFloat.leb _ _); [|injection H as <-; exact Hw].
  do 2 bind_inv H. injection H as <-.
  eapply remove_object_sorted; eauto.
  eapply change_mass_sorted; eauto.
Qed.

(** A property of the population that the steps keeping the masses
    preserve, and that one absorption preserves, is preserved by a whole
    frame. *)
Section FrameInvariant.

Variable P : world -> Prop.
Hypothesis P_same : forall w w', same_masses w w' -> P w -> P w'.
Hypothesis P_absorb :
  forall w w' cell, Player.absorb w cell = Ok w' -> P w -> P w'.

Lemma absorb_all_invariant (l : list ref) :
  forall (w w' : world), Player.absorb_all w l = Ok w' -> P w -> P w'.
Proof.
  induction l as [|c l IH]; simpl; intros w w' H Hs.
  - injection H as <-. exact Hs.
  - bind_inv H. eapply IH; eauto.
Qed.

Lemma player_update_invariant (w w' : world) (self : ref) (mouse : Z * Z) :
  Player.update w self mouse = Ok w' -> P w -> P w'.
Proof.
  unfold Player.update, Player.before_push, Entity.update. intros H Hs.
  bind_inv H. do 2 bind_inv Ha. injection Ha as <-.
  eapply P_same; [eapply push_away_same; eauto|].
  eapply P_same with (w := a1); [split; reflexivity|].
  eapply absorb_all_invariant; eauto.
  eapply P_same; [apply write_entity_same|].
  eapply P_same; [eapply update_cells_same; eauto|exact Hs].
Qed.

Lemma update_entities_invariant (mouse : Z * Z) (l : list ref) :
  forall (w w' : world),
    Level3.update_entities w mouse l = Ok w' -> P w -> P w'.
Proof.
  induction l as [|e l IH]; simpl; intros w w' H Hs.
  - injection H as <-. exact Hs.
  - bind_inv H. eapply IH; eauto.
    destruct (class_of _).
    + eapply player_update_invariant; eauto.
    + eapply P_same; [eapply enemy_update_same; eauto|exact Hs].
Qed.

Lemma frame_invariant (w w' : world) (mouse : Z * Z) (elapsed : float) :
  Level3.frame w mouse elapsed = Ok w' -> P w -> P w'.
Proof.
  unfold Level3.frame, Level3.hierarchy_update. intros H Hs.
  bind_inv H. injection H as <-. bind_inv Ha.
  eapply P_same with (w := a); [split; reflexivity|].
  eapply P_same; [eapply update_cells_same; eauto|].
  eapply update_entities_invariant; eauto.
Qed.

End FrameInvariant.

Lemma frame_sorted (w w' : world) (mouse : Z * Z) (elapsed : float) :
  Level3.frame w mouse elapsed = Ok w' ->
  sorted_by_mass w -> sorted_by_mass w'.
Proof.
  apply (frame_invariant sorted_by_mass).
  - exact same_masses_sorted.
  - exact absorb_sorted.
Qed.

Lemma setup_sorted (dt : float) (ps : list (Z * Z)) (w : world) :
  Level3.setup dt ps = Ok w -> sorted_by_mass w.
Proof.
  unfold Level3.setup. intros H. bind_inv H. injection H as <-.
  exact (sorted_is_sorted (mass_key a) (Container.game_objects (cells a))).
Qed.

(** The invariant of the simulation. *)
Lemma reachable_sorted (w : world) : Level3.reachable w -> sorted_by_mass w.
Proof.
  induction 1 as [dt ps w H|w mouse elapsed w' _ IH H].
  - eapply setup_sorted; eauto.
  - eapply frame_sorted; eauto.
Qed.

(** ** The order of binary64 *)

Lemma SFcompare_antisym (a b : spec_float) :
  SFcompare b a = option_map CompOpp (SFcompare a b).
Proof.
  destruct a as [sa|sa| |sa ma ea], b as [sb|sb| |sb mb eb]; simpl;
    try reflexivity;
    try (destruct sa; reflexivity); try (destruct sb; reflexivity);
    try (destruct sa, sb; reflexivity).
  destruct sa, sb; simpl; try reflexivity;
    rewrite (Z.compare_antisym ea eb);
    destruct (ea ?= eb); simpl; try reflexivity;
    rewrite (ZC4 mb ma);
    destruct (Pos.compare_cont Eq ma mb); reflexivity.
Qed.

Lemma ltb_leb (a b : float) :
  PrimFloat.ltb a b = true -> PrimFloat.leb a b = true.
Proof.
  rewrite ltb_spec, leb_spec. unfold SFltb, SFleb.
  destruct (SFcompare _ _) as [[]|]; congruence.
Qed.

Lemma ltb_asym (a b : float) :
  PrimFloat.ltb a b = true -> PrimFloat.ltb b a = false.
Proof.
  rewrite !ltb_spec. unfold SFltb.
  rewrite (SFcompare_antisym (Prim2SF a) (Prim2SF b)).
  destruct (SFcompare _ _) as [[]|]; simpl; congruence.
Qed.

(** Two numbers (neither is a NaN) are ordered one way or the other. *)
Lemma leb_of_not_ltb (a b : float) :
  PrimFloat.ltb b a = false ->
  PrimFloat.leb a a = true -> PrimFloat.leb b b = true ->
  PrimFloat.leb a b = true.
Proof.
  rewrite ltb_spec, !leb_spec. unfold SFltb, SFleb.
  rewrite (SFcompare_antisym (Prim2SF a) (Prim2SF b)).
  destruct (Prim2SF a) as [sa|sa| |sa ma ea],
           (Prim2SF b) as [sb|sb| |sb mb eb]; simpl;
    try congruence;
    try (destruct sa; simpl; congruence);
    try (destruct sb; simpl; congruence);
    try (destruct sa, sb; simpl; congruence).
  intros H _ _.
  destruct sa, sb; simpl in *; try congruence;
    destruct (ea ?= eb); simpl in *; try congruence;
    destruct (PosDef.Pos.compare_cont Eq ma mb); simpl in *; congruence.
Qed.

(** What compares greater than something is a number. *)
Lemma ltb_number (a b : float) :
  PrimFloat.ltb a b = true -> PrimFloat.leb b b = true.
Proof.
  rewrite ltb_spec, !leb_spec. unfold SFltb, SFleb.
  destruct (Prim2SF a) as [sa|sa| |sa ma ea],
           (Prim2SF b) as [sb|sb| |sb mb eb]; simpl;
    try congruence; try (destruct sb; simpl; congruence).
  all: intros _; rewrite Z.compare_refl; destruct sb; simpl.
  all: rewrite ?Pos.compare_cont_refl; try reflexivity.
Qed.

Lemma SFltb_trans (a b c : spec_float) :
  SFltb a b = true -> SFltb b c = true -> SFltb a c = true.
Proof.
  unfold SFltb.
  destruct a as [sa|sa| |sa ma ea], b as [sb|sb| |sb mb eb],
           c as [sc|sc| |sc mc ec]; simpl;
    try congruence;
    try (destruct sa; simpl; congruence);
    try (destruct sb; simpl; congruence);
    try (destruct sc; simpl; congruence);
    try (destruct sa, sb; simpl; congruence);
    try (destruct sa, sc; simpl; congruence);
    try (destruct sb, sc; simpl; congruence);
    try (destruct sa, sb, sc; simpl; congruence).
  change (PosDef.Pos.compare_cont Eq ma mb) with (Pos.compare ma mb).
  change (PosDef.Pos.compare_cont Eq mb mc) with (Pos.compare mb mc).
  change (PosDef.Pos.compare_cont Eq ma mc) with (Pos.compare ma mc).
  destruct sa, sb, sc; simpl; try congruence;
    destruct (Z.compare_spec ea eb), (Z.compare_spec eb ec),
             (Z.compare_spec ea ec); subst; try lia; try congruence;
    destruct (Pos.compare_spec ma mb), (Pos.compare_spec mb mc),
             (Pos.compare_spec ma mc); subst; simpl; try lia; try congruence.
Qed.

Lemma ltb_trans (a b c : float) :
  PrimFloat.ltb a b = true -> PrimFloat.ltb b c = true ->
  PrimFloat.ltb a c = true.
Proof. rewrite !ltb_spec. apply SFltb_trans. Qed.

(** ** [min] and [max] with a key *)

Section Extremum.

Context {A K : Type} (lt : K -> K -> bool) (key : A -> K).
Hypothesis lt_asym : forall a b, lt a b = true -> lt b a = false.
Hypothesis lt_trans : forall a b c, lt a b = true -> lt b c = true -> lt a c = true.

Lemma lt_irrefl (a : K) : lt a a = false.
Proof.
  destruct (lt a a) eqn:E; [|reflexivity].
  rewrite (lt_asym _ _ E) in E. discriminate.
Qed.

(** The running minimum: it is one of the elements met, and none of them
    compares below it. *)
Lemma min_from_spec (l : list A) :
  forall (best : A) (seen : list A),
    (forall y, In y seen -> lt (key y) (key best) = false) ->
    (Py.min_from lt key best l = best \/ In (Py.min_from lt key best l) l)
    /\ forall y, In y (seen ++ best :: l) ->
                 lt (key y) (key (Py.min_from lt key best l)) = false.
Proof.
  induction l as [|x l IH]; intros best seen Hseen; simpl.
  - split; [auto|]. intros y Hy. apply in_app_or in Hy.
    destruct Hy as [Hy|[<-|[]]]; [auto|apply lt_irrefl].
  - destruct (lt (key x) (key best)) eqn:E.
    + destruct (IH x (seen ++ [best])) as [Hin Hmin].
      * intros y Hy. apply in_app_or in Hy. destruct Hy as [Hy|[<-|[]]].
        -- destruct (lt (key y) (key x)) eqn:E'; [|reflexivity].
           pose proof (lt_trans _ _ _ E' E) as T.
           rewrite (Hseen y Hy) in T. discriminate.
        -- apply lt_asym. exact E.
      * split.
        { destruct Hin as [Hin|Hin];
            [right; left; symmetry; exact Hin|right; right; exact Hin]. }
        intros y Hy. apply Hmin.
        rewrite <- app_assoc. exact Hy.
    + destruct (IH best (seen ++ [x])) as [Hin Hmin].
      * intros y Hy. apply in_app_or in Hy. destruct Hy as [Hy|[<-|[]]]; auto.
      * split.
        { destruct Hin as [Hin|Hin]; [left|right; right]; exact Hin. }
        intros y Hy. apply Hmin.
        apply in_app_or in Hy. apply in_or_app.
        destruct Hy as [Hy|[<-|[<-|Hy]]].
        -- left. apply in_or_app. auto.
        -- right. left. reflexivity.
        -- left. apply in_or_app. right. left. reflexivity.
        -- right. right. exact Hy.
Qed.

Lemma min_spec (l : list A) :
  match l with
  | [] => Py.min lt key l = Raise ValueError
  | _ => exists r, Py.min lt key l = Ok r /\ In r l
                   /\ forall y, In y l -> lt (key y) (key r) = false
  end.
Proof.
  destruct l as [|x l]; [reflexivity|].
  simpl. eexists. split; [reflexivity|].
  destruct (min_from_spec l x []) as [Hin Hmin]; [intros y []|].
  split; [|exact Hmin].
  destruct Hin as [Hin|Hin]; [left; symmetry|right]; exact Hin.
Qed.

End Extremum.

Lemma max_from_flip {A K : Type} (lt : K -> K -> bool) (key : A -> K)
    (l : list A) :
  forall best, Py.max_from lt key best l
               = Py.min_from (fun a b => lt b a) key best l.
Proof. induction l as [|x l IH]; intros best; simpl; [reflexivity|apply IH]. Qed.

(** [max] by mass: an element of the list that no element outweighs. *)
Lemma max_mass_spec (w : world) (l : list ref) :
  match l with
  | [] => Py.max Z.ltb (mass_key w) l = Raise ValueError
  | _ => exists r, Py.max Z.ltb (mass_key w) l = Ok r /\ In r l
                   /\ forall y, In y l -> mass_key w y <= mass_key w r
  end.
Proof.
  destruct l as [|x l]; [reflexivity|].
  unfold Py.max. rewrite max_from_flip.
  destruct (min_from_spec (fun a b => Z.ltb b a) (mass_key w)) with
    (l := l) (best := x) (seen := @nil ref) as [Hin Hmin].
  - intros a b H. apply Z.ltb_lt in H. apply Z.ltb_ge. lia.
  - intros a b c H1 H2. apply Z.ltb_lt in H1, H2. apply Z.ltb_lt. lia.
  - intros y [].
  - eexists. split; [reflexivity|]. split.
    { destruct Hin as [Hin|Hin]; [left; symmetry|right]; exact Hin. }
    intros y Hy. specialize (Hmin y Hy). apply Z.ltb_ge in Hmin. exact Hmin.
Qed.

(** [min] by a binary64 key: an element of the list below which none
    compares. *)
Lemma min_float_spec {A : Type} (key : A -> float) (l : list A) :
  match l with
  | [] => Py.min PrimFloat.ltb key l = Raise ValueError
  | _ => exists r, Py.min PrimFloat.ltb key l = Ok r /\ In r l
                   /\ forall y, In y l -> PrimFloat.ltb (key y) (key r) = false
  end.
Proof. apply min_spec; [exact ltb_asym|exact ltb_trans]. Qed.

(** ** Clamping *)

Lemma of_Z_720 : Flt.of_Z 720 = 720%float.
Proof. vm_compute. reflexivity. Qed.

(** [max(0.0, min(v, 720))] lies between 0 and 720, whatever [v] is. *)
Lemma clamp_in_range (v : float) :
  PrimFloat.leb 0 (Cell.clamp v 720) = true
  /\ PrimFloat.leb (Cell.clamp v 720) (Flt.of_Z 720) = true.
Proof.
  unfold Cell.clamp, Flt.max2, Flt.min2. rewrite of_Z_720.
  destruct (PrimFloat.ltb 720 v) eqn:Hhigh.
  - split; vm_compute; reflexivity.
  - destruct (PrimFloat.ltb 0 v) eqn:Hlow.
    + split; [apply ltb_leb; exact Hlow|].
      apply leb_of_not_ltb; [exact Hhigh|eapply ltb_number; exact Hlow|].
      vm_compute. reflexivity.
    + split; vm_compute; reflexivity.
Qed.

(** A coordinate beyond a bound is brought exactly onto it. *)
Lemma clamp_high (v : float) :
  PrimFloat.ltb (Flt.of_Z 720) v = true -> Cell.clamp v 720 = Flt.of_Z 720.
Proof.
  unfold Cell.clamp, Flt.max2, Flt.min2. intros H. rewrite H.
  rewrite of_Z_720. reflexivity.
Qed.

Lemma clamp_low (v : float) :
  PrimFloat.ltb v 0 = true -> Cell.clamp v 720 = 0%float.
Proof.
  unfold Cell.clamp, Flt.max2, Flt.min2. intros H. rewrite of_Z_720.
  destruct (PrimFloat.ltb 720 v) eqn:Hhigh.
  - pose proof (ltb_trans _ _ _ Hhigh H) as T. vm_compute in T. discriminate.
  - rewrite (ltb_asym _ _ H). reflexivity.
Qed.

(** ** What one absorption does *)

Lemma remove_perm (x : ref) :
  forall (l l' : list ref), Py.remove x l = Ok l' -> Permutation (x :: l') l.
Proof.
  induction l as [|u l IHl]; simpl; intros l' H; [discriminate|].
  destruct (Nat.eqb_spec u x) as [->|Hne].
  - injection H as <-. reflexivity.
  - bind_inv H. injection H as <-.
    rewrite perm_swap. constructor. apply IHl. exact Ha.
Qed.

(** [change_mass] adds to the mass of the cell, leaves the other masses,
    and sorts the container. *)
Lemma change_mass_masses (w w' : world) (self : ref) (change : Z) :
  Cell.change_mass w self change = Ok w' ->
  mass_key w' self = mass_key w self + change
  /\ (forall r, r <> self -> mass_key w' r = mass_key w r)
  /\ Permutation (Container.game_objects (cells w'))
                 (Container.game_objects (cells w)).
Proof.
  unfold Cell.change_mass, Cell.update_values. intros H.
  do 3 bind_inv H. injection H as <-.
  unfold mass_key, write_cell, store in *. simpl in *.
  rewrite Nat.eqb_refl in *. simpl in *.
  split; [reflexivity|]. split.
  - intros r Hr. apply Nat.eqb_neq in Hr. rewrite Hr. reflexivity.
  - apply sorted_perm.
Qed.

(** One turn of the player's loop over its cells.  The candidates are the
    cells the iteration meets (so not the first object of the container)
    that are light enough; [least] says that no candidate's distance
    compares below that of [prey].  Either nothing is absorbed, because
    there is no candidate or the least distant one is out of reach, and the
    masses and the population stay as they were; or the least distant
    candidate is within reach, the absorbing cell gains its mass and it
    leaves the container. *)
Lemma absorb_effect (w w' : world) (cell : ref) :
  distinct_cells w ->
  Player.absorb w cell = Ok w' ->
  let met := tl (Container.game_objects (cells w)) in
  let least prey :=
    In prey met /\ candidate_of w cell prey = true
    /\ forall y, In y met -> candidate_of w cell y = true ->
                 PrimFloat.ltb (sqr_distance w y cell)
                               (sqr_distance w prey cell) = false in
  (same_masses w w'
   /\ (filter (candidate_of w cell) met = []
       \/ exists prey, least prey /\ within_reach w cell prey = false))
  \/ exists prey,
       least prey
       /\ within_reach w cell prey = true
       /\ mass_key w' cell = mass_key w cell + mass_key w prey
       /\ (forall r, r <> cell -> mass_key w' r = mass_key w r)
       /\ ~ In prey (Container.game_objects (cells w'))
       /\ Permutation (prey :: Container.game_objects (cells w'))
                      (Container.game_objects (cells w)).
Proof.
  intros Hnd H met least. unfold Player.absorb, Player.candidates in H.
  rewrite for_in_tail in H. cbn [bind] in H. fold met in H.
  set (cs := Container.mk _ _) in H.
  change (filter _ met) with (filter (candidate_of w cell) met) in H.
  assert (Hsame : same_masses w (set_cells w cs)) by (split; reflexivity).
  destruct (filter (candidate_of w cell) met) as [|p0 ps] eqn:Hpreys.
  { injection H as <-. left. auto. }
  change (0 <? Py.len (p0 :: ps)) with true in H. cbv iota in H.
  pose proof (min_float_spec
                (fun x => Vector2.distance_squared_to
                            (position (heap (set_cells w cs) x))
                            (position (heap (set_cells w cs) cell)))
                (p0 :: ps)) as Hmin.
  bind_inv H. rename a into prey.
  destruct Hmin as [r [Hr [Hin Hleast]]].
  rewrite Hr in Ha. injection Ha as ->.
  rewrite <- Hpreys in Hin, Hleast.
  apply filter_In in Hin. destruct Hin as [Htl Hcand].
  assert (Hl : least prey).
  { split; [exact Htl|]. split; [exact Hcand|].
    intros y Hy Hc. apply Hleast. apply filter_In. split; assumption. }
  destruct (PrimFloat.leb _ _) eqn:Hreach.
  2:{ injection H as <-. left. split; [exact Hsame|]. right. exists prey. auto. }
  do 2 bind_inv H. injection H as <-. right. exists prey.
  destruct (change_mass_masses _ _ _ _ Ha) as [Hm [Hothers Hperm]].
  unfold Container.remove_object in Ha0. bind_inv Ha0.
  injection Ha0 as <-.
  cbn [cells set_cells Container.game_objects] in *.
  split; [exact Hl|]. split; [exact Hreach|].
  split; [exact Hm|]. split; [exact Hothers|]. split.
  - eapply remove_absent; [|exact Ha1].
    eapply Permutation_NoDup; [symmetry; exact Hperm|exact Hnd].
  - rewrite (remove_perm _ _ _ Ha1). exact Hperm.
Qed.

(** When the nearest candidate, strictly, is met by the iteration and
    within reach, it is the one absorbed. *)
Lemma absorb_nearest (w w' : world) (cell p : ref) :
  distinct_cells w ->
  In p (tl (Container.game_objects (cells w))) ->
  candidate_of w cell p = true ->
  within_reach w cell p = true ->
  (forall y, In y (tl (Container.game_objects (cells w))) ->
             candidate_of w cell y = true -> y <> p ->
             PrimFloat.ltb (sqr_distance w p cell) (sqr_distance w y cell)
             = true) ->
  Player.absorb w cell = Ok w' ->
  mass_key w' cell = mass_key w cell + mass_key w p
  /\ (forall r, r <> cell -> mass_key w' r = mass_key w r)
  /\ ~ In p (Container.game_objects (cells w')).
Proof.
  intros Hnd Hp Hc Hreach Hnear H.
  assert (Hsel : forall prey,
             In prey (tl (Container.game_objects (cells w))) ->
             candidate_of w cell prey = true ->
             (forall y, In y (tl (Container.game_objects (cells w))) ->
                        candidate_of w cell y = true ->
                        PrimFloat.ltb (sqr_distance w y cell)
                                      (sqr_distance w prey cell) = false) ->
             prey = p).
  { intros prey Hin Hcand Hleast.
    destruct (Nat.eq_dec prey p) as [E|Hne]; [exact E|].
    specialize (Hleast p Hp Hc).
    rewrite (Hnear prey Hin Hcand Hne) in Hleast. discriminate. }
  destruct (absorb_effect w w' cell Hnd H) as [[_ [Hnone|Hfar]]|Habs].
  - assert (Hin : In p (filter (candidate_of w cell)
                               (tl (Container.game_objects (cells w)))))
      by (apply filter_In; split; assumption).
    rewrite Hnone in Hin. destruct Hin.
  - destruct Hfar as [prey [[Hin [Hcand Hleast]] Hout]].
    rewrite (Hsel prey Hin Hcand Hleast) in Hout. congruence.
  - destruct Habs as [prey [[Hin [Hcand Hleast]] [_ [Hm [Ho [Hgone _]]]]]].
    rewrite (Hsel prey Hin Hcand Hleast) in *. auto.
Qed.

(** ** Positions after the updates *)

Lemma cell_update_in_window (w w' : world) (self : ref) :
  Cell.update w self = Ok w' -> in_window (position (heap w' self)) = true.
Proof.
  unfold Cell.update. intros H. bind_inv H. injection H as <-.
  unfold write_cell, store, in_window. cbn -[Cell.clamp Flt.of_Z].
  rewrite Nat.eqb_refl. cbn -[Cell.clamp Flt.of_Z].
  destruct (clamp_in_range (Vector2.x (position (heap a self)))) as [Hx0 Hx1].
  destruct (clamp_in_range (Vector2.y (position (heap a self)))) as [Hy0 Hy1].
  rewrite Hx0, Hx1, Hy0, Hy1. reflexivity.
Qed.

Lemma move_cell_others (w w' : world) (self : ref) (d : Vector2.t) :
  Cell.move_cell w self d = Ok w' ->
  forall r, r <> self -> heap w' r = heap w r.
Proof.
  unfold Cell.move_cell. destruct (Vector2.eqb _ _).
  - intros [= <-]. reflexivity.
  - intros H. bind_inv H. injection H as <-. intros r Hr.
    unfold write_cell, store. simpl.
    apply Nat.eqb_neq in Hr. rewrite Hr. reflexivity.
Qed.

Lemma cell_update_others (w w' : world) (self : ref) :
  Cell.update w self = Ok w' ->
  forall r, r <> self -> heap w' r = heap w r.
Proof.
  unfold Cell.update. intros H. bind_inv H. injection H as <-. intros r Hr.
  unfold write_cell, store. simpl.
  pose proof Hr as Hr'. apply Nat.eqb_neq in Hr'. rewrite Hr'.
  eapply move_cell_others; eauto.
Qed.

Lemma update_cells_others (l : list ref) :
  forall (w w' : world),
    Entity.update_cells w l = Ok w' ->
    forall r, ~ In r l -> heap w' r = heap w r.
Proof.
  induction l as [|c l IH]; simpl; intros w w' H r Hr.
  - injection H as <-. reflexivity.
  - bind_inv H. rewrite (IH _ _ H) by tauto.
    eapply cell_update_others; eauto.
Qed.

(** After a run of updates every cell updated lies within the window. *)
Lemma update_cells_in_window (l : list ref) :
  forall (w w' : world),
    Entity.update_cells w l = Ok w' ->
    forall c, In c l -> in_window (position (heap w' c)) = true.
Proof.
  induction l as [|c0 l IH]; simpl; intros w w' H c Hc; [destruct Hc|].
  bind_inv H.
  destruct (in_dec Nat.eq_dec c l) as [Hin|Hout].
  - eapply IH; eauto.
  - destruct Hc as [<-|Hc]; [|contradiction].
    rewrite (update_cells_others _ _ _ H _ Hout).
    eapply cell_update_in_window; eauto.
Qed.

(** A frame ends with every cell of the population within the window: the
    container [cells] updates each of them after the entities have run. *)
Lemma frame_ends_in_window (w w' : world) (mouse : Z * Z) (elapsed : float) :
  Level3.frame w mouse elapsed = Ok w' ->
  forall c, In c (Container.game_objects (cells w')) ->
            in_window (position (heap w' c)) = true.
Proof.
  unfold Level3.frame, Level3.hierarchy_update. intros H.
  bind_inv H. injection H as <-. bind_inv Ha.
  cbn [cells heap set_delta_time]. intros c Hc.
  destruct (update_cells_same _ _ _ Ha) as [Hobjs _].
  rewrite Hobjs in Hc. eapply update_cells_in_window; eauto.
Qed.

(** ** The references of the population *)

Lemma cell_init_objects (w w' : world) (e self : ref) (p : Vector2.t) (m : Z) :
  Cell.init w e p m = Ok (w', self) ->
  Container.game_objects (cells w')
  = Container.game_objects (cells w) ++ [next_cell w]
  /\ next_cell w' = S (next_cell w).
Proof.
  unfold Cell.init. intros H. do 3 bind_inv H. injection H as <- <-.
  split; reflexivity.
Qed.

Lemma entity_init_objects (w w' : world) (k : entity_class) (e : ref)
    (p : Vector2.t) (m : Z) :
  Entity.init w k p m = Ok (w', e) ->
  Container.game_objects (cells w')
  = Container.game_objects (cells w) ++ [next_cell w; S (next_cell w)]
  /\ next_cell w' = S (S (next_cell w)).
Proof.
  unfold Entity.init. intros H. bind_inv H. destruct a as [w1 c0].
  bind_inv H. destruct a as [w2 c1]. injection H as <- <-.
  apply cell_init_objects in Ha, Ha0. cbn [cells next_cell] in Ha.
  destruct Ha as [Hl1 Hn1], Ha0 as [Hl2 Hn2].
  cbn [write_entity set_entity_heap cells next_cell].
  rewrite Hl2, Hl1, Hn2, Hn1, <- app_assoc. split; reflexivity.
Qed.

Lemma add_entity_fresh (r : result world) (k : entity_class)
    (p : Vector2.t) (m : Z) (w' : world) :
  Level3.add_entity r k p m = Ok w' ->
  exists w, r = Ok w
            /\ (distinct_cells w /\ allocated_cells w ->
                distinct_cells w' /\ allocated_cells w').
Proof.
  unfold Level3.add_entity. intros H. bind_inv H. rename a into w.
  bind_inv H. destruct a as [w1 e]. injection H as <-.
  exists w. split; [exact Ha|].
  apply entity_init_objects in Ha0. destruct Ha0 as [Hl Hn].
  unfold distinct_cells, allocated_cells. cbn [cells next_cell].
  rewrite Hl, Hn. intros [Hnd Hal]. split.
  - apply NoDup_app; [exact Hnd| |].
    + repeat constructor; simpl; intuition lia.
    + intros x Hx [<-|[<-|[]]]; apply Hal in Hx; lia.
  - intros x Hx. apply in_app_or in Hx.
    destruct Hx as [Hx|[<-|[<-|[]]]]; [apply Hal in Hx|..]; lia.
Qed.

Lemma add_enemies_fresh (ps : list (Z * Z)) :
  forall (r : result world) (w' : world),
    fold_left
      (fun r p =>
         Level3.add_entity r Enemy_class
           (Vector2.mk (Flt.of_Z (fst p)) (Flt.of_Z (snd p))) 512)
      ps r = Ok w' ->
    exists w, r = Ok w
              /\ (distinct_cells w /\ allocated_cells w ->
                  distinct_cells w' /\ allocated_cells w').
Proof.
  induction ps as [|p ps IH]; simpl; intros r w' H.
  - exists w'. auto.
  - apply IH in H. destruct H as [w1 [H1 Hf1]].
    apply add_entity_fresh in H1. destruct H1 as [w [Hr Hf]].
    exists w. auto.
Qed.

Lemma setup_distinct (dt : float) (ps : list (Z * Z)) (w : world) :
  Level3.setup dt ps = Ok w -> distinct_cells w.
Proof.
  unfold Level3.setup. intros H. bind_inv H. injection H as <-.
  apply add_enemies_fresh in Ha. destruct Ha as [w1 [H1 Hf1]].
  apply add_entity_fresh in H1. destruct H1 as [w0 [[= <-] Hf0]].
  destruct Hf1 as [Hnd _].
  { apply Hf0. split; [constructor|intros r []]. }
  unfold distinct_cells, Level3.start_new_game.
  cbn [cells set_cells Container.sort Container.game_objects].
  eapply Permutation_NoDup; [symmetry; apply sorted_perm|exact Hnd].
Qed.

Lemma absorb_distinct (w w' : world) (cell : ref) :
  Player.absorb w cell = Ok w' -> distinct_cells w -> distinct_cells w'.
Proof.
  intros H Hnd. destruct (absorb_effect w w' cell Hnd H) as [[[Hl _] _]|Hp].
  - unfold distinct_cells. rewrite Hl. exact Hnd.
  - destruct Hp as [prey [_ [_ [_ [_ [_ Hperm]]]]]].
    apply Permutation_sym in Hperm.
    apply (Permutation_NoDup Hperm) in Hnd.
    inversion Hnd; assumption.
Qed.

(** In every state reached the container holds each cell once. *)
Lemma reachable_distinct (w : world) :
  Level3.reachable w -> distinct_cells w.
Proof.
  induction 1 as [dt ps w H|w mouse elapsed w' _ IH H].
  - eapply setup_distinct; eauto.
  - revert H IH. apply (frame_invariant distinct_cells).
    + intros w1 w2 [Hl _] Hnd. unfold distinct_cells. rewrite Hl. exact Hnd.
    + exact absorb_distinct.
Qed.

(** ** The states within a frame *)

Lemma update_entities_app (mouse : Z * Z) (l1 l2 : list ref) :
  forall (w : world),
    Level3.update_entities w mouse (l1 ++ l2)
    = (w1 <- Level3.update_entities w mouse l1 ;;
       Level3.update_entities w1 mouse l2).
Proof.
  induction l1 as [|e l1 IH]; intros w; simpl; [reflexivity|].
  destruct (match class_of (entity_heap w e) with
            | Player_class => Player.update w e mouse
            | Enemy_class => Enemy.update w e
            end); simpl; auto.
Qed.

Lemma steer_all_app (self : ref) (l1 l2 : list ref) :
  forall (w : world),
    Enemy.steer_all w self (l1 ++ l2)
    = (w1 <- Enemy.steer_all w self l1 ;; Enemy.steer_all w1 self l2).
Proof.
  induction l1 as [|c l1 IH]; intros w; simpl; [reflexivity|].
  destruct (Enemy.steer w self c); simpl; auto.
Qed.

Lemma absorb_all_app (l1 l2 : list ref) :
  forall (w : world),
    Player.absorb_all w (l1 ++ l2)
    = (w1 <- Player.absorb_all w l1 ;; Player.absorb_all w1 l2).
Proof.
  induction l1 as [|c l1 IH]; intros w; simpl; [reflexivity|].
  destruct (Player.absorb w c); simpl; auto.
Qed.

Lemma update_entities_sorted (mouse : Z * Z) (l : list ref) (w w' : world) :
  Level3.update_entities w mouse l = Ok w' ->
  sorted_by_mass w -> sorted_by_mass w'.
Proof.
  apply (update_entities_invariant sorted_by_mass).
  - exact same_masses_sorted.
  - exact absorb_sorted.
Qed.

Lemma absorb_all_sorted (l : list ref) (w w' : world) :
  Player.absorb_all w l = Ok w' -> sorted_by_mass w -> sorted_by_mass w'.
Proof.
  apply (absorb_all_invariant sorted_by_mass). exact absorb_sorted.
Qed.

(** ** Insertion *)

Lemma StronglySorted_snoc {A : Type} (R : A -> A -> Prop) (x : A) (l : list A) :
  StronglySorted R (l ++ [x])
  <-> StronglySorted R l /\ Forall (fun y => R y x) l.
Proof.
  induction l as [|y l IH]; simpl.
  - split; [intros _; split; constructor|intros _; repeat constructor].
  - split.
    + intros H. inversion H as [|? ? Hs Hy]; subst.
      apply IH in Hs. destruct Hs as [Hs Hx].
      apply Forall_app in Hy. destruct Hy as [Hy Hyx].
      split; constructor; auto.
      inversion Hyx; assumption.
    + intros [Hs Hx]. inversion Hs as [|? ? Hs' Hy]; subst.
      inversion Hx as [|? ? Hyx Hx']; subst.
      constructor; [apply IH; auto|].
      apply Forall_app. split; [exact Hy|]. repeat constructor. exact Hyx.
Qed.

(** [Cell.__init__] leaves the new cell behind all the others, whatever
    their masses: the container is in order afterwards exactly when it was
    before and holds no cell heavier than the new one. *)
Lemma cell_init_order (w w' : world) (e self : ref) (p : Vector2.t) (m : Z) :
  allocated_cells w ->
  Cell.init w e p m = Ok (w', self) ->
  Container.game_objects (cells w') = Container.game_objects (cells w) ++ [self]
  /\ mass_key w' self = m
  /\ (forall r, In r (Container.game_objects (cells w)) ->
                mass_key w' r = mass_key w r)
  /\ (sorted_by_mass w'
      <-> sorted_by_mass w
          /\ Forall (fun r => mass_key w r <= m)
                    (Container.game_objects (cells w))).
Proof.
  intros Hal H.
  assert (Hl : Container.game_objects (cells w')
               = Container.game_objects (cells w) ++ [self]
               /\ self = next_cell w
               /\ mass_key w' self = m
               /\ forall r, r <> self -> mass_key w' r = mass_key w r).
  { unfold Cell.init in H. do 3 bind_inv H. injection H as <- <-.
    split; [reflexivity|]. split; [reflexivity|].
    unfold mass_key, write_cell, store. simpl.
    rewrite Nat.eqb_refl. split; [reflexivity|].
    intros r Hr. destruct (Nat.eqb_spec r (next_cell w)); [contradiction|].
    reflexivity. }
  destruct Hl as [Hl [Hself [Hm Hother]]].
  assert (Hold : forall r, In r (Container.game_objects (cells w)) ->
                           mass_key w' r = mass_key w r).
  { intros r Hr. apply Hother. apply Hal in Hr. unfold ref in *. lia. }
  split; [exact Hl|]. split; [exact Hm|]. split; [exact Hold|].
  unfold sorted_by_mass. rewrite Hl, StronglySorted_snoc.
  assert (Hiff : forall l, incl l (Container.game_objects (cells w)) ->
                   (StronglySorted (mass_le w') l
                    <-> StronglySorted (mass_le w) l)).
  { induction l as [|y l IH]; intros Hi.
    - split; constructor.
    - assert (Hi' : incl l (Container.game_objects (cells w)))
        by (intros z Hz; apply Hi; right; exact Hz).
      split; intros Hs; inversion Hs as [|? ? Hs' Hy]; subst;
        (constructor; [apply IH; assumption|]);
        rewrite Forall_forall in *; intros z Hz; specialize (Hy z Hz);
        unfold mass_le in *;
        rewrite (Hold y (Hi y (or_introl eq_refl))),
                (Hold z (Hi' z Hz)) in *; exact Hy. }
  rewrite (Hiff _ (incl_refl _)).
  assert (Hall : Forall (fun y => mass_le w' y self)
                        (Container.game_objects (cells w))
                 <-> Forall (fun r => mass_key w r <= m)
                            (Container.game_objects (cells w))).
  { rewrite !Forall_forall. unfold mass_le. rewrite Hm.
    split; intros Hf r Hr; specialize (Hf r Hr);
      rewrite (Hold r Hr) in *; exact Hf. }
  rewrite Hall. reflexivity.
Qed.

(** A frame leaves in the container no cell that was not there. *)
Lemma frame_keeps_no_new_cell
    (w w' : world) (mouse : Z * Z) (elapsed : float) :
  distinct_cells w ->
  Level3.frame w mouse elapsed = Ok w' ->
  incl (Container.game_objects (cells w')) (Container.game_objects (cells w)).
Proof.
  intros Hnd H.
  refine (proj2 (frame_invariant
            (fun v => distinct_cells v
                      /\ incl (Container.game_objects (cells v))
                              (Container.game_objects (cells w)))
            _ _ w w' mouse elapsed H _)).
  - intros w1 w2 [Hl _] [Hd Hi]. unfold distinct_cells.
    rewrite Hl. auto.
  - intros w1 w2 cell Ha [Hd Hi].
    split; [eapply absorb_distinct; eauto|].
    destruct (absorb_effect w1 w2 cell Hd Ha)
      as [[[Hl _] _]|[prey [_ [_ [_ [_ [_ Hp]]]]]]].
    + rewrite Hl. exact Hi.
    + intros r Hr. apply Hi.
      apply (Permutation_in _ Hp). right. exact Hr.
  - split; [exact Hnd|apply incl_refl].
Qed.

(** ** Evaluating the scenarios *)

Lemma distinct_NoDup (l : list ref) : Scenario.distinct l = true -> NoDup l.
Proof.
  induction l as [|x l IH]; simpl; intros H.
  - constructor.
  - apply andb_true_iff in H. destruct H as [Hx Hl].
    constructor; [|auto].
    intros Hin. apply negb_true_iff in Hx.
    assert (existsb (Nat.eqb x) l = true); [|congruence].
    apply existsb_exists. exists x. split; [exact Hin|apply Nat.eqb_refl].
Qed.

Lemma mem_In (x : ref) (l : list ref) : existsb (Nat.eqb x) l = true -> In x l.
Proof.
  intros H. apply existsb_exists in H. destruct H as [y [Hy E]].
  apply Nat.eqb_eq in E. subst y. exact Hy.
Qed.

(** The scenarios are evaluated as a whole, never unfolded step by step. *)
#[global] Opaque Scenario.world_of.

(** Closes a conjunction of closed equations by evaluating each. *)
Ltac evaluate :=
  repeat match goal with |- _ /\ _ => split end;
  vm_compute; reflexivity.

Lemma game_start_ok :
  Scenario.game_start = Ok (Scenario.world_of Scenario.game_start).
Proof. vm_compute. reflexivity. Qed.

Lemma game_start'_ok :
  Scenario.game_start' = Ok (Scenario.world_of Scenario.game_start').
Proof. vm_compute. reflexivity. Qed.

Lemma game_start_sorted :
  sorted_by_mass (Scenario.world_of Scenario.game_start).
Proof.
  apply (setup_sorted Scenario.dt0 Scenario.near_first).
  vm_compute. reflexivity.
Qed.

Lemma game_start'_sorted :
  sorted_by_mass (Scenario.world_of Scenario.game_start').
Proof.
  apply (setup_sorted Scenario.dt0 Scenario.near_second).
  vm_compute. reflexivity.
Qed.

Lemma not_mem_not_In (x : ref) (l : list ref) :
  existsb (Nat.eqb x) l = false -> ~ In x l.
Proof.
  intros H Hin.
  assert (existsb (Nat.eqb x) l = true); [|congruence].
  apply existsb_exists. exists x. split; [exact Hin|apply Nat.eqb_refl].
Qed.

(** * The claims *)

(** ** The container *)

(** C10.  Iterating a container that holds at least one object hands out
    the objects at the indices 1 to n - 1, in order, and not the one at index
    0; so the comprehension with which the player gathers its prey
    candidates from the ascending container [cells] never holds the first,
    lightest cell. *)
Theorem iteration_skips_index_0 :
  (forall (A : Type) (c : Container.t A),
      (1 <= length (Container.game_objects c))%nat ->
      exists c',
        Container.for_in c = Ok (tl (Container.game_objects c), c')
        /\ length (tl (Container.game_objects c))
           = (length (Container.game_objects c) - 1)%nat
        /\ forall k, nth_error (tl (Container.game_objects c)) k
                     = nth_error (Container.game_objects c) (S k))
  /\ (forall (w : world) (cell lightest : ref) (rest : list ref),
         Container.game_objects (cells w) = lightest :: rest ->
         NoDup (lightest :: rest) ->
         sorted_by_mass w ->
         (forall r, In r (lightest :: rest) ->
                    mass_key w lightest <= mass_key w r)
         /\ exists preys cs,
             Player.candidates w cell = Ok (preys, cs)
             /\ ~ In lightest preys).
Proof.
  split.
  - intros A c Hn. rewrite for_in_tail. eexists. split; [reflexivity|].
    destruct (Container.game_objects c) as [|x l]; [simpl in Hn; lia|].
    simpl. split; [lia|reflexivity].
  - intros w cell lightest rest Hl Hnd Hs. split.
    + unfold sorted_by_mass in Hs. rewrite Hl in Hs.
      inversion Hs as [|? ? _ Hall]; subst.
      intros r [<-|Hr]; [lia|].
      rewrite Forall_forall in Hall. apply Hall. exact Hr.
    + unfold Player.candidates. rewrite for_in_tail, Hl. cbn [bind tl].
      do 2 eexists. split; [reflexivity|].
      intros Hin. apply filter_In in Hin. destruct Hin as [Hin _].
      inversion Hnd; subst. contradiction.
Qed.

Lemma iteration_skips_index_0_witness :
  (exists c', Container.for_in (Container.init [7; 8; 9]%nat) = Ok ([8; 9]%nat, c'))
  /\ exists w,
      Scenario.game_start = Ok w
      /\ exists preys cs,
          Player.candidates w Scenario.p0 = Ok (preys, cs)
          /\ ~ In Scenario.e0 preys.
Proof.
  split.
  - destruct (proj1 iteration_skips_index_0 nat (Container.init [7; 8; 9]%nat))
      as [c' [H _]]; [simpl; lia|].
    exists c'. exact H.
  - exists (Scenario.world_of Scenario.game_start).
    split; [vm_compute; reflexivity|].
    refine (proj2 (proj2 iteration_skips_index_0
                     (Scenario.world_of Scenario.game_start)
                     Scenario.p0 Scenario.e0
                     (tl (Container.game_objects
                            (cells (Scenario.world_of Scenario.game_start))))
                     _ _ _)).
    + vm_compute. reflexivity.
    + apply distinct_NoDup. vm_compute. reflexivity.
    + exact game_start_sorted.
Defined.

(** ** The classifier queries *)

(** C1.  At the start of the game, with the enemies of mass 512 and the
    player's two cells of mass 4096 in the ascending container,
    [get_predators(512)] returns the empty list, although the player's cells
    are heavier than 512 + 1024. *)
Theorem get_predators_returns_nothing :
  exists w,
    Scenario.game_start = Ok w
    /\ sorted_by_mass w
    /\ Cell.get_predators w 512 = Ok []
    /\ filter (is_predator_of w 512) (Container.game_objects (cells w))
       = [Scenario.p0; Scenario.p1].
Proof.
  exists (Scenario.world_of Scenario.game_start).
  split; [exact game_start_ok|].
  split; [exact game_start_sorted|].
  split; vm_compute; reflexivity.
Qed.

(** C2.  In an ascending container, for the mass of a cell the container
    holds, [get_preys] returns a prefix of the container that is exactly the
    cells lighter than that mass by more than 1024; no cell of it is
    returned by [get_predators], none is heavier than the mass by more than
    1024, and the querying cell is not in it. *)
Theorem get_preys_exact (w : world) (c : ref) :
  sorted_by_mass w ->
  In c (Container.game_objects (cells w)) ->
  exists (k : nat) (predators : list ref),
    Cell.get_preys w (mass_key w c)
    = Ok (firstn k (Container.game_objects (cells w)))
    /\ firstn k (Container.game_objects (cells w))
       = filter (is_prey_of w (mass_key w c))
                (Container.game_objects (cells w))
    /\ Cell.get_predators w (mass_key w c) = Ok predators
    /\ (forall r, In r (firstn k (Container.game_objects (cells w))) ->
                  ~ In r predators
                  /\ is_predator_of w (mass_key w c) r = false)
    /\ ~ In c (firstn k (Container.game_objects (cells w))).
Proof.
  intros Hs Hin.
  destruct (get_preys_filter w (mass_key w c) Hs) as [k [Hk Hf]].
  { exists c. split; [exact Hin|lia]. }
  exists k, []. split; [exact Hk|]. split; [exact Hf|].
  split.
  { apply get_predators_empty. intros E. rewrite E in Hin. destruct Hin. }
  assert (Hprey : forall r, In r (firstn k (Container.game_objects (cells w))) ->
                            mass_key w r < mass_key w c - 1024).
  { intros r Hr. rewrite Hf in Hr. apply filter_In in Hr.
    destruct Hr as [_ Hr]. unfold is_prey_of in Hr.
    apply Z.ltb_lt in Hr. exact Hr. }
  split.
  - intros r Hr. split; [intros []|].
    apply Hprey in Hr. unfold is_predator_of. apply Z.ltb_ge. lia.
  - intros Hc. apply Hprey in Hc. lia.
Qed.

Lemma get_preys_exact_witness :
  exists w,
    Scenario.game_start = Ok w
    /\ Cell.get_preys w 4096
       = Ok (filter (is_prey_of w 4096) (Container.game_objects (cells w)))
    /\ length (filter (is_prey_of w 4096) (Container.game_objects (cells w)))
       = 20%nat.
Proof.
  exists (Scenario.world_of Scenario.game_start).
  split; [exact game_start_ok|].
  destruct (get_preys_exact (Scenario.world_of Scenario.game_start) Scenario.p0
              game_start_sorted)
    as [k [predators [Hk [Hf _]]]].
  - apply mem_In. vm_compute. reflexivity.
  - split.
    + assert (Hm : mass_key (Scenario.world_of Scenario.game_start)
                             Scenario.p0 = 4096)
        by (vm_compute; reflexivity).
      rewrite Hm in Hk, Hf. rewrite <- Hf. exact Hk.
    + vm_compute. reflexivity.
Defined.

(** ** The order of the population *)

(** C6.  In every state the simulation reaches between two frames the
    container [cells] is in ascending order of mass, and iterating it
    yields masses in ascending order.  The re-sorts: [start_new_game] and
    [change_mass] leave any container in order, and [remove_object] keeps
    the order of one that is.  Insertion: [Cell.__init__] puts the new
    cell behind all the others and does not sort, so that the container is
    in order afterwards exactly when it was before and holds no heavier
    cell; what [level_3] has built when it calls [start_new_game] is not
    in order, and [get_preys] finds none of the 20 preys of the mass 4096
    there; [start_new_game] sorts it before the first frame, and no frame
    adds a cell.  Within a frame: the loop over the entities has the
    container in order before the turn of each entity, and still after it
    has moved its cells; an enemy's loop over its cells has it in order
    before each cell's queries for predators and preys; the player's loop
    has it in order before each cell's turn, after the [change_mass] of
    that turn, after its [remove_object], and after the turn. *)
Theorem population_stays_sorted (w : world) :
  Level3.reachable w ->
  (sorted_by_mass w
   /\ exists cs,
        Container.for_in (cells w)
        = Ok (tl (Container.game_objects (cells w)), cs)
        /\ ascending w (tl (Container.game_objects (cells w))))
  /\ ((forall v, sorted_by_mass (Level3.start_new_game v))
      /\ (forall v self change v',
             Cell.change_mass v self change = Ok v' -> sorted_by_mass v')
      /\ (forall v x cs,
             sorted_by_mass v ->
             Container.remove_object x (cells v) = Ok cs ->
             sorted_by_mass (set_cells v cs)))
  /\ ((forall v e pos m v' self,
          allocated_cells v ->
          Cell.init v e pos m = Ok (v', self) ->
          Container.game_objects (cells v')
          = Container.game_objects (cells v) ++ [self]
          /\ mass_key v' self = m
          /\ (forall r, In r (Container.game_objects (cells v)) ->
                        mass_key v' r = mass_key v r)
          /\ (sorted_by_mass v'
              <-> sorted_by_mass v
                  /\ Forall (fun r => mass_key v r <= m)
                            (Container.game_objects (cells v))))
      /\ (exists w0,
             Scenario.before_sort = Ok w0
             /\ Scenario.game_start = Ok (Level3.start_new_game w0)
             /\ ~ sorted_by_mass w0
             /\ Cell.get_preys w0 4096 = Ok []
             /\ length (prey_set w0 4096) = 20%nat)
      /\ (forall mouse elapsed w',
             Level3.frame w mouse elapsed = Ok w' ->
             incl (Container.game_objects (cells w'))
                  (Container.game_objects (cells w))))
  /\ (forall mouse es1 e es2,
         Container.game_objects (entities w) = es1 ++ e :: es2 ->
         Level3.update_entities w mouse (Container.game_objects (entities w))
         = (w1 <- Level3.update_entities w mouse es1 ;;
            w2 <- match class_of (entity_heap w1 e) with
                  | Player_class => Player.update w1 e mouse
                  | Enemy_class => Enemy.update w1 e
                  end ;;
            Level3.update_entities w2 mouse es2)
         /\ forall w1,
              Level3.update_entities w mouse es1 = Ok w1 ->
              sorted_by_mass w1
              /\ forall w2,
                   Entity.update w1 e = Ok w2 ->
                   sorted_by_mass w2
                   /\ match class_of (entity_heap w1 e) with
                      | Enemy_class =>
                          forall cs1 c cs2,
                            e_cells (entity_heap w2 e) = cs1 ++ c :: cs2 ->
                            Enemy.steer_all w2 e (e_cells (entity_heap w2 e))
                            = (w3 <- Enemy.steer_all w2 e cs1 ;;
                               w4 <- Enemy.steer w3 e c ;;
                               Enemy.steer_all w4 e cs2)
                            /\ forall w3,
                                 Enemy.steer_all w2 e cs1 = Ok w3 ->
                                 sorted_by_mass w3
                      | Player_class =>
                          let v2 :=
                            write_entity w2 e
                              (set_destination (entity_heap w2 e)
                                 (Vector2.mk (Flt.of_Z (fst mouse))
                                             (Flt.of_Z (snd mouse)))) in
                          forall cs1 c cs2,
                            e_cells (entity_heap v2 e) = cs1 ++ c :: cs2 ->
                            Player.absorb_all v2 (e_cells (entity_heap v2 e))
                            = (w3 <- Player.absorb_all v2 cs1 ;;
                               w4 <- Player.absorb w3 c ;;
                               Player.absorb_all w4 cs2)
                            /\ forall w3,
                                 Player.absorb_all v2 cs1 = Ok w3 ->
                                 sorted_by_mass w3
                                 /\ (forall preys cs prey v3,
                                        Player.candidates w3 c
                                        = Ok (preys, cs) ->
                                        Cell.change_mass (set_cells w3 cs) c
                                          (mass_key (set_cells w3 cs) prey)
                                        = Ok v3 ->
                                        sorted_by_mass v3
                                        /\ forall cs',
                                             Container.remove_object prey
                                               (cells v3) = Ok cs' ->
                                             sorted_by_mass
                                               (set_cells v3 cs'))
                                 /\ forall w4,
                                      Player.absorb w3 c = Ok w4 ->
                                      sorted_by_mass w4
                      end).
Proof.
  intros Hr. pose proof (reachable_sorted w Hr) as Hs.
  split; [|split; [|split]].
  - split; [exact Hs|].
    rewrite for_in_tail. eexists. split; [reflexivity|].
    unfold sorted_by_mass in Hs. unfold ascending.
    destruct (Container.game_objects (cells w)); simpl.
    + constructor.
    + inversion Hs; assumption.
  - split; [|split].
    + intros v.
      exact (sorted_is_sorted (mass_key v) (Container.game_objects (cells v))).
    + intros v self change v'. apply change_mass_sorted.
    + intros v x cs Hv H. exact (remove_object_sorted v x cs H Hv).
  - split; [|split].
    + intros v e pos m v' self. apply cell_init_order.
    + exists (Scenario.world_of Scenario.before_sort).
      assert (H0 : Scenario.before_sort
                   = Ok (Scenario.world_of Scenario.before_sort))
        by (vm_compute; reflexivity).
      assert (Hp : Cell.get_preys (Scenario.world_of Scenario.before_sort) 4096
                   = Ok []) by (vm_compute; reflexivity).
      assert (Hn : length (prey_set (Scenario.world_of Scenario.before_sort)
                             4096) = 20%nat) by (vm_compute; reflexivity).
      split; [exact H0|]. split; [vm_compute; reflexivity|].
      split; [|split; [exact Hp|exact Hn]].
      intros Hsorted.
      destruct (get_preys_filter (Scenario.world_of Scenario.before_sort)
                  4096 Hsorted) as [k [Hk Hf]].
      * exists Scenario.p0. split; [apply mem_In|]; vm_compute;
          [reflexivity|discriminate].
      * fold (prey_set (Scenario.world_of Scenario.before_sort) 4096) in Hf.
        rewrite Hf, Hp in Hk.
        pose proof (f_equal (fun r => match r with
                                      | Ok l => length l
                                      | _ => 0%nat
                                      end) Hk) as E.
        cbv beta iota in E. rewrite Hn in E. discriminate E.
    + intros mouse elapsed w'.
      apply frame_keeps_no_new_cell. apply reachable_distinct. exact Hr.
  - intros mouse es1 e es2 He. split.
    + rewrite He. rewrite update_entities_app. reflexivity.
    + intros w1 H1.
      pose proof (update_entities_sorted mouse es1 w w1 H1 Hs) as Hs1.
      split; [exact Hs1|]. intros w2 H2.
      assert (Hs2 : sorted_by_mass w2).
      { eapply same_masses_sorted; [|exact Hs1].
        eapply update_cells_same. exact H2. }
      split; [exact Hs2|].
      destruct (class_of (entity_heap w1 e)).
      * intros v2 cs1 c cs2 Hc. split.
        { rewrite Hc. rewrite absorb_all_app. reflexivity. }
        intros w3 H3.
        assert (Hs3 : sorted_by_mass w3).
        { eapply absorb_all_sorted; [exact H3|].
          eapply same_masses_sorted; [apply write_entity_same|exact Hs2]. }
        split; [exact Hs3|]. split.
        { intros preys cs prey v3 Hcand Hch.
          pose proof (change_mass_sorted _ _ _ _ Hch) as Hs4.
          split; [exact Hs4|].
          intros cs' Hrem. exact (remove_object_sorted v3 prey cs' Hrem Hs4). }
        intros w4 H4. eapply absorb_sorted; eauto.
      * intros cs1 c cs2 Hc. split.
        { rewrite Hc. rewrite steer_all_app. reflexivity. }
        intros w3 H3.
        eapply same_masses_sorted; [|exact Hs2].
        eapply steer_all_same. exact H3.
Qed.

Lemma population_stays_sorted_witness :
  exists w w1 w2 w',
    Scenario.game_start' = Ok w
    /\ Level3.update_entities w Scenario.mouse_mid [Scenario.player] = Ok w1
    /\ mass_key w Scenario.p0 = 4096
    /\ mass_key w1 Scenario.p0 = 4608
    /\ sorted_by_mass w1
    /\ Entity.update w1 1%nat = Ok w2
    /\ sorted_by_mass w2
    /\ Level3.frame w Scenario.mouse_mid Scenario.dt0 = Ok w'
    /\ sorted_by_mass w'.
Proof.
  assert (Hr : Level3.reachable (Scenario.world_of Scenario.game_start')).
  { apply (Level3.reach_setup Scenario.dt0 Scenario.near_second).
    vm_compute. reflexivity. }
  assert (He : Container.game_objects
                 (entities (Scenario.world_of Scenario.game_start'))
               = [Scenario.player] ++ 1%nat :: seq 2 9)
    by (vm_compute; reflexivity).
  assert (H1 : Level3.update_entities (Scenario.world_of Scenario.game_start')
                 Scenario.mouse_mid [Scenario.player]
               = Ok (Scenario.world_of Scenario.after_update'))
    by (vm_compute; reflexivity).
  assert (H2 : Entity.update (Scenario.world_of Scenario.after_update') 1%nat
               = Ok (Scenario.world_of Scenario.enemy_moved'))
    by (vm_compute; reflexivity).
  assert (Hf : Level3.frame (Scenario.world_of Scenario.game_start')
                 Scenario.mouse_mid Scenario.dt0
               = Ok (Scenario.world_of Scenario.first_frame'))
    by (vm_compute; reflexivity).
  exists (Scenario.world_of Scenario.game_start'),
         (Scenario.world_of Scenario.after_update'),
         (Scenario.world_of Scenario.enemy_moved'),
         (Scenario.world_of Scenario.first_frame').
  destruct (population_stays_sorted _ Hr) as [_ [_ [_ Hmid]]].
  destruct (Hmid Scenario.mouse_mid _ _ _ He) as [_ Hpre].
  destruct (Hpre _ H1) as [Hs1 Hup].
  destruct (Hup _ H2) as [Hs2 _].
  split; [exact game_start'_ok|]. split; [exact H1|].
  split; [vm_compute; reflexivity|]. split; [vm_compute; reflexivity|].
  split; [exact Hs1|]. split; [exact H2|]. split; [exact Hs2|].
  split; [exact Hf|].
  exact (proj1 (proj1 (population_stays_sorted _
                         (Level3.reach_frame _ _ _ _ Hr Hf)))).
Defined.

(** ** The derived fields *)

(** What [__init__] and [update_values] store as the point count is
    [get_point_count] of the mass. *)
Lemma change_mass_point_count (w w' : world) (self : ref) (change : Z) :
  Cell.change_mass w self change = Ok w' ->
  mass (heap w' self) = mass (heap w self) + change
  /\ Cell.get_point_count (Flt.of_Z (mass (heap w' self)))
     = Ok (point_count (heap w' self))
  /\ Cell.get_radius (mass (heap w' self)) = Ok (radius (heap w' self)).
Proof.
  unfold Cell.change_mass, Cell.update_values. intros H.
  do 3 bind_inv H. injection H as <-.
  unfold write_cell, store in *. simpl in *.
  rewrite Nat.eqb_refl in *. simpl in *. auto.
Qed.

Lemma init_point_count (w w' : world) (e self : ref) (p : Vector2.t) (m : Z) :
  Cell.init w e p m = Ok (w', self) ->
  mass (heap w' self) = m
  /\ Cell.get_point_count (Flt.of_Z m) = Ok (point_count (heap w' self))
  /\ Cell.get_radius m = Ok (radius (heap w' self)).
Proof.
  unfold Cell.init. intros H. do 3 bind_inv H. injection H as <- <-.
  unfold write_cell, store. simpl. rewrite Nat.eqb_refl. simpl. auto.
Qed.

(** C7.  A cell created with mass 1024 has the radius of that mass, about
    18.05, for which [get_point_count] gives 19, and holds the point count
    651; after [change_mass(1024)] its mass is 2048 and its radius the one
    of 2048, for which [get_point_count] gives 24, and it holds 1295.  In
    the game, the player's cell of mass 4096 starts with the point count
    2582, where [get_point_count] of its radius is 31. *)
Theorem point_count_is_taken_from_the_mass :
  exists w w' g,
    Scenario.lone_1024 = Ok w
    /\ mass (heap w 0%nat) = 1024
    /\ Cell.get_radius 1024 = Ok (radius (heap w 0%nat))
    /\ Cell.get_point_count (radius (heap w 0%nat)) = Ok 19
    /\ point_count (heap w 0%nat) = 651
    /\ Cell.change_mass w 0%nat 1024 = Ok w'
    /\ mass (heap w' 0%nat) = 2048
    /\ Cell.get_radius 2048 = Ok (radius (heap w' 0%nat))
    /\ Cell.get_point_count (radius (heap w' 0%nat)) = Ok 24
    /\ point_count (heap w' 0%nat) = 1295
    /\ Scenario.game_start = Ok g
    /\ mass (heap g Scenario.p0) = 4096
    /\ Cell.get_point_count (radius (heap g Scenario.p0)) = Ok 31
    /\ point_count (heap g Scenario.p0) = 2582.
Proof.
  exists (Scenario.world_of Scenario.lone_1024),
         (Scenario.world_of Scenario.lone_2048),
         (Scenario.world_of Scenario.game_start).
  evaluate.
Qed.

(** ** The reductions *)

(** C8, amended.  In a container in ascending order, for a mass that is
    not negative.  When some cell is not lighter than the mass by more
    than 1024 (as when the mass is that of a cell of the container),
    [get_preys] returns the set of the cells that are, and
    [get_near_preys] those of them within four radii of the position;
    [get_nearest_prey] raises [ValueError] exactly when the first set is
    empty, and otherwise returns a cell of it below whose distance no
    cell's of it compares; [get_most_perspective_prey] raises [ValueError]
    exactly when the second set is empty, and otherwise returns a cell of
    it that no cell of it outweighs.  When every cell is lighter than the
    mass by more than 1024, the set of the preys is the whole container
    and both reductions raise [IndexError]. *)
Theorem reductions_raise_exactly_on_no_prey
    (w : world) (m : Z) (pos : Vector2.t) :
  sorted_by_mass w ->
  0 <= m ->
  ((exists c, In c (Container.game_objects (cells w))
              /\ m <= mass_key w c + 1024) ->
   Cell.get_preys w m = Ok (prey_set w m)
   /\ Cell.get_near_preys w m pos = Ok (near_prey_set w m pos)
   /\ (Cell.get_nearest_prey w m pos = Raise ValueError
       <-> prey_set w m = [])
   /\ (prey_set w m <> [] ->
       exists r,
         Cell.get_nearest_prey w m pos = Ok r
         /\ In r (prey_set w m)
         /\ forall y, In y (prey_set w m) ->
              PrimFloat.ltb
                (Vector2.distance_squared_to pos (position (heap w y)))
                (Vector2.distance_squared_to pos (position (heap w r)))
              = false)
   /\ (Cell.get_most_perspective_prey w m pos = Raise ValueError
       <-> near_prey_set w m pos = [])
   /\ (near_prey_set w m pos <> [] ->
       exists r,
         Cell.get_most_perspective_prey w m pos = Ok r
         /\ In r (near_prey_set w m pos)
         /\ forall y, In y (near_prey_set w m pos) ->
                      mass_key w y <= mass_key w r))
  /\ (Forall (fun r => mass_key w r + 1024 < m)
             (Container.game_objects (cells w)) ->
      prey_set w m = Container.game_objects (cells w)
      /\ Cell.get_nearest_prey w m pos = Raise IndexError
      /\ Cell.get_most_perspective_prey w m pos = Raise IndexError).
Proof.
  intros Hs Hm. split.
  - intros Hc.
    destruct (get_preys_filter w m Hs Hc) as [k [Hp Hf]].
    fold (prey_set w m) in Hf. rewrite Hf in Hp.
    assert (Hn : Cell.get_near_preys w m pos = Ok (near_prey_set w m pos)).
    { unfold Cell.get_near_preys, near_prey_set. rewrite Hp. cbn [bind].
      destruct (prey_set w m) as [|p ps]; [reflexivity|].
      unfold Cell.get_radius.
      destruct (Z.ltb_spec m 0); [lia|]. reflexivity. }
    split; [exact Hp|]. split; [exact Hn|].
    pose proof (min_float_spec
                  (fun x => Vector2.distance_squared_to pos
                              (position (heap w x)))
                  (prey_set w m)) as Hmin.
    pose proof (max_mass_spec w (near_prey_set w m pos)) as Hmax.
    unfold Cell.get_nearest_prey, Cell.get_most_perspective_prey.
    rewrite Hp, Hn. cbn [bind].
    split; [|split; [|split]].
    + destruct (prey_set w m) as [|p ps].
      * split; [reflexivity|intros _; exact Hmin].
      * destruct Hmin as [r [Hr _]]. rewrite Hr.
        split; discriminate.
    + intros Hne. destruct (prey_set w m) as [|p ps]; [congruence|].
      exact Hmin.
    + destruct (near_prey_set w m pos) as [|p ps].
      * split; [reflexivity|intros _; exact Hmax].
      * destruct Hmax as [r [Hr _]]. rewrite Hr.
        split; discriminate.
    + intros Hne. destruct (near_prey_set w m pos) as [|p ps]; [congruence|].
      exact Hmax.
  - intros Hall. pose proof (get_preys_all_lighter w m Hall) as Hp.
    split; [|split].
    + unfold prey_set. clear - Hall.
      induction Hall as [|x l Hx _ IH]; [reflexivity|].
      cbn [filter]. unfold is_prey_of at 1.
      destruct (Z.ltb_spec (mass_key w x) (m - 1024)); [|lia].
      rewrite IH. reflexivity.
    + unfold Cell.get_nearest_prey. rewrite Hp. reflexivity.
    + unfold Cell.get_most_perspective_prey, Cell.get_near_preys.
      rewrite Hp. reflexivity.
Qed.

Lemma reductions_raise_exactly_on_no_prey_witness :
  length (prey_set (Scenario.world_of Scenario.game_start) 4096) = 20%nat
  /\ near_prey_set (Scenario.world_of Scenario.game_start) 4096
       (Vector2.mk 360 360) = [Scenario.e0; Scenario.e1]
  /\ near_prey_set (Scenario.world_of Scenario.game_start) 4096
       (Vector2.mk 360 720) = []
  /\ (exists r,
         Cell.get_nearest_prey (Scenario.world_of Scenario.game_start) 4096
           (Vector2.mk 360 360) = Ok r
         /\ In r (prey_set (Scenario.world_of Scenario.game_start) 4096))
  /\ (exists r,
         Cell.get_most_perspective_prey
           (Scenario.world_of Scenario.game_start) 4096 (Vector2.mk 360 360)
         = Ok r
         /\ In r (near_prey_set (Scenario.world_of Scenario.game_start) 4096
                    (Vector2.mk 360 360)))
  /\ Cell.get_most_perspective_prey
       (Scenario.world_of Scenario.game_start) 4096 (Vector2.mk 360 720)
     = Raise ValueError.
Proof.
  assert (Hc : exists c,
             In c (Container.game_objects
                     (cells (Scenario.world_of Scenario.game_start)))
             /\ 4096 <= mass_key (Scenario.world_of Scenario.game_start) c
                        + 1024).
  { exists Scenario.p0. split; [apply mem_In|]; vm_compute;
      [reflexivity|discriminate]. }
  assert (Hlen : length (prey_set (Scenario.world_of Scenario.game_start)
                           4096) = 20%nat) by (vm_compute; reflexivity).
  assert (Hnear : near_prey_set (Scenario.world_of Scenario.game_start) 4096
                    (Vector2.mk 360 360) = [Scenario.e0; Scenario.e1])
    by (vm_compute; reflexivity).
  assert (Hfar : near_prey_set (Scenario.world_of Scenario.game_start) 4096
                   (Vector2.mk 360 720) = []) by (vm_compute; reflexivity).
  destruct (proj1 (reductions_raise_exactly_on_no_prey
                     (Scenario.world_of Scenario.game_start) 4096
                     (Vector2.mk 360 360) game_start_sorted
                     ltac:(lia)) Hc)
    as [_ [_ [_ [Hmin [_ Hmax]]]]].
  destruct (proj1 (reductions_raise_exactly_on_no_prey
                     (Scenario.world_of Scenario.game_start) 4096
                     (Vector2.mk 360 720) game_start_sorted
                     ltac:(lia)) Hc)
    as [_ [_ [_ [_ [Hnone _]]]]].
  split; [exact Hlen|]. split; [exact Hnear|]. split; [exact Hfar|].
  split; [|split].
  - destruct Hmin as [r [Hr [Hin _]]].
    + intros E. apply (f_equal (@length ref)) in E.
      rewrite Hlen in E. discriminate E.
    + exists r. auto.
  - destruct Hmax as [r [Hr [Hin _]]].
    + intros E. apply (f_equal (@length ref)) in E.
      rewrite Hnear in E. discriminate E.
    + exists r. auto.
  - apply Hnone. exact Hfar.
Defined.

(** C8, as stated: for the mass 10000 every cell of the starting
    population is a prey, and both reductions raise [IndexError]. *)
Lemma reductions_raise_with_preys :
  exists w,
    Scenario.game_start = Ok w
    /\ length (filter (is_prey_of w 10000) (Container.game_objects (cells w)))
       = 22%nat
    /\ Cell.get_nearest_prey w 10000 (Vector2.mk 360 360) = Raise IndexError
    /\ Cell.get_most_perspective_prey w 10000 (Vector2.mk 360 360)
       = Raise IndexError.
Proof.
  exists (Scenario.world_of Scenario.game_start).
  split; [exact game_start_ok|]. evaluate.
Qed.

(** ** The window *)

(** C9, amended.  After [Cell.update], the per-frame move of a cell towards
    its owner's destination, the cell's position lies within
    [0, 720] x [0, 720]; and a coordinate that the move carried beyond a
    bound is exactly on that bound.  ([push_away] does not clamp.) *)
Theorem cell_update_stays_in_window (w w' : world) (self : ref) :
  Cell.update w self = Ok w' ->
  in_window (position (heap w' self)) = true
  /\ exists w1,
      Cell.move_cell w self
        (destination (entity_heap w (entity (heap w self)))) = Ok w1
      /\ (PrimFloat.ltb (Flt.of_Z 720) (Vector2.x (position (heap w1 self)))
          = true ->
          Vector2.x (position (heap w' self)) = Flt.of_Z 720)
      /\ (PrimFloat.ltb (Vector2.x (position (heap w1 self))) 0 = true ->
          Vector2.x (position (heap w' self)) = 0%float)
      /\ (PrimFloat.ltb (Flt.of_Z 720) (Vector2.y (position (heap w1 self)))
          = true ->
          Vector2.y (position (heap w' self)) = Flt.of_Z 720)
      /\ (PrimFloat.ltb (Vector2.y (position (heap w1 self))) 0 = true ->
          Vector2.y (position (heap w' self)) = 0%float).
Proof.
  intros H. split; [eapply cell_update_in_window; eauto|].
  unfold Cell.update in H. bind_inv H. injection H as <-.
  unfold write_cell, store. cbn -[Cell.clamp Flt.of_Z].
  rewrite Nat.eqb_refl. cbn -[Cell.clamp Flt.of_Z].
  exists a. split; [exact Ha|].
  repeat match goal with |- _ /\ _ => split end; intros Hb;
    first [apply clamp_high; exact Hb | apply clamp_low; exact Hb].
Qed.

Lemma cell_update_stays_in_window_witness :
  exists w w',
    Scenario.edge_enemy = Ok w
    /\ Cell.update w 0%nat = Ok w'
    /\ position (heap w 0%nat) = Vector2.mk 719 300
    /\ destination (entity_heap w 0%nat) = Vector2.mk 819 300
    /\ Vector2.x (position (heap w' 0%nat)) = 720%float
    /\ in_window (position (heap w' 0%nat)) = true.
Proof.
  exists (Scenario.world_of Scenario.edge_enemy),
         (Scenario.world_of Scenario.edge_updated).
  assert (H : Cell.update (Scenario.world_of Scenario.edge_enemy) 0%nat
              = Ok (Scenario.world_of Scenario.edge_updated))
    by (vm_compute; reflexivity).
  split; [vm_compute; reflexivity|]. split; [exact H|].
  split; [vm_compute; reflexivity|]. split; [vm_compute; reflexivity|].
  split; [vm_compute; reflexivity|].
  exact (proj1 (cell_update_stays_in_window _ _ _ H)).
Defined.

(** C9, as stated: for a player created in the corner (0, 0), the first
    [update] calls [push_away] with both cells inside the window, and
    [push_away] leaves the first cell at a negative abscissa. *)
Lemma push_away_leaves_the_window :
  exists w s w',
    Scenario.corner_player = Ok w
    /\ Player.before_push w Scenario.player (0, 0) = Ok s
    /\ in_window (position (heap s Scenario.p0)) = true
    /\ in_window (position (heap s Scenario.p1)) = true
    /\ Entity.push_away s Scenario.player = Ok w'
    /\ Player.update w Scenario.player (0, 0) = Ok w'
    /\ PrimFloat.ltb (Vector2.x (position (heap w' Scenario.p0))) 0 = true
    /\ in_window (position (heap w' Scenario.p0)) = false.
Proof.
  exists (Scenario.world_of Scenario.corner_player),
         (Scenario.world_of Scenario.corner_before_push),
         (Scenario.world_of Scenario.corner_pushed).
  evaluate.
Qed.

(** ** Absorption *)

(** C3.  At the start of the game with the first enemy drawn at
    (378, 361): its first cell, of mass 512, is a prey candidate of the
    player's cell of mass 4096, the nearest one, and within reach; it is
    also the first object of the container.  After the player's [update]
    the player's cell still has mass 4096 and the enemy's cell is still in
    the container. *)
Theorem lightest_prey_is_not_absorbed :
  exists w w',
    Scenario.game_start = Ok w
    /\ mass_key w Scenario.p0 = 4096
    /\ mass_key w Scenario.e0 = 512
    /\ In Scenario.p0 (e_cells (entity_heap w Scenario.player))
    /\ class_of (entity_heap w Scenario.player) = Player_class
    /\ candidate_of w Scenario.p0 Scenario.e0 = true
    /\ nearest_candidate w Scenario.p0 Scenario.e0 = true
    /\ within_reach w Scenario.p0 Scenario.e0 = true
    /\ hd_error (Container.game_objects (cells w)) = Some Scenario.e0
    /\ Player.update w Scenario.player Scenario.mouse_mid = Ok w'
    /\ mass_key w' Scenario.p0 = 4096
    /\ In Scenario.e0 (Container.game_objects (cells w')).
Proof.
  exists (Scenario.world_of Scenario.game_start),
         (Scenario.world_of Scenario.after_update).
  repeat match goal with |- _ /\ _ => split end;
    try (apply mem_In); vm_compute; reflexivity.
Qed.

(** The same draw with the near enemy created second, so that its first
    cell is the third object of the container: the player's cell absorbs
    it. *)
Lemma later_prey_is_absorbed :
  exists w w',
    Scenario.game_start' = Ok w
    /\ mass_key w Scenario.p0 = 4096
    /\ mass_key w 4%nat = 512
    /\ candidate_of w Scenario.p0 4%nat = true
    /\ nearest_candidate w Scenario.p0 4%nat = true
    /\ within_reach w Scenario.p0 4%nat = true
    /\ nth_error (Container.game_objects (cells w)) 2 = Some 4%nat
    /\ Player.update w Scenario.player Scenario.mouse_mid = Ok w'
    /\ mass_key w' Scenario.p0 = 4608
    /\ ~ In 4%nat (Container.game_objects (cells w')).
Proof.
  exists (Scenario.world_of Scenario.game_start'),
         (Scenario.world_of Scenario.after_update').
  repeat match goal with |- _ /\ _ => split end;
    try (apply not_mem_not_In); vm_compute; reflexivity.
Qed.

(** ** The collision resolver *)

(** C4.  In the first frame of the game the player's [update] calls
    [push_away] with its two cells, both of mass 4096, overlapping by more
    than 70, the second to the right of and below the first.  [push_away]
    moves the second cell to a smaller abscissa and ordinate, that is
    towards the first, and each cell by less than 0.125. *)
Theorem push_away_moves_towards_a_point :
  exists g s w',
    Scenario.game_start = Ok g
    /\ Player.before_push g Scenario.player Scenario.mouse_mid = Ok s
    /\ mass_key s Scenario.p0 = 4096
    /\ mass_key s Scenario.p1 = 4096
    /\ Cell.intersects (heap s Scenario.p0) (heap s Scenario.p1) = true
    /\ PrimFloat.ltb 70
         (radius (heap s Scenario.p0) + radius (heap s Scenario.p1)
          - centre_distance s Scenario.p0 Scenario.p1)%float = true
    /\ PrimFloat.ltb (Vector2.x (position (heap s Scenario.p0)))
                     (Vector2.x (position (heap s Scenario.p1))) = true
    /\ PrimFloat.ltb (Vector2.y (position (heap s Scenario.p0)))
                     (Vector2.y (position (heap s Scenario.p1))) = true
    /\ Entity.push_away s Scenario.player = Ok w'
    /\ Player.update g Scenario.player Scenario.mouse_mid = Ok w'
    /\ PrimFloat.ltb (Vector2.x (position (heap w' Scenario.p1)))
                     (Vector2.x (position (heap s Scenario.p1))) = true
    /\ PrimFloat.ltb (Vector2.y (position (heap w' Scenario.p1)))
                     (Vector2.y (position (heap s Scenario.p1))) = true
    /\ PrimFloat.ltb
         (Vector2.magnitude (Vector2.sub (position (heap w' Scenario.p1))
                                         (position (heap s Scenario.p1))))
         0.125 = true
    /\ PrimFloat.ltb
         (Vector2.magnitude (Vector2.sub (position (heap w' Scenario.p0))
                                         (position (heap s Scenario.p0))))
         0.125 = true.
Proof.
  exists (Scenario.world_of Scenario.game_start),
         (Scenario.world_of Scenario.before_push),
         (Scenario.world_of Scenario.after_update).
  evaluate.
Qed.

(** C5.  In the first frame of [game_start'] the player's [update] calls
    [push_away] with its cells, of mass 4608 and 4096, overlapping, the sum
    of their radii above 74.  That pass of [push_away] makes the distance
    between their centres smaller, and a second pass smaller again.  With
    the two equal masses of [game_start] the pass of the first frame leaves
    the distance as it was. *)
Theorem push_away_brings_cells_closer :
  exists g s w1 w2 h t t',
    Scenario.game_start' = Ok g
    /\ Player.before_push g Scenario.player Scenario.mouse_mid = Ok s
    /\ mass_key s Scenario.p0 = 4608
    /\ mass_key s Scenario.p1 = 4096
    /\ Cell.intersects (heap s Scenario.p0) (heap s Scenario.p1) = true
    /\ PrimFloat.ltb 74 (radius (heap s Scenario.p0)
                         + radius (heap s Scenario.p1))%float = true
    /\ Entity.push_away s Scenario.player = Ok w1
    /\ Player.update g Scenario.player Scenario.mouse_mid = Ok w1
    /\ PrimFloat.ltb (centre_distance w1 Scenario.p0 Scenario.p1)
                     (centre_distance s Scenario.p0 Scenario.p1) = true
    /\ Entity.push_away w1 Scenario.player = Ok w2
    /\ PrimFloat.ltb (centre_distance w2 Scenario.p0 Scenario.p1)
                     (centre_distance w1 Scenario.p0 Scenario.p1) = true
    /\ Scenario.game_start = Ok h
    /\ Player.before_push h Scenario.player Scenario.mouse_mid = Ok t
    /\ Cell.intersects (heap t Scenario.p0) (heap t Scenario.p1) = true
    /\ Entity.push_away t Scenario.player = Ok t'
    /\ centre_distance t' Scenario.p0 Scenario.p1
       = centre_distance t Scenario.p0 Scenario.p1.
Proof.
  exists (Scenario.world_of Scenario.game_start'),
         (Scenario.world_of Scenario.before_push'),
         (Scenario.world_of Scenario.after_update'),
         (Scenario.world_of Scenario.pushed_twice),
         (Scenario.world_of Scenario.game_start),
         (Scenario.world_of Scenario.before_push),
         (Scenario.world_of Scenario.after_update).
  evaluate.
Qed.

(** * Further properties *)

(** ** The classifier, whatever the order of the container *)

(** X1.  [get_predators] finds no cell: on an empty container it raises
    [IndexError], on any other it returns the empty list, for every mass;
    and [get_near_predators] with it. *)
Theorem get_predators_finds_nothing (w : world) (m : Z) (pos : Vector2.t) :
  match Container.game_objects (cells w) with
  | [] =>
      Cell.get_predators w m = Raise IndexError
      /\ Cell.get_near_predators w m pos = Raise IndexError
  | _ :: _ =>
      Cell.get_predators w m = Ok []
      /\ Cell.get_near_predators w m pos = Ok []
  end.
Proof.
  destruct (Container.game_objects (cells w)) as [|c l] eqn:E.
  - unfold Cell.get_near_predators.
    rewrite (get_predators_no_cell w m E). split; reflexivity.
  - assert (Hne : Container.game_objects (cells w) <> []) by congruence.
    unfold Cell.get_near_predators.
    rewrite (get_predators_empty w m Hne). split; reflexivity.
Qed.

(** X2.  With a cell in the container, an enemy never flees: the turn of
    one of its cells in [Enemy.update] comes to the pursuit alone, the
    destination moving by the position of the heaviest near prey times
    [1.0 / cell_count * 2.0], or not at all. *)
Theorem enemy_never_flees (w : world) (self cell : ref) :
  Container.game_objects (cells w) <> [] ->
  Enemy.steer w self cell
  = (preys <- Cell.get_near_preys w (mass (heap w cell))
                (position (heap w cell)) ;;
     if 0 <? Py.len preys then
       prey <- Py.max Z.ltb (mass_key w) preys ;;
       k <- Flt.truediv 1 (Flt.of_Z (cell_count (entity_heap w self))) ;;
       Ok (Entity.add_direction w self (position (heap w prey))
             (PrimFloat.mul k 2))
     else Ok w).
Proof.
  intros Hne. unfold Enemy.steer, Cell.get_near_predators.
  rewrite (get_predators_empty w _ Hne). reflexivity.
Qed.

Lemma enemy_never_flees_witness :
  Enemy.steer (Scenario.world_of Scenario.game_start) 1%nat Scenario.e0
  = Ok (Scenario.world_of Scenario.game_start).
Proof.
  rewrite enemy_never_flees.
  - vm_compute. reflexivity.
  - intros E.
    assert (H : length (Container.game_objects
                          (cells (Scenario.world_of Scenario.game_start)))
                = 22%nat) by (vm_compute; reflexivity).
    rewrite E in H. discriminate.
Defined.

(** X3.  [get_preys], sorted container or not: when every cell is lighter
    than the mass by more than 1024, and so on an empty container, it
    raises [IndexError]; otherwise it returns the cells before the first
    one that is not, all of them lighter. *)
Theorem get_preys_stops_at_first_heavy (w : world) (m : Z) :
  (Forall (fun r => mass_key w r + 1024 < m)
          (Container.game_objects (cells w)) ->
   Cell.get_preys w m = Raise IndexError)
  /\ (forall c,
         In c (Container.game_objects (cells w)) ->
         m <= mass_key w c + 1024 ->
         exists k first,
           Cell.get_preys w m
           = Ok (firstn k (Container.game_objects (cells w)))
           /\ Forall (fun r => mass_key w r + 1024 < m)
                     (firstn k (Container.game_objects (cells w)))
           /\ nth_error (Container.game_objects (cells w)) k = Some first
           /\ m <= mass_key w first + 1024).
Proof.
  split; [apply get_preys_all_lighter|].
  intros c Hin Hc.
  destruct (preys_scan_stops w m (Container.game_objects (cells w)) [])
    as [k [Hk [Hkl [Hall Hnth]]]]; [reflexivity|exists c; auto|].
  change (Z.of_nat (length (@nil ref))) with 0 in Hk.
  cbn [length Nat.add] in Hk.
  destruct (nth_error (Container.game_objects (cells w)) k) as [first|] eqn:E.
  2:{ apply nth_error_None in E. lia. }
  exists k, first. split.
  - unfold Cell.get_preys. rewrite Hk. cbn [bind].
    rewrite slice_to_nat by lia. reflexivity.
  - split; [exact Hall|]. split; [exact E|]. apply Hnth. reflexivity.
Qed.

Lemma get_preys_stops_at_first_heavy_witness :
  exists k first,
    Cell.get_preys (Scenario.world_of Scenario.game_start) 2000
    = Ok (firstn k (Container.game_objects
                      (cells (Scenario.world_of Scenario.game_start))))
    /\ nth_error (Container.game_objects
                    (cells (Scenario.world_of Scenario.game_start))) k
       = Some first
    /\ 2000 <= mass_key (Scenario.world_of Scenario.game_start) first + 1024.
Proof.
  destruct (proj2 (get_preys_stops_at_first_heavy
                     (Scenario.world_of Scenario.game_start) 2000)
                  Scenario.p0)
    as [k [first [Hk [_ [Hn Hf]]]]].
  - apply mem_In. vm_compute. reflexivity.
  - vm_compute. discriminate.
  - exists k, first. auto.
Defined.

(** ** One absorption *)

(** X4.  One turn of the player's loop over its cells, in a container that
    holds no cell twice.  The candidates are the cells the iteration meets,
    so not the first object of the container, that are light enough.
    Either nothing is absorbed, the masses and the container staying as
    they were, and then there is no candidate or the least distant one is
    out of reach; or the least distant candidate is within reach, the
    absorbing cell gains exactly its mass, no other mass changes, and it
    leaves the container, which keeps all its other cells. *)
Theorem absorption_takes_the_least_distant_candidate
    (w w' : world) (cell : ref) :
  distinct_cells w ->
  Player.absorb w cell = Ok w' ->
  let met := tl (Container.game_objects (cells w)) in
  let least prey :=
    In prey met /\ candidate_of w cell prey = true
    /\ forall y, In y met -> candidate_of w cell y = true ->
                 PrimFloat.ltb (sqr_distance w y cell)
                               (sqr_distance w prey cell) = false in
  (same_masses w w'
   /\ (filter (candidate_of w cell) met = []
       \/ exists prey, least prey /\ within_reach w cell prey = false))
  \/ exists prey,
       least prey
       /\ within_reach w cell prey = true
       /\ mass_key w' cell = mass_key w cell + mass_key w prey
       /\ (forall r, r <> cell -> mass_key w' r = mass_key w r)
       /\ ~ In prey (Container.game_objects (cells w'))
       /\ Permutation (prey :: Container.game_objects (cells w'))
                      (Container.game_objects (cells w)).
Proof. exact (absorb_effect w w' cell). Qed.

Lemma absorption_takes_the_least_distant_candidate_witness :
  exists prey,
    within_reach (Scenario.world_of Scenario.game_start') Scenario.p0 prey
    = true
    /\ mass_key (Scenario.world_of Scenario.absorbed') Scenario.p0
       = mass_key (Scenario.world_of Scenario.game_start') Scenario.p0
         + mass_key (Scenario.world_of Scenario.game_start') prey
    /\ ~ In prey (Container.game_objects
                    (cells (Scenario.world_of Scenario.absorbed'))).
Proof.
  destruct (absorption_takes_the_least_distant_candidate
              (Scenario.world_of Scenario.game_start')
              (Scenario.world_of Scenario.absorbed') Scenario.p0)
    as [[[Hl _] _]|[prey [_ [Hr [Hm [_ [Hg _]]]]]]].
  - apply distinct_NoDup. vm_compute. reflexivity.
  - vm_compute. reflexivity.
  - exfalso.
    assert (H : length (Container.game_objects
                          (cells (Scenario.world_of Scenario.absorbed')))
                = 21%nat) by (vm_compute; reflexivity).
    rewrite Hl in H. vm_compute in H. discriminate.
  - exists prey. auto.
Defined.

(** X5.  When a candidate met by the iteration is within reach and
    strictly nearer to the cell than every other candidate met, it is the
    one absorbed: the cell gains its mass, no other mass changes, and the
    candidate is no longer in the container. *)
Theorem nearest_candidate_in_reach_is_absorbed
    (w w' : world) (cell p : ref) :
  distinct_cells w ->
  In p (tl (Container.game_objects (cells w))) ->
  candidate_of w cell p = true ->
  within_reach w cell p = true ->
  (forall y, In y (tl (Container.game_objects (cells w))) ->
             candidate_of w cell y = true -> y <> p ->
             PrimFloat.ltb (sqr_distance w p cell) (sqr_distance w y cell)
             = true) ->
  Player.absorb w cell = Ok w' ->
  mass_key w' cell = mass_key w cell + mass_key w p
  /\ (forall r, r <> cell -> mass_key w' r = mass_key w r)
  /\ ~ In p (Container.game_objects (cells w')).
Proof. exact (absorb_nearest w w' cell p). Qed.

Lemma nearest_candidate_in_reach_is_absorbed_witness :
  mass_key (Scenario.world_of Scenario.absorbed') Scenario.p0 = 4608
  /\ ~ In 4%nat (Container.game_objects
                   (cells (Scenario.world_of Scenario.absorbed'))).
Proof.
  destruct (nearest_candidate_in_reach_is_absorbed
              (Scenario.world_of Scenario.game_start')
              (Scenario.world_of Scenario.absorbed') Scenario.p0 4%nat)
    as [Hm [_ Hg]].
  - apply distinct_NoDup. vm_compute. reflexivity.
  - apply mem_In. vm_compute. reflexivity.
  - vm_compute. reflexivity.
  - vm_compute. reflexivity.
  - intros y Hy Hc Hne.
    assert (F : forallb
                  (fun y =>
                     negb (candidate_of
                             (Scenario.world_of Scenario.game_start')
                             Scenario.p0 y)
                     || Nat.eqb y 4
                     || PrimFloat.ltb
                          (sqr_distance
                             (Scenario.world_of Scenario.game_start')
                             4%nat Scenario.p0)
                          (sqr_distance
                             (Scenario.world_of Scenario.game_start')
                             y Scenario.p0))
                  (tl (Container.game_objects
                         (cells (Scenario.world_of Scenario.game_start'))))
                = true) by (vm_compute; reflexivity).
    pose proof (proj1 (forallb_forall _ _) F y Hy) as F'.
    cbv beta in F'. rewrite Hc in F'.
    apply Nat.eqb_neq in Hne. rewrite Hne in F'. exact F'.
  - vm_compute. reflexivity.
  - split; [|exact Hg]. rewrite Hm. vm_compute. reflexivity.
Defined.

Lemma sum_ext (f g : ref -> Z) (l : list ref) :
  (forall r, In r l -> g r = f r) ->
  fold_right Z.add 0 (map g l) = fold_right Z.add 0 (map f l).
Proof.
  induction l as [|x l IH]; simpl; intros H; [reflexivity|].
  rewrite IH by auto. rewrite (H x) by auto. reflexivity.
Qed.

Lemma sum_perm (f : ref -> Z) (l l' : list ref) :
  Permutation l l' ->
  fold_right Z.add 0 (map f l) = fold_right Z.add 0 (map f l').
Proof. induction 1; simpl; lia. Qed.

(** Raising one value of a list without repeats raises the sum as much. *)
Lemma sum_bump (f g : ref -> Z) (c : ref) (d : Z) (l : list ref) :
  NoDup l -> In c l -> g c = f c + d ->
  (forall r, r <> c -> g r = f r) ->
  fold_right Z.add 0 (map g l) = fold_right Z.add 0 (map f l) + d.
Proof.
  intros Hnd Hin Hc Ho. induction l as [|x l IH]; [destruct Hin|].
  inversion Hnd as [|? ? Hx Hnd']; subst. simpl.
  destruct (Nat.eq_dec x c) as [->|Hne].
  - rewrite Hc. rewrite (sum_ext f g l); [lia|].
    intros r Hr. apply Ho. intros ->. contradiction.
  - destruct Hin as [E|Hin]; [contradiction|].
    rewrite (Ho x Hne), (IH Hnd' Hin). lia.
Qed.

(** X6.  An absorption moves mass, it makes none: when the absorbing cell
    is itself in the container, and is not a candidate of its own, the sum
    of the masses over the container is the same after the turn as
    before. *)
Theorem absorption_conserves_the_mass (w w' : world) (cell : ref) :
  distinct_cells w ->
  In cell (Container.game_objects (cells w)) ->
  candidate_of w cell cell = false ->
  Player.absorb w cell = Ok w' ->
  total_mass w' = total_mass w.
Proof.
  intros Hnd Hin Hself H. unfold total_mass.
  destruct (absorb_effect w w' cell Hnd H)
    as [[[Hl Hm] _]|[prey [[_ [Hc _]] [_ [Hmc [Hmo [Hg Hp]]]]]]].
  - rewrite Hl. apply sum_ext. intros r _. apply Hm.
  - assert (Hne : cell <> prey) by (intros ->; congruence).
    rewrite <- (sum_perm (mass_key w) _ _ Hp). simpl.
    assert (Hnd' : NoDup (prey :: Container.game_objects (cells w')))
      by (eapply Permutation_NoDup; [symmetry; exact Hp|exact Hnd]).
    inversion Hnd' as [|? ? _ Hnd'']; subst.
    assert (Hin' : In cell (Container.game_objects (cells w'))).
    { apply (Permutation_in _ (Permutation_sym Hp)) in Hin.
      destruct Hin as [E|Hin]; [congruence|exact Hin]. }
    rewrite (sum_bump (mass_key w) (mass_key w') cell (mass_key w prey)
               _ Hnd'' Hin' Hmc Hmo).
    lia.
Qed.

Lemma absorption_conserves_the_mass_witness :
  total_mass (Scenario.world_of Scenario.absorbed') = 18432
  /\ total_mass (Scenario.world_of Scenario.game_start') = 18432.
Proof.
  split; [|vm_compute; reflexivity].
  rewrite (absorption_conserves_the_mass
             (Scenario.world_of Scenario.game_start')
             (Scenario.world_of Scenario.absorbed') Scenario.p0).
  - vm_compute. reflexivity.
  - apply distinct_NoDup. vm_compute. reflexivity.
  - apply mem_In. vm_compute. reflexivity.
  - vm_compute. reflexivity.
  - vm_compute. reflexivity.
Defined.

(** ** A frame *)

(** X7.  A frame ends with every cell of the container [cells] inside the
    window, wherever [push_away] left it: the container updates each of
    its cells after the entities have run, and that update clamps. *)
Theorem frame_ends_with_the_cells_in_the_window
    (w w' : world) (mouse : Z * Z) (elapsed : float) :
  Level3.frame w mouse elapsed = Ok w' ->
  Forall (fun c => in_window (position (heap w' c)) = true)
         (Container.game_objects (cells w')).
Proof.
  intros H. apply Forall_forall. intros c Hc.
  eapply frame_ends_in_window; eauto.
Qed.

Lemma frame_ends_with_the_cells_in_the_window_witness :
  Forall (fun c =>
            in_window
              (position (heap (Scenario.world_of Scenario.first_frame') c))
            = true)
         (Container.game_objects
            (cells (Scenario.world_of Scenario.first_frame'))).
Proof.
  apply (frame_ends_with_the_cells_in_the_window
           (Scenario.world_of Scenario.game_start')
           (Scenario.world_of Scenario.first_frame')
           Scenario.mouse_mid Scenario.dt0).
  vm_compute. reflexivity.
Defined.

(** X8.  No frame adds a cell: from a container that holds no cell twice
    it leaves one that holds no cell twice, every cell of which was there
    before, so that it is no longer. *)
Theorem frame_adds_no_cell
    (w w' : world) (mouse : Z * Z) (elapsed : float) :
  distinct_cells w ->
  Level3.frame w mouse elapsed = Ok w' ->
  distinct_cells w'
  /\ incl (Container.game_objects (cells w'))
          (Container.game_objects (cells w))
  /\ (length (Container.game_objects (cells w'))
      <= length (Container.game_objects (cells w)))%nat.
Proof.
  intros Hnd H.
  assert (HP : distinct_cells w'
               /\ incl (Container.game_objects (cells w'))
                       (Container.game_objects (cells w))).
  { refine (frame_invariant
              (fun v => distinct_cells v
                        /\ incl (Container.game_objects (cells v))
                                (Container.game_objects (cells w)))
              _ _ w w' mouse elapsed H _).
    - intros w1 w2 [Hl _] [Hd Hi]. unfold distinct_cells.
      rewrite Hl. auto.
    - intros w1 w2 cell Ha [Hd Hi].
      split; [eapply absorb_distinct; eauto|].
      destruct (absorb_effect w1 w2 cell Hd Ha)
        as [[[Hl _] _]|[prey [_ [_ [_ [_ [_ Hp]]]]]]].
      + rewrite Hl. exact Hi.
      + intros r Hr. apply Hi.
        apply (Permutation_in _ Hp). right. exact Hr.
    - split; [exact Hnd|apply incl_refl]. }
  destruct HP as [Hd Hi]. split; [exact Hd|]. split; [exact Hi|].
  apply NoDup_incl_length; assumption.
Qed.

Lemma frame_adds_no_cell_witness :
  (length (Container.game_objects
             (cells (Scenario.world_of Scenario.first_frame')))
   <= length (Container.game_objects
                (cells (Scenario.world_of Scenario.game_start'))))%nat.
Proof.
  apply (frame_adds_no_cell
           (Scenario.world_of Scenario.game_start')
           (Scenario.world_of Scenario.first_frame')
           Scenario.mouse_mid Scenario.dt0).
  - apply distinct_NoDup. vm_compute. reflexivity.
  - vm_compute. reflexivity.
Defined.

(** X19.  The time step a frame leaves is
    [max(elapsed, 1.0 / MAX_FPS)], whatever the frame did: it is [elapsed]
    unless [elapsed] compares below [1.0 / MAX_FPS], and then it is
    [1.0 / MAX_FPS].  So a time above [1.0 / MAX_FPS] is kept as it is;
    and for a time that is a number the step is the greater of the two: it
    is below neither, and it is one of them. *)
Theorem frame_time_step_has_a_floor
    (w w' : world) (mouse : Z * Z) (elapsed : float) :
  Level3.frame w mouse elapsed = Ok w' ->
  (PrimFloat.ltb elapsed (PrimFloat.div 1 (Flt.of_Z MAX_FPS)) = true ->
   delta_time w' = PrimFloat.div 1 (Flt.of_Z MAX_FPS))
  /\ (PrimFloat.ltb elapsed (PrimFloat.div 1 (Flt.of_Z MAX_FPS)) = false ->
      delta_time w' = elapsed)
  /\ (PrimFloat.ltb (PrimFloat.div 1 (Flt.of_Z MAX_FPS)) elapsed = true ->
      delta_time w' = elapsed)
  /\ (PrimFloat.leb elapsed elapsed = true ->
      PrimFloat.leb (PrimFloat.div 1 (Flt.of_Z MAX_FPS)) (delta_time w')
      = true
      /\ PrimFloat.leb elapsed (delta_time w') = true
      /\ (delta_time w' = elapsed
          \/ delta_time w' = PrimFloat.div 1 (Flt.of_Z MAX_FPS))).
Proof.
  intros H. unfold Level3.frame in H. bind_inv H. injection H as <-.
  cbn [delta_time set_delta_time]. unfold Flt.max2.
  match goal with
  | |- context [if PrimFloat.ltb elapsed ?a then _ else elapsed] =>
      change a with (PrimFloat.div 1 (Flt.of_Z MAX_FPS))
  end.
  split; [intros ->; reflexivity|].
  split; [intros ->; reflexivity|].
  split; [intros E; rewrite (ltb_asym _ _ E); reflexivity|].
  intros Hnum. destruct (PrimFloat.ltb elapsed _) eqn:E.
  - split; [vm_compute; reflexivity|].
    split; [apply ltb_leb; exact E|right; reflexivity].
  - split; [|split; [exact Hnum|left; reflexivity]].
    apply leb_of_not_ltb; [exact E|vm_compute; reflexivity|exact Hnum].
Qed.

Lemma frame_time_step_has_a_floor_witness :
  delta_time (Scenario.world_of Scenario.slow_frame') = 0.5%float
  /\ delta_time (Scenario.world_of Scenario.first_frame') = Scenario.dt0.
Proof.
  split.
  - apply (proj1 (proj2 (proj2 (frame_time_step_has_a_floor
                                  (Scenario.world_of Scenario.game_start')
                                  (Scenario.world_of Scenario.slow_frame')
                                  Scenario.mouse_mid 0.5
                                  ltac:(vm_compute; reflexivity))))).
    vm_compute. reflexivity.
  - apply (proj1 (proj2 (frame_time_step_has_a_floor
                           (Scenario.world_of Scenario.game_start')
                           (Scenario.world_of Scenario.first_frame')
                           Scenario.mouse_mid Scenario.dt0
                           ltac:(vm_compute; reflexivity)))).
    vm_compute. reflexivity.
Defined.

(** ** What the updates leave alone *)

Lemma same_entities_refl (w : world) : same_entities w w.
Proof. intros e. auto. Qed.

Lemma same_entities_trans (w1 w2 w3 : world) :
  same_entities w1 w2 -> same_entities w2 w3 -> same_entities w1 w3.
Proof.
  intros H1 H2 e. destruct (H1 e) as [A [B C]], (H2 e) as [A' [B' C']].
  repeat split; congruence.
Qed.

Lemma same_entity_heap (w w' : world) :
  entity_heap w' = entity_heap w -> same_entities w w'.
Proof. intros H e. rewrite H. auto. Qed.

Lemma set_destination_same (w : world) (self : ref) (d : Vector2.t) :
  same_entities w
    (write_entity w self (set_destination (entity_heap w self) d)).
Proof.
  intros e. unfold write_entity, store. cbn [entity_heap set_entity_heap].
  destruct (Nat.eqb_spec e self) as [->|]; auto.
Qed.

Lemma move_cell_entities (w w' : world) (self : ref) (d : Vector2.t) :
  Cell.move_cell w self d = Ok w' -> entity_heap w' = entity_heap w.
Proof.
  unfold Cell.move_cell. destruct (Vector2.eqb _ _).
  - intros [= <-]. reflexivity.
  - intros H. bind_inv H. injection H as <-. reflexivity.
Qed.

Lemma cell_update_entities (w w' : world) (self : ref) :
  Cell.update w self = Ok w' -> entity_heap w' = entity_heap w.
Proof.
  unfold Cell.update. intros H. bind_inv H. injection H as <-.
  apply move_cell_entities in Ha. exact Ha.
Qed.

Lemma update_cells_entities (l : list ref) :
  forall (w w' : world),
    Entity.update_cells w l = Ok w' -> entity_heap w' = entity_heap w.
Proof.
  induction l as [|c l IH]; simpl; intros w w' H.
  - injection H as <-. reflexivity.
  - bind_inv H. rewrite (IH _ _ H). eapply cell_update_entities; eauto.
Qed.

Lemma push_pair_entities (w w' : world) (c1 c2 : ref) :
  Entity.push_pair w c1 c2 = Ok w' -> entity_heap w' = entity_heap w.
Proof.
  unfold Entity.push_pair.
  destruct (negb _); [intros [= <-]; reflexivity|].
  destruct (_ || _); [intros [= <-]; reflexivity|].
  intros H. do 3 bind_inv H.
  apply move_cell_entities in Ha1, H. congruence.
Qed.

Lemma push_row_entities (c1 : ref) (l : list ref) :
  forall (w w' : world),
    Entity.push_row w c1 l = Ok w' -> entity_heap w' = entity_heap w.
Proof.
  induction l as [|c l IH]; simpl; intros w w' H.
  - injection H as <-. reflexivity.
  - bind_inv H. rewrite (IH _ _ H). eapply push_pair_entities; eauto.
Qed.

Lemma push_rows_entities (l : list ref) :
  forall (w w' : world),
    Entity.push_rows w l = Ok w' -> entity_heap w' = entity_heap w.
Proof.
  induction l as [|c l IH]; simpl; intros w w' H.
  - injection H as <-. reflexivity.
  - bind_inv H. rewrite (IH _ _ H). eapply push_row_entities; eauto.
Qed.

Lemma push_away_entities (w w' : world) (self : ref) :
  Entity.push_away w self = Ok w' -> entity_heap w' = entity_heap w.
Proof.
  unfold Entity.push_away. destruct (_ =? _).
  - intros [= <-]. reflexivity.
  - apply push_rows_entities.
Qed.

Lemma absorb_entities (w w' : world) (cell : ref) :
  Player.absorb w cell = Ok w' -> entity_heap w' = entity_heap w.
Proof.
  unfold Player.absorb. intros H. bind_inv H. destruct a as [preys cs].
  destruct (0 <? Py.len preys); [|injection H as <-; reflexivity].
  bind_inv H.
  destruct (PrimFloat.leb _ _); [|injection H as <-; reflexivity].
  do 2 bind_inv H. injection H as <-.
  unfold Cell.change_mass, Cell.update_values in Ha1.
  do 3 bind_inv Ha1. injection Ha1 as <-. reflexivity.
Qed.

Lemma absorb_all_entities (l : list ref) :
  forall (w w' : world),
    Player.absorb_all w l = Ok w' -> entity_heap w' = entity_heap w.
Proof.
  induction l as [|c l IH]; simpl; intros w w' H.
  - injection H as <-. reflexivity.
  - bind_inv H. rewrite (IH _ _ H). eapply absorb_entities; eauto.
Qed.

Lemma player_update_entities (w w' : world) (self : ref) (mouse : Z * Z) :
  Player.update w self mouse = Ok w' -> same_entities w w'.
Proof.
  unfold Player.update, Player.before_push, Entity.update. intros H.
  bind_inv H. do 2 bind_inv Ha. injection Ha as <-.
  apply push_away_entities in H. apply absorb_all_entities in Ha1.
  apply update_cells_entities in Ha0.
  eapply same_entities_trans; [|apply same_entity_heap; exact H].
  eapply same_entities_trans;
    [|apply same_entity_heap; cbn [entity_heap set_food_timer]; exact Ha1].
  eapply same_entities_trans; [apply same_entity_heap; exact Ha0|].
  apply set_destination_same.
Qed.

(** One turn of the enemy's loop touches no cell, and of the entities only
    the destination of the enemy itself. *)
Lemma steer_effect (w w' : world) (self cell : ref) :
  Enemy.steer w self cell = Ok w' ->
  heap w' = heap w
  /\ same_entities w w'
  /\ forall e, e <> self -> entity_heap w' e = entity_heap w e.
Proof.
  unfold Enemy.steer. intros H. bind_inv H.
  destruct (0 <? Py.len a); [discriminate|]. bind_inv H.
  destruct (0 <? Py.len a0).
  - do 2 bind_inv H. injection H as <-. unfold Entity.add_direction.
    split; [reflexivity|]. split; [apply set_destination_same|].
    intros e He. unfold write_entity, store.
    cbn [entity_heap set_entity_heap].
    apply Nat.eqb_neq in He. rewrite He. reflexivity.
  - injection H as <-. split; [reflexivity|].
    split; [apply same_entities_refl|reflexivity].
Qed.

Lemma steer_all_effect (self : ref) (l : list ref) :
  forall (w w' : world),
    Enemy.steer_all w self l = Ok w' ->
    heap w' = heap w
    /\ same_entities w w'
    /\ forall e, e <> self -> entity_heap w' e = entity_heap w e.
Proof.
  induction l as [|c l IH]; simpl; intros w w' H.
  - injection H as <-. split; [reflexivity|].
    split; [apply same_entities_refl|reflexivity].
  - bind_inv H. apply steer_effect in Ha. apply IH in H.
    destruct Ha as [Hh [Hs Ho]], H as [Hh' [Hs' Ho']].
    split; [congruence|]. split; [eapply same_entities_trans; eauto|].
    intros e He. rewrite (Ho' e He). apply Ho. exact He.
Qed.

(** X9.  An enemy's [update] moves cells of its own and nothing else: no
    mass changes and the container [cells] stays as it was, every cell
    that is not the enemy's keeps all its fields, every other entity is
    left as it was, and the enemy itself keeps its class, its cell count
    and its cells, its destination alone being free to change. *)
Theorem enemy_update_touches_its_own_cells_only
    (w w' : world) (self : ref) :
  Enemy.update w self = Ok w' ->
  same_masses w w'
  /\ (forall r, ~ In r (e_cells (entity_heap w self)) ->
                heap w' r = heap w r)
  /\ (forall e, e <> self -> entity_heap w' e = entity_heap w e)
  /\ same_entities w w'.
Proof.
  intros H. split; [eapply enemy_update_same; eauto|].
  unfold Enemy.update, Entity.update in H. bind_inv H.
  pose proof (update_cells_entities _ _ _ Ha) as He.
  apply steer_all_effect in H. destruct H as [Hh [Hs Ho]].
  split; [|split].
  - intros r Hr. rewrite Hh. eapply update_cells_others; eauto.
  - intros e Hne. rewrite (Ho e Hne), He. reflexivity.
  - eapply same_entities_trans; [apply same_entity_heap; exact He|exact Hs].
Qed.

Lemma enemy_update_touches_its_own_cells_only_witness :
  heap (Scenario.world_of Scenario.enemy_updated) Scenario.p0
  = heap (Scenario.world_of Scenario.game_start) Scenario.p0.
Proof.
  destruct (enemy_update_touches_its_own_cells_only
              (Scenario.world_of Scenario.game_start)
              (Scenario.world_of Scenario.enemy_updated) 1%nat)
    as [_ [Hh _]].
  - vm_compute. reflexivity.
  - apply Hh. apply not_mem_not_In. vm_compute. reflexivity.
Defined.

Lemma update_entities_entities (mouse : Z * Z) (l : list ref) :
  forall (w w' : world),
    Level3.update_entities w mouse l = Ok w' -> same_entities w w'.
Proof.
  induction l as [|e l IH]; simpl; intros w w' H.
  - injection H as <-. apply same_entities_refl.
  - bind_inv H. eapply same_entities_trans; [|eapply IH; eauto].
    destruct (class_of _).
    + eapply player_update_entities; eauto.
    + unfold Enemy.update, Entity.update in Ha. bind_inv Ha.
      apply update_cells_entities in Ha0. apply steer_all_effect in Ha.
      eapply same_entities_trans; [apply same_entity_heap; exact Ha0|].
      apply Ha.
Qed.

Lemma frame_entities (w w' : world) (mouse : Z * Z) (elapsed : float) :
  Level3.frame w mouse elapsed = Ok w' -> same_entities w w'.
Proof.
  unfold Level3.frame, Level3.hierarchy_update. intros H.
  bind_inv H. injection H as <-. bind_inv Ha.
  apply update_entities_entities in Ha0. apply update_cells_entities in Ha.
  eapply same_entities_trans; [exact Ha0|].
  apply same_entity_heap. exact Ha.
Qed.

(** X10.  A frame changes no entity's class, cell count or list of cells:
    a cell that was absorbed leaves the container [cells] and stays with
    its entity, whose loops go on moving it.  The simulation reaches such
    a state: after three frames of [game_start'], the mouse resting, the
    player's second cell has been absorbed by the first and is still one
    of the player's two cells. *)
Theorem absorbed_cells_stay_with_their_entity :
  (forall (w w' : world) (mouse : Z * Z) (elapsed : float),
      Level3.frame w mouse elapsed = Ok w' -> same_entities w w')
  /\ exists w,
       Level3.reachable w
       /\ ~ In Scenario.p1 (Container.game_objects (cells w))
       /\ e_cells (entity_heap w Scenario.player)
          = [Scenario.p0; Scenario.p1]
       /\ cell_count (entity_heap w Scenario.player) = 2
       /\ mass_key w Scenario.p0 = 9216.
Proof.
  split; [exact frame_entities|].
  exists (Scenario.world_of Scenario.third_frame').
  split.
  - apply (Level3.reach_frame (Scenario.world_of Scenario.second_frame')
             Scenario.mouse_mid Scenario.dt0).
    + apply (Level3.reach_frame (Scenario.world_of Scenario.first_frame')
               Scenario.mouse_mid Scenario.dt0).
      * apply (Level3.reach_frame (Scenario.world_of Scenario.game_start')
                 Scenario.mouse_mid Scenario.dt0).
        -- apply (Level3.reach_setup Scenario.dt0 Scenario.near_second).
           vm_compute. reflexivity.
        -- vm_compute. reflexivity.
      * vm_compute. reflexivity.
    + vm_compute. reflexivity.
  - split; [apply not_mem_not_In; vm_compute; reflexivity|].
    evaluate.
Qed.

(** ** The container's own operations *)

Lemma insert_by_with_key {A : Type} (key : A -> Z) (k : Z) (x : A)
    (l : list A) :
  with_key key k (Py.insert_by key x l) = with_key key k (x :: l).
Proof.
  unfold with_key. induction l as [|y l IH]; simpl; [reflexivity|].
  destruct (Z.leb_spec (key x) (key y)); [reflexivity|].
  simpl. rewrite IH. simpl.
  destruct (Z.eqb_spec (key x) k), (Z.eqb_spec (key y) k);
    try reflexivity.
  lia.
Qed.

Lemma sorted_with_key {A : Type} (key : A -> Z) (k : Z) (l : list A) :
  with_key key k (Py.sorted key l) = with_key key k l.
Proof.
  induction l as [|x l IH]; simpl; [reflexivity|].
  rewrite insert_by_with_key. unfold with_key in *. simpl.
  rewrite IH. reflexivity.
Qed.

(** X11.  [sort] leaves the objects in ascending order of the key, the
    same objects as before, those of equal key in the order they had; the
    index of the iteration is not touched, and sorting again changes
    nothing. *)
Theorem sort_is_ascending_and_stable {A : Type} (key : A -> Z)
    (c : Container.t A) :
  StronglySorted (ascending_key key)
                 (Container.game_objects (Container.sort key c))
  /\ Permutation (Container.game_objects (Container.sort key c))
                 (Container.game_objects c)
  /\ (forall k, with_key key k (Container.game_objects (Container.sort key c))
                = with_key key k (Container.game_objects c))
  /\ Container.index (Container.sort key c) = Container.index c
  /\ Container.sort key (Container.sort key c) = Container.sort key c.
Proof.
  unfold Container.sort. cbn [Container.game_objects Container.index].
  split; [apply sorted_is_sorted|]. split; [apply sorted_perm|].
  split; [intros k; apply sorted_with_key|]. split; [reflexivity|].
  f_equal. apply sorted_fixpoint. apply sorted_is_sorted.
Qed.

Lemma remove_split (x : ref) (post : list ref) :
  forall (pre : list ref),
    ~ In x pre -> Py.remove x (pre ++ x :: post) = Ok (pre ++ post).
Proof.
  induction pre as [|y pre IH]; simpl; intros H.
  - rewrite Nat.eqb_refl. reflexivity.
  - destruct (Nat.eqb_spec y x) as [->|Hne]; [tauto|].
    rewrite IH by tauto. reflexivity.
Qed.

Lemma remove_missing (x : ref) :
  forall (l : list ref), ~ In x l -> Py.remove x l = Raise ValueError.
Proof.
  induction l as [|y l IH]; simpl; intros H; [reflexivity|].
  destruct (Nat.eqb_spec y x) as [->|Hne]; [tauto|].
  rewrite IH by tauto. reflexivity.
Qed.

Lemma remove_object_split (x : ref) (c : Container.t ref)
    (pre post : list ref) :
  Container.game_objects c = pre ++ x :: post -> ~ In x pre ->
  Container.remove_object x c
  = Ok (Container.mk (pre ++ post) (Container.index c)).
Proof.
  unfold Container.remove_object, ref in *. intros E H.
  rewrite E. rewrite remove_split by exact H. reflexivity.
Qed.

(** X12.  [remove_object] raises [ValueError] for an object the container
    does not hold, and otherwise drops its first occurrence and nothing
    else, the index of the iteration staying where it was. *)
Theorem remove_object_drops_the_first_occurrence
    (x : ref) (c : Container.t ref) :
  (~ In x (Container.game_objects c) ->
   Container.remove_object x c = Raise ValueError)
  /\ (forall pre post,
         Container.game_objects c = pre ++ x :: post -> ~ In x pre ->
         Container.remove_object x c
         = Ok (Container.mk (pre ++ post) (Container.index c))).
Proof.
  unfold Container.remove_object, ref in *. split.
  - intros H. rewrite remove_missing by exact H. reflexivity.
  - intros pre post E H. apply remove_object_split; assumption.
Qed.

Lemma remove_object_drops_the_first_occurrence_witness :
  Container.remove_object 7%nat (Container.mk [5; 7; 9; 7]%nat 2)
  = Ok (Container.mk [5; 9; 7]%nat 2).
Proof.
  apply (proj2 (remove_object_drops_the_first_occurrence
                  7%nat (Container.mk [5; 7; 9; 7]%nat 2))
               [5%nat] [9; 7]%nat).
  - reflexivity.
  - simpl. intros [H|[]]. discriminate.
Defined.

(** X13.  Adding an object and removing it again gives the container back
    when it did not hold the object; when it did, the removal takes the
    occurrence that was there and the object stays, at the end. *)
Theorem add_then_remove (x : ref) (c : Container.t ref) :
  (~ In x (Container.game_objects c) ->
   Container.remove_object x (Container.add_object x c) = Ok c)
  /\ (forall pre post,
         Container.game_objects c = pre ++ x :: post -> ~ In x pre ->
         Container.remove_object x (Container.add_object x c)
         = Ok (Container.mk (pre ++ post ++ [x]) (Container.index c))).
Proof.
  unfold Container.remove_object, Container.add_object, ref in *.
  cbn [Container.game_objects Container.index]. split.
  - intros H. rewrite remove_split by exact H. rewrite app_nil_r.
    destruct c; reflexivity.
  - intros pre post E H. rewrite E. rewrite <- app_assoc.
    change ((x :: post) ++ [x]) with (x :: (post ++ [x])).
    rewrite remove_split by exact H. reflexivity.
Qed.

Lemma add_then_remove_witness :
  Container.remove_object 7%nat
    (Container.add_object 7%nat (Container.mk [5; 9]%nat 1))
  = Ok (Container.mk [5; 9]%nat 1).
Proof.
  apply (proj1 (add_then_remove 7%nat (Container.mk [5; 9]%nat 1))).
  simpl. intros [H|[H|[]]]; discriminate.
Defined.

Lemma update_length {A : Type} (v : A) :
  forall (l : list A) (n : nat),
    (n < length l)%nat -> length (Py.update l n v) = length l.
Proof.
  intros l n H. unfold Py.update.
  rewrite length_app. cbn [length].
  rewrite length_firstn, length_skipn. lia.
Qed.

Lemma update_nth {A : Type} (v : A) (l : list A) (n m : nat) :
  (n < length l)%nat ->
  nth_error (Py.update l n v) m
  = if Nat.eqb m n then Some v else nth_error l m.
Proof.
  intros H. unfold Py.update.
  assert (Hf : length (firstn n l) = n) by (rewrite length_firstn; lia).
  destruct (Nat.eqb_spec m n) as [->|Hne].
  - rewrite nth_error_app2 by lia. rewrite Hf, Nat.sub_diag. reflexivity.
  - destruct (Nat.lt_ge_cases m n) as [Hlt|Hge].
    + rewrite nth_error_app1 by lia. rewrite nth_error_firstn.
      destruct (Nat.ltb_spec m n); [reflexivity|lia].
    + rewrite nth_error_app2 by lia. rewrite Hf.
      destruct (m - n)%nat as [|d] eqn:Hd; [lia|].
      cbn [nth_error]. rewrite nth_error_skipn. f_equal. lia.
Qed.

(** X18.  [c[i] = v] and [c[i]] accept the same indices, those from
    [-len(c)] to [len(c) - 1], and raise [IndexError] for the others.
    After [c[i] = v], [c[i]] is [v], the length and the index of the
    iteration are as before, and every index that names another place
    reads what it read before. *)
Theorem setitem_then_getitem {A : Type} (c : Container.t A) (i : Z)
    (v : A) :
  (- Container.len c <= i < Container.len c ->
   exists c',
     Container.setitem c i v = Ok c'
     /\ Container.getitem c' i = Ok v
     /\ Container.len c' = Container.len c
     /\ Container.index c' = Container.index c
     /\ forall j, j <> i -> j <> i + Container.len c ->
                  j <> i - Container.len c ->
                  Container.getitem c' j = Container.getitem c j)
  /\ (~ (- Container.len c <= i < Container.len c) ->
      Container.setitem c i v = Raise IndexError
      /\ Container.getitem c i = Raise IndexError).
Proof.
  destruct c as [l ix].
  unfold Container.setitem, Container.getitem, Container.len, Py.setitem,
    Py.getitem, Py.len.
  cbn [Container.game_objects Container.index].
  set (n := Z.of_nat (length l)).
  set (norm := fun k : Z => if k <? 0 then k + n else k).
  change (if i <? 0 then i + n else i) with (norm i).
  assert (Hnorm : forall k, -n <= k < n -> 0 <= norm k < n).
  { intros k Hk. unfold norm. destruct (Z.ltb_spec k 0); lia. }
  assert (Hout : forall k, ~ (-n <= k < n) ->
                           (0 <=? norm k) && (norm k <? n) = false).
  { intros k Hk. unfold norm.
    destruct (Z.ltb_spec k 0);
      [destruct (Z.leb_spec 0 (k + n)); [|reflexivity]
      |destruct (Z.leb_spec 0 k); [|reflexivity]]; simpl;
      apply Z.ltb_ge; lia. }
  split.
  - intros Hi. pose proof (Hnorm i Hi) as Hn.
    assert (Hin : (0 <=? norm i) && (norm i <? n) = true).
    { apply andb_true_iff. split; [apply Z.leb_le|apply Z.ltb_lt]; lia. }
    rewrite Hin. cbn [bind].
    assert (Hlt : (Z.to_nat (norm i) < length l)%nat) by (unfold n in Hn; lia).
    eexists. split; [reflexivity|].
    cbn [Container.game_objects Container.index].
    rewrite (update_length v l _ Hlt). fold n.
    change (if i <? 0 then i + n else i) with (norm i).
    split; [|split; [reflexivity|split; [reflexivity|]]].
    + rewrite Hin. rewrite (update_nth v l _ _ Hlt), Nat.eqb_refl.
      reflexivity.
    + intros j H1 H2 H3.
      change (if j <? 0 then j + n else j) with (norm j).
      destruct ((0 <=? norm j) && (norm j <? n)) eqn:Hj; [|reflexivity].
      apply andb_true_iff in Hj. destruct Hj as [Hj0 Hj1].
      apply Z.leb_le in Hj0. apply Z.ltb_lt in Hj1.
      rewrite (update_nth v l _ _ Hlt).
      destruct (Nat.eqb_spec (Z.to_nat (norm j)) (Z.to_nat (norm i)))
        as [E|_]; [|reflexivity].
      exfalso. apply Z2Nat.inj in E; [|lia|lia].
      unfold norm in E, Hj0, Hj1.
      destruct (Z.ltb_spec j 0), (Z.ltb_spec i 0); lia.
  - intros Hi. rewrite (Hout i Hi). split; reflexivity.
Qed.

Lemma setitem_then_getitem_witness :
  exists c',
    Container.setitem (Container.mk [5; 7; 9]%nat 0) (-1) 4%nat = Ok c'
    /\ Container.getitem c' (-1) = Ok 4%nat
    /\ Container.getitem c' 2 = Ok 4%nat
    /\ Container.getitem c' 0 = Ok 5%nat.
Proof.
  destruct (proj1 (setitem_then_getitem
                     (Container.mk [5; 7; 9]%nat 0) (-1) 4%nat))
    as [c' [Hs [Hg _]]].
  - vm_compute. split; [discriminate|reflexivity].
  - exists c'. split; [exact Hs|]. split; [exact Hg|].
    vm_compute in Hs. injection Hs as <-. split; reflexivity.
Defined.

(** ** Sprites and buttons *)

Lemma pop_length {A : Type} (l : list A) (i : nat) :
  (i < length l)%nat -> length (Py.pop l i) = (length l - 1)%nat.
Proof.
  intros H. unfold Py.pop.
  rewrite length_app, length_firstn, length_skipn. lia.
Qed.

Lemma pop_nth {A : Type} (l : list A) (i k : nat) :
  (i < length l)%nat ->
  nth_error (Py.pop l i) k
  = if (k <? i)%nat then nth_error l k else nth_error l (S k).
Proof.
  intros H. unfold Py.pop.
  assert (Hf : length (firstn i l) = i) by (rewrite length_firstn; lia).
  destruct (Nat.ltb_spec k i) as [Hlt|Hge].
  - rewrite nth_error_app1 by lia. rewrite nth_error_firstn.
    destruct (Nat.ltb_spec k i); [reflexivity|lia].
  - rewrite nth_error_app2 by lia. rewrite Hf, nth_error_skipn.
    f_equal. lia.
Qed.

Lemma nth_error_last {A : Type} (d : A) :
  forall (l : list A),
    l <> [] -> nth_error l (length l - 1) = Some (last l d).
Proof.
  induction l as [|x l IH]; intros H; [congruence|].
  destruct l as [|y l]; [reflexivity|].
  assert (IH' := IH ltac:(discriminate)).
  change (length (y :: l) - 1)%nat with (length l - 0)%nat in IH'.
  rewrite Nat.sub_0_r in IH'.
  change (length (x :: y :: l) - 1)%nat with (S (length l)).
  change (nth_error (x :: y :: l) (S (length l)))
    with (nth_error (y :: l) (length l)).
  change (last (x :: y :: l) d) with (last (y :: l) d).
  exact IH'.
Qed.

Lemma getitem_last {A : Type} (d : A) (l : list A) :
  l <> [] -> Py.getitem l (-1) = Ok (last l d).
Proof.
  intros H. unfold Py.getitem, Py.len. change (-1 <? 0) with true.
  cbv iota.
  assert (0 < length l)%nat by (destruct l; [congruence|simpl; lia]).
  destruct (Z.leb_spec 0 (-1 + Z.of_nat (length l))); [|lia].
  destruct (Z.ltb_spec (-1 + Z.of_nat (length l)) (Z.of_nat (length l)));
    [|lia].
  cbn [andb].
  replace (Z.to_nat (-1 + Z.of_nat (length l))) with (length l - 1)%nat
    by lia.
  rewrite (nth_error_last d l H). reflexivity.
Qed.

(** X14.  [delete_frame] on a sprite that shows the frame its
    [current_frame] names.  An index out of range changes nothing.
    Deleting the first frame while it is the one shown leaves
    [current_frame] at -1 and shows the last of the frames left, and
    raises [IndexError] when no frame is left.  In every other case the
    frame is dropped and the sprite again shows the frame its
    [current_frame] names: the same image as before unless the frame
    deleted was the one shown. *)
Theorem delete_frame_and_the_frame_shown {Surface : Type}
    (s : Sprite.t Surface) (index : Z) :
  shows_current s ->
  (Py.in_range index (Sprite.frames s) = false ->
   Sprite.delete_frame s index = Ok s)
  /\ (Py.in_range index (Sprite.frames s) = true ->
      index = 0 -> Sprite.current_frame s = 0 ->
      match Sprite.frames s with
      | [] | [_] => Sprite.delete_frame s index = Raise IndexError
      | _ :: f :: fs =>
          Sprite.delete_frame s index
          = Ok (Sprite.mk (f :: fs) (-1) (last (f :: fs) f))
      end)
  /\ (Py.in_range index (Sprite.frames s) = true ->
      ~ (index = 0 /\ Sprite.current_frame s = 0) ->
      exists s',
        Sprite.delete_frame s index = Ok s'
        /\ shows_current s'
        /\ Sprite.frames s' = Py.pop (Sprite.frames s) (Z.to_nat index)
        /\ Sprite.current_frame s'
           = (if index <=? Sprite.current_frame s
              then Sprite.current_frame s - 1 else Sprite.current_frame s)
        /\ (index <> Sprite.current_frame s ->
            Sprite.image s' = Sprite.image s)).
Proof.
  destruct s as [fs cur img]. unfold shows_current, Sprite.delete_frame.
  cbn [Sprite.frames Sprite.current_frame Sprite.image].
  intros [Hcur Himg].
  assert (Hlen : (Z.to_nat cur < length fs)%nat)
    by (apply nth_error_Some; congruence).
  split; [intros ->; reflexivity|]. split.
  - intros Hin -> ->. rewrite Hin. cbn [Z.leb Z.compare].
    destruct fs as [|f0 [|f fs]]; [simpl in Hlen; lia|reflexivity|].
    change (Py.pop (f0 :: f :: fs) (Z.to_nat 0)) with (f :: fs).
    change (0 - 1) with (-1).
    rewrite (getitem_last f (f :: fs)) by discriminate. reflexivity.
  - intros Hin Hnot. rewrite Hin.
    unfold Py.in_range, Py.len in Hin. apply andb_true_iff in Hin.
    destruct Hin as [Hi0 Hi1]. apply Z.leb_le in Hi0. apply Z.ltb_lt in Hi1.
    assert (Hil : (Z.to_nat index < length fs)%nat) by lia.
    destruct (Z.leb_spec index cur) as [Hle|Hgt].
    + assert (Hc1 : 1 <= cur) by lia.
      assert (Hget : Py.getitem (Py.pop fs (Z.to_nat index)) (cur - 1)
                     = Ok (if index =? cur
                           then nth (Z.to_nat (cur - 1)) fs img else img)).
      { unfold Py.getitem, Py.len. rewrite (pop_length fs _ Hil).
        destruct (Z.ltb_spec (cur - 1) 0); [lia|].
        destruct (Z.leb_spec 0 (cur - 1)); [|lia].
        destruct (Z.ltb_spec (cur - 1) (Z.of_nat (length fs - 1))); [|lia].
        cbn [andb]. rewrite (pop_nth fs _ _ Hil).
        destruct (Nat.ltb_spec (Z.to_nat (cur - 1)) (Z.to_nat index)).
        - destruct (Z.eqb_spec index cur); [|lia].
          rewrite (nth_error_nth' fs img) by lia. reflexivity.
        - destruct (Z.eqb_spec index cur); [lia|].
          replace (S (Z.to_nat (cur - 1))) with (Z.to_nat cur) by lia.
          rewrite Himg. reflexivity. }
      rewrite Hget. cbn [bind]. eexists. split; [reflexivity|].
      cbn [Sprite.frames Sprite.current_frame Sprite.image].
      split; [|split; [reflexivity|split; [reflexivity|]]].
      * split; [lia|]. rewrite (pop_nth fs _ _ Hil).
        destruct (Nat.ltb_spec (Z.to_nat (cur - 1)) (Z.to_nat index)).
        -- destruct (Z.eqb_spec index cur); [|lia].
           apply nth_error_nth'. lia.
        -- destruct (Z.eqb_spec index cur); [lia|].
           replace (S (Z.to_nat (cur - 1))) with (Z.to_nat cur) by lia.
           exact Himg.
      * intros Hne. destruct (Z.eqb_spec index cur); [contradiction|].
        reflexivity.
    + eexists. split; [reflexivity|].
      cbn [Sprite.frames Sprite.current_frame Sprite.image].
      split; [|split; [reflexivity|split; [reflexivity|reflexivity]]].
      split; [exact Hcur|]. rewrite (pop_nth fs _ _ Hil).
      destruct (Nat.ltb_spec (Z.to_nat cur) (Z.to_nat index)); [|lia].
      exact Himg.
Qed.

Lemma delete_frame_and_the_frame_shown_witness :
  exists s',
    Sprite.delete_frame Scenario.sprite 1 = Ok s'
    /\ shows_current s'
    /\ Sprite.current_frame s' = 0
    /\ Sprite.image s' = 10%nat.
Proof.
  destruct (delete_frame_and_the_frame_shown Scenario.sprite 1)
    as [_ [_ H]].
  - split; [discriminate|reflexivity].
  - destruct H as [s' [Hd [Hs [_ [Hc _]]]]].
    + reflexivity.
    + intros [E _]. discriminate.
    + exists s'. split; [exact Hd|]. split; [exact Hs|].
      split; [exact Hc|].
      vm_compute in Hd. injection Hd as <-. reflexivity.
Defined.

Lemma after_shows {Surface F : Type} (image selected pressed : Surface)
    (b b' : Button.t Surface F) (e : Button.event F) :
  shows_its_state image selected pressed b ->
  Button.after b e = Some b' ->
  shows_its_state image selected pressed b'.
Proof.
  destruct b as [[fr cur img] sel act pos sz fd fu].
  unfold shows_its_state.
  cbn [Button.sprite Button.is_selected Sprite.frames Sprite.current_frame
       Sprite.image].
  intros [-> Hst] H.
  destruct e as [p|k p|k p|v|dx dy|k f|k f]; cbn [Button.after] in H.
  - injection H as <-. unfold Button.mouse_move_check.
    cbn [Button.is_active Button.is_selected].
    destruct act; cbn [negb]; [|cbn; auto].
    destruct (Button.contains _ _); destruct sel; cbn; auto.
  - unfold Button.mouse_button_down_check in H.
    cbn [Button.is_active Button.is_selected] in H.
    destruct (act && sel && Button.contains _ _) eqn:E.
    + unfold Button.mouse_button_down in H.
      destruct (Button.lookup _ _); [|discriminate].
      injection H as <-. cbn.
      apply andb_true_iff in E. destruct E as [E _].
      apply andb_true_iff in E. destruct E as [_ ->]. auto.
    + injection H as <-. cbn. auto.
  - unfold Button.mouse_button_up_check in H.
    cbn [Button.is_active Button.is_selected] in H.
    destruct (act && sel && Button.contains _ _) eqn:E.
    + unfold Button.mouse_button_up in H.
      destruct (Button.lookup _ _); [|discriminate].
      injection H as <-. cbn.
      apply andb_true_iff in E. destruct E as [E _].
      apply andb_true_iff in E. destruct E as [_ ->]. auto.
    + injection H as <-. cbn. auto.
  - injection H as <-. cbn. auto.
  - injection H as <-. cbn. auto.
  - injection H as <-. cbn. auto.
  - injection H as <-. cbn. auto.
Qed.

(** X15.  Whatever reaches a button after it is made (the pointer moving,
    mouse buttons going down and up, the button shown, hidden, moved or
    given functions), and as long as none of it raises, the button keeps
    its three frames and shows its state: the first frame exactly when the
    pointer is not held to be on it, and otherwise the second or the
    third. *)
Theorem button_shows_its_state {Surface F : Type}
    (image selected pressed : Surface) (size : float * float)
    (es : list (Button.event F)) (b : Button.t Surface F) :
  Button.after_all (Button.init image selected pressed size) es = Some b ->
  shows_its_state image selected pressed b.
Proof.
  assert (G : forall es b0,
             shows_its_state image selected pressed b0 ->
             Button.after_all b0 es = Some b ->
             shows_its_state image selected pressed b).
  { clear es. induction es as [|e es IH]; intros b0 H0 H; simpl in H.
    - injection H as <-. exact H0.
    - destruct (Button.after b0 e) as [b1|] eqn:E; [|discriminate].
      eapply IH; [|exact H]. eapply after_shows; eauto. }
  apply G. split; [reflexivity|]. cbn. auto.
Qed.

Lemma button_shows_its_state_witness :
  exists b,
    Button.after_all Scenario.button
      [Button.Move 310 300; Button.Function_up 1 7%nat;
       Button.Moved (320, 310); Button.Down 1 (320, 310)]
    = Some b
    /\ Button.is_selected b = true
    /\ shows_its_state 10%nat 11%nat 12%nat b.
Proof.
  eexists. split; [vm_compute; reflexivity|]. split; [reflexivity|].
  apply (button_shows_its_state 10%nat 11%nat 12%nat (100, 40)%float
           [Button.Move 310 300; Button.Function_up 1 7%nat;
            Button.Moved (320, 310); Button.Down 1 (320, 310)]).
  vm_compute. reflexivity.
Defined.

Lemma lookup_keys {F : Type} (k : Z) :
  forall (d : Button.dict F), Button.lookup d k = None <-> ~ In k (keys d).
Proof.
  induction d as [|[k' v] d IH]; simpl.
  - tauto.
  - destruct (Z.eqb_spec k' k) as [->|Hne].
    + split; [discriminate|tauto].
    + rewrite IH. tauto.
Qed.

Lemma assign_keys {F : Type} (k k' : Z) (v : option F) :
  forall (d : Button.dict F),
    In k' (keys (Button.assign d k v)) <-> k' = k \/ In k' (keys d).
Proof.
  induction d as [|[k0 v0] d IH]; simpl.
  - intuition.
  - destruct (Z.eqb_spec k0 k) as [->|Hne]; simpl.
    + intuition.
    + rewrite IH. intuition.
Qed.

Lemma lookup_assign {F : Type} (k k' : Z) (v : option F) :
  forall (d : Button.dict F),
    Button.lookup (Button.assign d k v) k'
    = if k' =? k then Some v else Button.lookup d k'.
Proof.
  induction d as [|[k0 v0] d IH]; simpl.
  - rewrite (Z.eqb_sym k k'). destruct (k' =? k); reflexivity.
  - destruct (Z.eqb_spec k0 k) as [->|Hne]; simpl.
    + rewrite (Z.eqb_sym k k'). destruct (k' =? k); reflexivity.
    + rewrite IH.
      destruct (Z.eqb_spec k0 k'), (Z.eqb_spec k' k); try reflexivity.
      congruence.
Qed.

(** The keys of the two dictionaries after an event: those before, and the
    one the event sets a function for. *)
Lemma after_registered {Surface F : Type} (b b' : Button.t Surface F)
    (e : Button.event F) (k : Z) :
  Button.after b e = Some b' ->
  (In k (keys (Button.functions_down b'))
   <-> In k (keys (Button.functions_down b)) \/ In k (Button.set_down [e]))
  /\ (In k (keys (Button.functions_up b'))
      <-> In k (keys (Button.functions_up b)) \/ In k (Button.set_up [e])).
Proof.
  destruct e as [p|k0 p|k0 p|v|dx dy|k0 f|k0 f]; cbn [Button.after];
    intros H.
  - injection H as <-. unfold Button.mouse_move_check.
    destruct (negb _); [simpl; tauto|].
    destruct (Button.contains _ _), (Button.is_selected b); simpl; tauto.
  - unfold Button.mouse_button_down_check, Button.mouse_button_down in H.
    destruct (_ && _).
    + destruct (Button.lookup _ _); [|discriminate].
      injection H as <-. simpl. tauto.
    + injection H as <-. simpl. tauto.
  - unfold Button.mouse_button_up_check, Button.mouse_button_up in H.
    destruct (_ && _).
    + destruct (Button.lookup _ _); [|discriminate].
      injection H as <-. simpl. tauto.
    + injection H as <-. simpl. tauto.
  - injection H as <-. simpl. tauto.
  - injection H as <-. simpl. tauto.
  - injection H as <-. cbn [Button.set_function_down Button.functions_down
                              Button.functions_up Button.set_down
                              Button.set_up].
    rewrite assign_keys. simpl. intuition.
  - injection H as <-. cbn [Button.set_function_up Button.functions_down
                              Button.functions_up Button.set_down
                              Button.set_up].
    rewrite assign_keys. simpl. intuition.
Qed.

Lemma set_down_cons {F : Type} (e : Button.event F)
    (es : list (Button.event F)) :
  Button.set_down (e :: es) = Button.set_down [e] ++ Button.set_down es.
Proof. destruct e; reflexivity. Qed.

Lemma set_up_cons {F : Type} (e : Button.event F)
    (es : list (Button.event F)) :
  Button.set_up (e :: es) = Button.set_up [e] ++ Button.set_up es.
Proof. destruct e; reflexivity. Qed.

Lemma after_all_registered {Surface F : Type} (k : Z)
    (es : list (Button.event F)) :
  forall (b b' : Button.t Surface F),
    Button.after_all b es = Some b' ->
    (In k (keys (Button.functions_down b'))
     <-> In k (keys (Button.functions_down b)) \/ In k (Button.set_down es))
    /\ (In k (keys (Button.functions_up b'))
        <-> In k (keys (Button.functions_up b)) \/ In k (Button.set_up es)).
Proof.
  induction es as [|e es IH]; intros b b' H; simpl in H.
  - injection H as <-. simpl. tauto.
  - destruct (Button.after b e) as [b1|] eqn:E; [|discriminate].
    destruct (after_registered b b1 e k E) as [Hd Hu].
    destruct (IH b1 b' H) as [Hd' Hu'].
    rewrite set_down_cons, set_up_cons, !in_app_iff. tauto.
Qed.

(** X16.  A button made by [Button(...)] and set up by any events has
    entries for the left and the right mouse button and for the buttons
    it was given a function for, and for no other.  A press, and likewise
    a release, raises [KeyError] exactly when the button is shown, the
    pointer is held to be on it and is on it, and the mouse button is
    none of those; so the middle button or the wheel on a button of the
    menu raises. *)
Theorem press_of_an_unset_mouse_button_raises {Surface F : Type}
    (image selected pressed : Surface) (size : float * float)
    (es : list (Button.event F)) (b : Button.t Surface F)
    (k : Z) (p : Z * Z) :
  Button.after_all (Button.init image selected pressed size) es = Some b ->
  (Button.after b (Button.Down k p) = None
   <-> Button.is_active b && Button.is_selected b && Button.contains b p
       = true
       /\ ~ In k (Button.BUTTON_LEFT :: Button.BUTTON_RIGHT
                  :: Button.set_down es))
  /\ (Button.after b (Button.Up k p) = None
      <-> Button.is_active b && Button.is_selected b && Button.contains b p
          = true
          /\ ~ In k (Button.BUTTON_LEFT :: Button.BUTTON_RIGHT
                     :: Button.set_up es)).
Proof.
  intros H. destruct (after_all_registered k es _ _ H) as [Hd Hu].
  cbn [Button.init Button.functions_down Button.functions_up keys map fst]
    in Hd, Hu.
  cbn [Button.after]. unfold Button.mouse_button_down_check,
    Button.mouse_button_up_check, Button.mouse_button_down,
    Button.mouse_button_up.
  cbn [Button.with_sprite Button.functions_down Button.functions_up].
  split.
  - destruct (_ && _).
    + destruct (Button.lookup (Button.functions_down b) k) eqn:L.
      * split; [discriminate|]. intros [_ Hk].
        assert (Button.lookup (Button.functions_down b) k = None);
          [|congruence].
        apply lookup_keys. rewrite Hd. simpl in *. tauto.
      * apply lookup_keys in L. rewrite Hd in L.
        split; [|reflexivity]. intros _. split; [reflexivity|].
        simpl in *. tauto.
    + split; [discriminate|]. intros [E _]. discriminate.
  - destruct (_ && _).
    + destruct (Button.lookup (Button.functions_up b) k) eqn:L.
      * split; [discriminate|]. intros [_ Hk].
        assert (Button.lookup (Button.functions_up b) k = None);
          [|congruence].
        apply lookup_keys. rewrite Hu. simpl in *. tauto.
      * apply lookup_keys in L. rewrite Hu in L.
        split; [|reflexivity]. intros _. split; [reflexivity|].
        simpl in *. tauto.
    + split; [discriminate|]. intros [E _]. discriminate.
Qed.

Lemma press_of_an_unset_mouse_button_raises_witness :
  exists b,
    Button.after_all Scenario.button
      [Button.Move 310 300; Button.Function_up 1 7%nat;
       Button.Moved (320, 310)]
    = Some b
    /\ Button.after b (Button.Down 2 (320, 310)) = None
    /\ Button.after b (Button.Down 1 (320, 310)) <> None.
Proof.
  eexists. split; [vm_compute; reflexivity|].
  split; [|vm_compute; discriminate].
  apply (proj1 (press_of_an_unset_mouse_button_raises
                  10%nat 11%nat 12%nat (100, 40)%float
                  [Button.Move 310 300; Button.Function_up 1 7%nat;
                   Button.Moved (320, 310)] _ 2 (320, 310)
                  ltac:(vm_compute; reflexivity))).
  split; [vm_compute; reflexivity|].
  simpl. intros [E|[E|[]]]; discriminate.
Defined.

(** X17.  The function set for a mouse button is the one a release of
    that button calls, when the button is shown, the pointer is held to be
    on it and is on it; what is set for the other mouse buttons, and for
    the presses, is left as it was.  Before any function is set, the left
    and the right button call nothing. *)
Theorem the_function_set_is_the_one_called {Surface F : Type}
    (b : Button.t Surface F) (k : Z) (f : F) (p : Z * Z) :
  Button.is_active b && Button.is_selected b && Button.contains b p = true ->
  (exists b',
      Button.mouse_button_up_check (Button.set_function_up b k f) k p
      = Button.Returned b' (Some f))
  /\ (forall k', k' <> k ->
                 Button.lookup
                   (Button.functions_up (Button.set_function_up b k f)) k'
                 = Button.lookup (Button.functions_up b) k')
  /\ Button.functions_down (Button.set_function_up b k f)
     = Button.functions_down b
  /\ forall (image selected pressed : Surface) (size : float * float),
       Button.lookup
         (Button.functions_up (Button.init image selected pressed size))
         Button.BUTTON_LEFT = Some (@None F)
       /\ Button.lookup
            (Button.functions_up (Button.init image selected pressed size))
            Button.BUTTON_RIGHT = Some (@None F).
Proof.
  intros H. split; [|split; [|split]].
  - unfold Button.mouse_button_up_check, Button.mouse_button_up.
    change (Button.is_active (Button.set_function_up b k f))
      with (Button.is_active b).
    change (Button.is_selected (Button.set_function_up b k f))
      with (Button.is_selected b).
    change (Button.contains (Button.set_function_up b k f) p)
      with (Button.contains b p).
    rewrite H.
    cbn [Button.with_sprite Button.functions_up Button.set_function_up].
    rewrite lookup_assign, Z.eqb_refl. eexists. reflexivity.
  - intros k' Hk. cbn [Button.functions_up Button.set_function_up].
    rewrite lookup_assign. destruct (Z.eqb_spec k' k); [contradiction|].
    reflexivity.
  - reflexivity.
  - intros. split; reflexivity.
Qed.

Lemma the_function_set_is_the_one_called_witness :
  exists b b',
    Button.after_all Scenario.button
      [Button.Move 310 300; Button.Moved (320, 310)] = Some b
    /\ Button.mouse_button_up_check (Button.set_function_up b 1 7%nat) 1
         (320, 310)
       = Button.Returned b' (Some 7%nat).
Proof.
  eexists.
  destruct (the_function_set_is_the_one_called
              (Surface := nat) (F := nat)
              (Button.mouse_move_check
                 (Button.move Scenario.button 310 300) (320, 310))
              1 7%nat (320, 310)) as [[b' Hb] _].
  - vm_compute. reflexivity.
  - exists b'. split; [reflexivity|exact Hb].
Defined.

(** ** The ball among the bricks *)

Lemma skipn_cons_nth {A : Type} :
  forall (k : nat) (l : list A) (x : A),
    nth_error l k = Some x -> skipn k l = x :: skipn (S k) l.
Proof.
  induction k as [|k IH]; intros [|y l] x H; simpl in *; try discriminate.
  - congruence.
  - apply IH. exact H.
Qed.

Lemma remove_length (x : ref) (l l' : list ref) :
  Py.remove x l = Ok l' -> length l = S (length l').
Proof.
  intros H. apply remove_perm in H. apply Permutation_length in H.
  simpl in H. lia.
Qed.

(** The loop started at index [n]: it takes the first brick after index
    [n] that the ball touches, and never finds the container empty. *)
Lemma strike_from (intersects : ref -> bool) (l : list ref) :
  forall (fuel n : nat),
    (length l <= n + fuel)%nat ->
    exists hit cs,
      Level1.strike intersects (S fuel) (Container.mk l (Z.of_nat n))
      = Ok (hit, cs, false)
      /\ hit = find intersects (skipn (S n) l)
      /\ match hit with
         | None => Container.game_objects cs = l
         | Some b => Py.remove b l = Ok (Container.game_objects cs)
         end.
Proof.
  induction fuel as [|fuel IH]; intros n Hlen.
  - cbn [Level1.strike]. unfold Container.next.
    cbn [Container.game_objects Container.index]. unfold Py.len.
    destruct (Z.ltb_spec (Z.of_nat n + 1) (Z.of_nat (length l))); [lia|].
    rewrite skipn_all2 by lia. eexists. eexists.
    split; [reflexivity|]. split; reflexivity.
  - remember (S fuel) as f eqn:Hf.
    cbn [Level1.strike]. unfold Container.next.
    cbn [Container.game_objects Container.index]. unfold Py.len.
    destruct (Z.ltb_spec (Z.of_nat n + 1) (Z.of_nat (length l))) as [Hlt|Hge].
    + destruct (nth_error l (S n)) as [x|] eqn:Hx.
      2:{ apply nth_error_None in Hx. lia. }
      replace (Z.of_nat n + 1) with (Z.of_nat (S n)) by lia.
      rewrite (getitem_nth _ _ _ Hx). cbn [bind].
      rewrite (skipn_cons_nth _ _ _ Hx). cbn [find].
      destruct (intersects x) eqn:Hi.
      * destruct (remove_present x l) as [l' Hr].
        { eapply nth_error_In; eauto. }
        unfold Container.remove_object.
        cbn [Container.game_objects Container.index].
        rewrite Hr. cbn [bind]. unfold Container.len, Py.len.
        cbn [Container.game_objects].
        pose proof (remove_length _ _ _ Hr) as Hl.
        destruct (Z.eqb_spec (Z.of_nat (length l')) 0) as [E|_];
          [unfold ref in *; lia|].
        eexists. eexists. split; [reflexivity|].
        split; [reflexivity|exact Hr].
      * subst f. apply IH. lia.
    + rewrite skipn_all2 by lia. eexists. eexists.
      split; [reflexivity|]. split; reflexivity.
Qed.

(** X20.  The loop of [Ball.update] over the bricks never calls [win()]:
    it always ends, having removed the first brick, after the one at
    index 0, that the ball touches, or none when it touches none of
    those; the brick at index 0 is never tested, so that a container
    without repeats keeps its first brick and at least one brick is
    always left. *)
Theorem hitting_bricks_never_wins (intersects : ref -> bool)
    (bricks : Container.t ref) :
  exists hit left_over,
    Level1.hit_bricks intersects bricks = Ok (hit, left_over, false)
    /\ hit = find intersects (tl (Container.game_objects bricks))
    /\ match hit with
       | None =>
           Container.game_objects left_over = Container.game_objects bricks
       | Some b =>
           Py.remove b (Container.game_objects bricks)
           = Ok (Container.game_objects left_over)
           /\ (1 <= length (Container.game_objects left_over))%nat
       end
    /\ (NoDup (Container.game_objects bricks) ->
        hd_error (Container.game_objects left_over)
        = hd_error (Container.game_objects bricks)).
Proof.
  destruct bricks as [l ix]. unfold Level1.hit_bricks, Container.iter.
  cbn [Container.game_objects].
  destruct (strike_from intersects l (length l) 0)
    as [hit [cs [Hs [Hh Hm]]]]; [lia|].
  change (Z.of_nat 0) with 0 in Hs.
  exists hit, cs. split; [exact Hs|].
  assert (Htl : skipn 1 l = tl l) by (destruct l; reflexivity).
  rewrite Htl in Hh. split; [exact Hh|].
  destruct hit as [b|].
  - assert (Hin : In b (tl l)).
    { symmetry in Hh. apply find_some in Hh. tauto. }
    pose proof (remove_length _ _ _ Hm) as Hl.
    split; [split; [exact Hm|]|].
    + clear Hs Hm Hh.
      destruct l as [|x [|y l]]; cbn [tl length] in *;
        [destruct Hin|destruct Hin|lia].
    + intros Hnd. destruct l as [|x l]; [destruct Hin|].
      cbn [tl] in Hin. inversion Hnd as [|? ? Hx _]; subst.
      cbn [Py.remove] in Hm.
      destruct (Nat.eqb_spec x b) as [->|Hne]; [contradiction|].
      bind_inv Hm. injection Hm as Hm. rewrite <- Hm. reflexivity.
  - split; [exact Hm|]. intros _. rewrite Hm. reflexivity.
Qed.

(** ** The masses over a frame *)

Lemma absorb_masses (w w' : world) (cell : ref) :
  distinct_cells w ->
  (forall r, In r (Container.game_objects (cells w)) -> 0 <= mass_key w r) ->
  Player.absorb w cell = Ok w' ->
  (forall r, mass_key w r <= mass_key w' r)
  /\ incl (Container.game_objects (cells w'))
          (Container.game_objects (cells w))
  /\ total_mass w' <= total_mass w.
Proof.
  intros Hnd Hpos H. unfold total_mass.
  destruct (absorb_effect w w' cell Hnd H)
    as [[[Hl Hm] _]|[prey [[Hmet _] [_ [Hmc [Hmo [Hg Hp]]]]]]].
  - split; [intros r; rewrite Hm; lia|].
    split; [rewrite Hl; apply incl_refl|].
    rewrite Hl, (sum_ext (mass_key w) (mass_key w')); [lia|].
    intros r _. apply Hm.
  - assert (Hprey : 0 <= mass_key w prey).
    { apply Hpos. destruct (Container.game_objects (cells w));
        [destruct Hmet|right; exact Hmet]. }
    split; [|split].
    + intros r. destruct (Nat.eq_dec r cell) as [->|Hne].
      * rewrite Hmc. lia.
      * rewrite (Hmo r Hne). lia.
    + intros r Hr. apply (Permutation_in _ Hp). right. exact Hr.
    + rewrite <- (sum_perm (mass_key w) _ _ Hp). simpl.
      assert (Hnd' : NoDup (prey :: Container.game_objects (cells w')))
        by (eapply Permutation_NoDup; [symmetry; exact Hp|exact Hnd]).
      inversion Hnd' as [|? ? _ Hnd'']; subst.
      destruct (in_dec Nat.eq_dec cell (Container.game_objects (cells w')))
        as [Hin|Hout].
      * rewrite (sum_bump (mass_key w) (mass_key w') cell (mass_key w prey)
                   _ Hnd'' Hin Hmc Hmo).
        lia.
      * rewrite (sum_ext (mass_key w) (mass_key w')); [lia|].
        intros r Hr. apply Hmo. intros ->. contradiction.
Qed.

(** X21.  Mass is never made and never taken from a cell: over a frame
    that starts with no cell held twice by the container [cells] and none
    of its cells of negative mass, no cell's mass goes down, and the sum
    of the masses over the container does not go up. *)
Theorem frame_makes_no_mass
    (w w' : world) (mouse : Z * Z) (elapsed : float) :
  distinct_cells w ->
  (forall r, In r (Container.game_objects (cells w)) -> 0 <= mass_key w r) ->
  Level3.frame w mouse elapsed = Ok w' ->
  (forall r, mass_key w r <= mass_key w' r)
  /\ total_mass w' <= total_mass w.
Proof.
  intros Hnd Hpos H.
  assert (HP : distinct_cells w'
               /\ incl (Container.game_objects (cells w'))
                       (Container.game_objects (cells w))
               /\ (forall r, mass_key w r <= mass_key w' r)
               /\ total_mass w' <= total_mass w).
  { refine (frame_invariant
              (fun v => distinct_cells v
                        /\ incl (Container.game_objects (cells v))
                                (Container.game_objects (cells w))
                        /\ (forall r, mass_key w r <= mass_key v r)
                        /\ total_mass v <= total_mass w)
              _ _ w w' mouse elapsed H _).
    - intros w1 w2 [Hl Hm] [Hd [Hi [Hmono Ht]]].
      unfold distinct_cells, total_mass.
      rewrite Hl. split; [exact Hd|]. split; [exact Hi|].
      split; [intros r; rewrite Hm; apply Hmono|].
      rewrite (sum_ext (mass_key w1) (mass_key w2)); [exact Ht|].
      intros r _. apply Hm.
    - intros w1 w2 cell Ha [Hd [Hi [Hmono Ht]]].
      destruct (absorb_masses w1 w2 cell Hd) as [Hup [Hsub Hdown]];
        [|exact Ha|].
      { intros r Hr. specialize (Hmono r).
        specialize (Hpos r (Hi r Hr)). lia. }
      split; [eapply absorb_distinct; eauto|].
      split; [intros r Hr; apply Hi, Hsub, Hr|].
      split; [intros r; specialize (Hmono r); specialize (Hup r); lia|lia].
    - split; [exact Hnd|]. split; [apply incl_refl|].
      split; [intros r; lia|lia]. }
  tauto.
Qed.

Lemma frame_makes_no_mass_witness :
  total_mass (Scenario.world_of Scenario.first_frame')
  <= total_mass (Scenario.world_of Scenario.game_start').
Proof.
  apply (frame_makes_no_mass
           (Scenario.world_of Scenario.game_start')
           (Scenario.world_of Scenario.first_frame')
           Scenario.mouse_mid Scenario.dt0).
  - apply distinct_NoDup. vm_compute. reflexivity.
  - intros r Hr.
    assert (F : forallb
                  (fun r => 0 <=? mass_key
                                    (Scenario.world_of Scenario.game_start')
                                    r)
                  (Container.game_objects
                     (cells (Scenario.world_of Scenario.game_start')))
                = true) by (vm_compute; reflexivity).
    apply Z.leb_le. exact (proj1 (forallb_forall _ _) F r Hr).
  - vm_compute. reflexivity.
Defined.

(** ** The fields derived from the mass *)

Lemma only_positions_refl (w : world) : only_positions w w.
Proof. split; [reflexivity|]. intros r. destruct (heap w r). reflexivity. Qed.

Lemma only_positions_trans (w1 w2 w3 : world) :
  only_positions w1 w2 -> only_positions w2 w3 -> only_positions w1 w3.
Proof.
  intros [Hl1 H1] [Hl2 H2]. split; [congruence|]. intros r.
  rewrite <- (H1 r), <- (H2 r). destruct (heap w3 r). reflexivity.
Qed.

Lemma same_heap_only (w w' : world) :
  Container.game_objects (cells w') = Container.game_objects (cells w) ->
  heap w' = heap w -> only_positions w w'.
Proof.
  intros Hl Hh. split; [exact Hl|]. intros r. rewrite Hh.
  destruct (heap w r). reflexivity.
Qed.

Lemma write_position_only (w : world) (self : ref) (p : Vector2.t) :
  only_positions w (write_cell w self (set_position (heap w self) p)).
Proof.
  split; [reflexivity|]. intros r. unfold write_cell, store.
  cbn [heap set_heap].
  destruct (Nat.eqb_spec r self) as [->|]; destruct (heap w _); reflexivity.
Qed.

Lemma move_cell_only (w w' : world) (self : ref) (d : Vector2.t) :
  Cell.move_cell w self d = Ok w' -> only_positions w w'.
Proof.
  unfold Cell.move_cell. destruct (Vector2.eqb _ _).
  - intros [= <-]. apply only_positions_refl.
  - intros H. bind_inv H. injection H as <-. apply write_position_only.
Qed.

Lemma cell_update_only (w w' : world) (self : ref) :
  Cell.update w self = Ok w' -> only_positions w w'.
Proof.
  unfold Cell.update. intros H. bind_inv H. injection H as <-.
  eapply only_positions_trans; [eapply move_cell_only; eauto|].
  apply write_position_only.
Qed.

Lemma update_cells_only (l : list ref) :
  forall (w w' : world),
    Entity.update_cells w l = Ok w' -> only_positions w w'.
Proof.
  induction l as [|c l IH]; simpl; intros w w' H.
  - injection H as <-. apply only_positions_refl.
  - bind_inv H.
    eapply only_positions_trans; [eapply cell_update_only|]; eauto.
Qed.

Lemma push_pair_only (w w' : world) (c1 c2 : ref) :
  Entity.push_pair w c1 c2 = Ok w' -> only_positions w w'.
Proof.
  unfold Entity.push_pair.
  destruct (negb _); [intros [= <-]; apply only_positions_refl|].
  destruct (_ || _); [intros [= <-]; apply only_positions_refl|].
  intros H. do 3 bind_inv H.
  eapply only_positions_trans; eapply move_cell_only; eauto.
Qed.

Lemma push_row_only (c1 : ref) (l : list ref) :
  forall (w w' : world),
    Entity.push_row w c1 l = Ok w' -> only_positions w w'.
Proof.
  induction l as [|c l IH]; simpl; intros w w' H.
  - injection H as <-. apply only_positions_refl.
  - bind_inv H.
    eapply only_positions_trans; [eapply push_pair_only|]; eauto.
Qed.

Lemma push_rows_only (l : list ref) :
  forall (w w' : world),
    Entity.push_rows w l = Ok w' -> only_positions w w'.
Proof.
  induction l as [|c l IH]; simpl; intros w w' H.
  - injection H as <-. apply only_positions_refl.
  - bind_inv H.
    eapply only_positions_trans; [eapply push_row_only|]; eauto.
Qed.

Lemma push_away_only (w w' : world) (self : ref) :
  Entity.push_away w self = Ok w' -> only_positions w w'.
Proof.
  unfold Entity.push_away. destruct (_ =? _).
  - intros [= <-]. apply only_positions_refl.
  - apply push_rows_only.
Qed.

Lemma enemy_update_only (w w' : world) (self : ref) :
  Enemy.update w self = Ok w' -> only_positions w w'.
Proof.
  intros H. pose proof (enemy_update_same _ _ _ H) as [Hl _].
  unfold Enemy.update, Entity.update in H. bind_inv H.
  apply steer_all_effect in H. destruct H as [Hh _].
  pose proof (update_cells_only _ _ _ Ha) as [Hl' Hp].
  split; [exact Hl|]. intros r. rewrite Hh. apply Hp.
Qed.

(** [change_mass] leaves the cell with the fields of its new mass, and
    the other cells as they were. *)
Lemma change_mass_derived (w w' : world) (self : ref) (change : Z) :
  Cell.change_mass w self change = Ok w' ->
  derived_from_mass (heap w' self)
  /\ forall r, r <> self -> heap w' r = heap w r.
Proof.
  unfold Cell.change_mass, Cell.update_values. intros H.
  do 3 bind_inv H. injection H as <-.
  unfold derived_from_mass, write_cell, store in *.
  cbn [heap set_heap set_cells mass radius sqr_radius point_count speed] in *.
  rewrite Nat.eqb_refl in *.
  cbn [mass radius sqr_radius point_count speed] in *.
  split; [auto|].
  intros r Hr. apply Nat.eqb_neq in Hr. rewrite Hr. reflexivity.
Qed.

(** A property of the population that the steps changing positions only
    preserve, and that one absorption preserves, is preserved by a whole
    frame. *)
Section FrameInvariantOfTheFields.

Variable P : world -> Prop.
Hypothesis P_moved : forall w w', only_positions w w' -> P w -> P w'.
Hypothesis P_absorb :
  forall w w' cell, Player.absorb w cell = Ok w' -> P w -> P w'.

Lemma absorb_all_fields (l : list ref) :
  forall (w w' : world), Player.absorb_all w l = Ok w' -> P w -> P w'.
Proof.
  induction l as [|c l IH]; simpl; intros w w' H Hs.
  - injection H as <-. exact Hs.
  - bind_inv H. eapply IH; eauto.
Qed.

Lemma player_update_fields (w w' : world) (self : ref) (mouse : Z * Z) :
  Player.update w self mouse = Ok w' -> P w -> P w'.
Proof.
  unfold Player.update, Player.before_push, Entity.update. intros H Hs.
  bind_inv H. do 2 bind_inv Ha. injection Ha as <-.
  eapply P_moved; [eapply push_away_only; eauto|].
  eapply P_moved with (w := a1);
    [apply same_heap_only; reflexivity|].
  eapply absorb_all_fields; eauto.
  eapply P_moved; [|eapply P_moved; [eapply update_cells_only; eauto|exact Hs]].
  apply same_heap_only; reflexivity.
Qed.

Lemma update_entities_fields (mouse : Z * Z) (l : list ref) :
  forall (w w' : world),
    Level3.update_entities w mouse l = Ok w' -> P w -> P w'.
Proof.
  induction l as [|e l IH]; simpl; intros w w' H Hs.
  - injection H as <-. exact Hs.
  - bind_inv H. eapply IH; eauto.
    destruct (class_of _).
    + eapply player_update_fields; eauto.
    + eapply P_moved; [eapply enemy_update_only; eauto|exact Hs].
Qed.

Lemma frame_fields (w w' : world) (mouse : Z * Z) (elapsed : float) :
  Level3.frame w mouse elapsed = Ok w' -> P w -> P w'.
Proof.
  unfold Level3.frame, Level3.hierarchy_update. intros H Hs.
  bind_inv H. injection H as <-. bind_inv Ha.
  eapply P_moved with (w := a); [apply same_heap_only; reflexivity|].
  eapply P_moved; [eapply update_cells_only; eauto|].
  eapply update_entities_fields; eauto.
Qed.

End FrameInvariantOfTheFields.

Lemma only_positions_derived (w w' : world) (r : ref) :
  only_positions w w' ->
  derived_from_mass (heap w r) -> derived_from_mass (heap w' r).
Proof.
  intros [_ H] Hd. rewrite <- (H r) in Hd.
  destruct (heap w' r). exact Hd.
Qed.

Lemma absorb_derived (w w' : world) (cell : ref) :
  Player.absorb w cell = Ok w' ->
  (forall r, In r (Container.game_objects (cells w)) ->
             derived_from_mass (heap w r)) ->
  forall r, In r (Container.game_objects (cells w')) ->
            derived_from_mass (heap w' r).
Proof.
  unfold Player.absorb. intros H Hd. bind_inv H. destruct a as [preys cs].
  pose proof (candidates_objects _ _ _ _ Ha) as Hcs.
  destruct (0 <? Py.len preys).
  2:{ injection H as <-. cbn [cells heap set_cells]. rewrite Hcs. exact Hd. }
  bind_inv H.
  destruct (PrimFloat.leb _ _).
  2:{ injection H as <-. cbn [cells heap set_cells]. rewrite Hcs. exact Hd. }
  do 2 bind_inv H. injection H as <-.
  cbn [cells heap set_cells]. intros r Hr.
  unfold Container.remove_object in Ha2. bind_inv Ha2.
  injection Ha2 as <-. cbn [Container.game_objects] in Hr.
  apply (remove_In _ _ _ _ Ha3) in Hr.
  destruct (change_mass_masses _ _ _ _ Ha1) as [_ [_ Hp]].
  apply (Permutation_in _ Hp) in Hr. cbn [cells set_cells] in Hr.
  rewrite Hcs in Hr.
  destruct (change_mass_derived _ _ _ _ Ha1) as [Hself Hothers].
  destruct (Nat.eq_dec r cell) as [->|Hne]; [exact Hself|].
  rewrite (Hothers r Hne). cbn [heap set_cells]. apply Hd. exact Hr.
Qed.

Lemma frame_derived (w w' : world) (mouse : Z * Z) (elapsed : float) :
  Level3.frame w mouse elapsed = Ok w' ->
  (forall r, In r (Container.game_objects (cells w)) ->
             derived_from_mass (heap w r)) ->
  forall r, In r (Container.game_objects (cells w')) ->
            derived_from_mass (heap w' r).
Proof.
  apply (frame_fields
           (fun v => forall r, In r (Container.game_objects (cells v)) ->
                               derived_from_mass (heap v r))).
  - intros w1 w2 Hm Hd r Hr. apply (only_positions_derived w1 w2 r Hm).
    apply Hd. destruct Hm as [Hl _]. rewrite <- Hl. exact Hr.
  - intros w1 w2 cell. apply absorb_derived.
Qed.

Lemma cell_init_derived (w w' : world) (e self : ref) (p : Vector2.t)
    (m : Z) :
  Cell.init w e p m = Ok (w', self) ->
  allocated_cells w
  /\ (forall r, In r (Container.game_objects (cells w)) ->
                derived_from_mass (heap w r)) ->
  allocated_cells w'
  /\ (forall r, In r (Container.game_objects (cells w')) ->
                derived_from_mass (heap w' r)).
Proof.
  unfold Cell.init. intros H [Hal Hd]. do 3 bind_inv H.
  injection H as <- <-. unfold allocated_cells, write_cell, store.
  cbn [cells heap set_heap next_cell Container.add_object
       Container.game_objects].
  split.
  - intros r Hr. apply in_app_or in Hr.
    destruct Hr as [Hr|[<-|[]]]; [apply Hal in Hr|]; lia.
  - intros r Hr. apply in_app_or in Hr. destruct Hr as [Hr|[<-|[]]].
    + pose proof (Hal r Hr) as Hlt.
      destruct (Nat.eqb_spec r (next_cell w)); [lia|]. apply Hd. exact Hr.
    + rewrite Nat.eqb_refl. unfold derived_from_mass.
      cbn [mass radius sqr_radius point_count speed]. auto.
Qed.

Lemma entity_init_derived (w w' : world) (k : entity_class) (e : ref)
    (p : Vector2.t) (m : Z) :
  Entity.init w k p m = Ok (w', e) ->
  allocated_cells w
  /\ (forall r, In r (Container.game_objects (cells w)) ->
                derived_from_mass (heap w r)) ->
  allocated_cells w'
  /\ (forall r, In r (Container.game_objects (cells w')) ->
                derived_from_mass (heap w' r)).
Proof.
  unfold Entity.init. intros H J. bind_inv H. destruct a as [w1 c0].
  bind_inv H. destruct a as [w2 c1]. injection H as <- <-.
  apply (cell_init_derived _ _ _ _ _ _ Ha) in J.
  apply (cell_init_derived _ _ _ _ _ _ Ha0) in J. exact J.
Qed.

Lemma add_entity_derived (r : result world) (k : entity_class)
    (p : Vector2.t) (m : Z) (w' : world) :
  Level3.add_entity r k p m = Ok w' ->
  exists w,
    r = Ok w
    /\ (allocated_cells w
        /\ (forall c, In c (Container.game_objects (cells w)) ->
                      derived_from_mass (heap w c)) ->
        allocated_cells w'
        /\ (forall c, In c (Container.game_objects (cells w')) ->
                      derived_from_mass (heap w' c))).
Proof.
  unfold Level3.add_entity. intros H. bind_inv H. rename a into w.
  bind_inv H. destruct a as [w1 e]. injection H as <-.
  exists w. split; [exact Ha|]. intros J.
  apply (entity_init_derived _ _ _ _ _ _ Ha0) in J. exact J.
Qed.

Lemma add_enemies_derived (ps : list (Z * Z)) :
  forall (r : result world) (w' : world),
    fold_left
      (fun r p =>
         Level3.add_entity r Enemy_class
           (Vector2.mk (Flt.of_Z (fst p)) (Flt.of_Z (snd p))) 512)
      ps r = Ok w' ->
    exists w,
      r = Ok w
      /\ (allocated_cells w
          /\ (forall c, In c (Container.game_objects (cells w)) ->
                        derived_from_mass (heap w c)) ->
          allocated_cells w'
          /\ (forall c, In c (Container.game_objects (cells w')) ->
                        derived_from_mass (heap w' c))).
Proof.
  induction ps as [|p ps IH]; simpl; intros r w' H.
  - exists w'. auto.
  - apply IH in H. destruct H as [w1 [H1 Hf1]].
    apply add_entity_derived in H1. destruct H1 as [w [Hr Hf]].
    exists w. auto.
Qed.

Lemma setup_derived (dt : float) (ps : list (Z * Z)) (w : world) :
  Level3.setup dt ps = Ok w ->
  forall r, In r (Container.game_objects (cells w)) ->
            derived_from_mass (heap w r).
Proof.
  unfold Level3.setup. intros H. bind_inv H. injection H as <-.
  apply add_enemies_derived in Ha. destruct Ha as [w1 [H1 Hf1]].
  apply add_entity_derived in H1. destruct H1 as [w0 [[= <-] Hf0]].
  destruct Hf1 as [_ Hd].
  { apply Hf0. split; intros r []. }
  unfold Level3.start_new_game.
  cbn [cells heap set_cells Container.sort Container.game_objects].
  intros r Hr. apply Hd.
  apply (Permutation_in _ (sorted_perm (mass_key a) _)). exact Hr.
Qed.

(** X22.  In every state the simulation reaches, each cell of the
    container [cells] has the fields of its mass: its radius is
    [get_radius] of the mass, [sqr_radius] its square, its speed
    [1024.0 / mass ** 0.5], and its point count [get_point_count] of the
    mass (not of the radius). *)
Theorem fields_follow_the_mass (w : world) (r : ref) :
  Level3.reachable w ->
  In r (Container.game_objects (cells w)) ->
  derived_from_mass (heap w r).
Proof.
  intros H. revert r.
  induction H as [dt ps w H|w mouse elapsed w' _ IH H].
  - eapply setup_derived; eauto.
  - eapply frame_derived; eauto.
Qed.

Lemma fields_follow_the_mass_witness :
  mass (heap (Scenario.world_of Scenario.first_frame') Scenario.p0) = 4608
  /\ derived_from_mass
       (heap (Scenario.world_of Scenario.first_frame') Scenario.p0).
Proof.
  split; [vm_compute; reflexivity|].
  apply fields_follow_the_mass.
  - apply (Level3.reach_frame (Scenario.world_of Scenario.game_start')
             Scenario.mouse_mid Scenario.dt0).
    + apply (Level3.reach_setup Scenario.dt0 Scenario.near_second).
      vm_compute. reflexivity.
    + vm_compute. reflexivity.
  - apply mem_In. vm_compute. reflexivity.
Defined.

(** ** Bullets that leave while the container is updated *)

Lemma reached_In (leaving : ref -> bool) :
  forall (n : nat) (l : list ref) (r : ref),
    (length l <= n)%nat -> In r (reached leaving l) -> In r l.
Proof.
  induction n as [|n IH]; intros [|a rest] r Hlen H; simpl in *;
    try tauto; try lia.
  destruct H as [->|H]; [auto|]. right.
  destruct (leaving a).
  - destruct rest as [|b rest']; [destruct H|].
    right. apply IH; [simpl in Hlen; lia|exact H].
  - apply IH; [lia|exact H].
Qed.

Lemma not_reached (leaving : ref -> bool) (l : list ref) (r : ref) :
  ~ In r l -> existsb (Nat.eqb r) (reached leaving l) = false.
Proof.
  intros H. destruct (existsb _ _) eqn:E; [|reflexivity].
  exfalso. apply H. apply mem_In in E.
  eapply reached_In; [|exact E]. apply Nat.le_refl.
Qed.

Lemma reached_ext (f g : ref -> bool) :
  forall (n : nat) (l : list ref),
    (length l <= n)%nat -> (forall r, In r l -> f r = g r) ->
    reached f l = reached g l.
Proof.
  induction n as [|n IH]; intros [|a rest] Hlen H; simpl in *;
    try reflexivity; try lia.
  rewrite (H a) by tauto. f_equal.
  destruct (g a).
  - destruct rest as [|b rest']; [reflexivity|].
    apply IH; [simpl in Hlen; lia|]. intros r Hr. apply H. simpl. tauto.
  - apply IH; [lia|]. intros r Hr. apply H. tauto.
Qed.

(** The loop arrived at index [length kept], the bullets before that
    index being [kept] and the others [rest], none of them updated yet. *)
Lemma update_from_reaches (dt h : float) :
  forall (n : nat) (rest kept : list ref) (s : Level2.state),
    (length rest <= n)%nat ->
    NoDup (kept ++ rest) ->
    Container.game_objects (Level2.bullets s) = kept ++ rest ->
    exists s',
      Level2.update_from dt h (S n) s (length kept) = Ok s'
      /\ Container.game_objects (Level2.bullets s')
         = kept
           ++ filter (fun r =>
                        negb (existsb (Nat.eqb r)
                                (reached (leaves dt h s) rest)
                              && leaves dt h s r))
                rest
      /\ forall r,
           Level2.ordinate s' r
           = if existsb (Nat.eqb r) (reached (leaves dt h s) rest)
             then risen dt s r else Level2.ordinate s r.
Proof.
  induction n as [|n IH]; intros rest kept s Hlen Hnd Hl.
  - destruct rest as [|a rest]; [|simpl in Hlen; lia].
    cbn [Level2.update_from]. rewrite Hl, app_nil_r.
    rewrite (proj2 (nth_error_None kept (length kept))) by lia.
    exists s. split; [reflexivity|].
    split; [rewrite Hl; reflexivity|]. intros r. reflexivity.
  - destruct rest as [|a rest].
    { cbn [Level2.update_from]. rewrite Hl, app_nil_r.
      rewrite (proj2 (nth_error_None kept (length kept))) by lia.
      exists s. split; [reflexivity|].
      split; [rewrite Hl; reflexivity|]. intros r. reflexivity. }
    remember (S n) as f eqn:Hf. cbn [Level2.update_from]. rewrite Hl.
    rewrite nth_error_app2 by lia. rewrite Nat.sub_diag. cbn [nth_error].
    assert (Ha : ~ In a kept /\ ~ In a rest).
    { apply NoDup_remove_2 in Hnd. rewrite in_app_iff in Hnd. tauto. }
    destruct Ha as [Hak Har].
    unfold Level2.bullet_update. cbv zeta.
    cbn [Level2.bullets Level2.ordinate].
    change (Level2.ordinate s a + -256 * dt)%float with (risen dt s a).
    change (risen dt s a + h <=? 0)%float with (leaves dt h s a).
    set (o1 := store (Level2.ordinate s) a (risen dt s a)).
    assert (Ho1 : forall r, r <> a -> o1 r = Level2.ordinate s r).
    { intros r Hr. unfold o1, store. apply Nat.eqb_neq in Hr.
      rewrite Hr. reflexivity. }
    assert (Ho1a : o1 a = risen dt s a).
    { unfold o1, store. rewrite Nat.eqb_refl. reflexivity. }
    cbn [reached existsb filter]. rewrite Nat.eqb_refl.
    destruct (leaves dt h s a) eqn:Hleave.
    + rewrite (remove_object_split a _ kept rest Hl Hak). cbn [bind].
      destruct rest as [|b rest'].
      * subst f. cbn [Level2.update_from Level2.bullets
                      Container.game_objects].
        rewrite app_nil_r.
        rewrite (proj2 (nth_error_None kept (S (length kept)))) by lia.
        eexists. split; [reflexivity|].
        cbn [Level2.bullets Level2.ordinate Container.game_objects
             orb andb negb filter].
        rewrite app_nil_r. split; [reflexivity|].
        intros r. destruct (Nat.eqb_spec r a) as [->|Hne].
        -- cbn [orb]. exact Ho1a.
        -- cbn [existsb orb]. apply Ho1. exact Hne.
      * set (s2 := Level2.mk o1 (Container.mk (kept ++ b :: rest')
                                   (Container.index (Level2.bullets s)))).
        assert (Hs2 : forall r, r <> a ->
                                leaves dt h s2 r = leaves dt h s r).
        { intros r Hr. unfold leaves, risen. cbn [Level2.ordinate s2].
          rewrite (Ho1 r Hr). reflexivity. }
        assert (Hr2 : reached (leaves dt h s2) rest'
                      = reached (leaves dt h s) rest').
        { apply (reached_ext _ _ (length rest')); [apply Nat.le_refl|].
          intros r Hr. apply Hs2. intros ->. apply Har. right. exact Hr. }
        destruct (IH rest' (kept ++ [b]) s2) as [s' [Hu [Hb Ho]]].
        -- simpl in Hlen. lia.
        -- rewrite <- app_assoc. cbn [app].
           apply NoDup_remove_1 in Hnd. exact Hnd.
        -- cbn [s2 Level2.bullets Container.game_objects].
           rewrite <- app_assoc. reflexivity.
        -- rewrite length_app in Hu. cbn [length] in Hu.
           rewrite Nat.add_1_r in Hu. subst f. exists s'.
           split; [exact Hu|]. split.
           ++ rewrite Hb, <- app_assoc. cbn [app]. f_equal.
              assert (Hba : Nat.eqb b a = false).
              { apply Nat.eqb_neq. intros ->. apply Har. left. reflexivity. }
              assert (Hbr : ~ In b rest').
              { apply NoDup_remove_1 in Hnd. apply NoDup_remove_2 in Hnd.
                rewrite in_app_iff in Hnd. tauto. }
              cbn [orb andb negb filter]. rewrite Hba, Hr2. cbn [orb].
              rewrite (not_reached _ _ _ Hbr). cbn [andb negb]. f_equal.
              apply filter_ext_in. intros r Hr.
              assert (Hra : r <> a) by (intros ->; apply Har; right; exact Hr).
              rewrite (Hs2 r Hra).
              apply Nat.eqb_neq in Hra. rewrite Hra. reflexivity.
           ++ intros r. rewrite (Ho r), Hr2. cbn [Level2.ordinate s2].
              destruct (Nat.eqb_spec r a) as [->|Hne].
              ** cbn [orb].
                 rewrite (not_reached (leaves dt h s) rest' a)
                   by (intros Hin; apply Har; right; exact Hin).
                 exact Ho1a.
              ** cbn [orb]. unfold risen. cbn [Level2.ordinate s2].
                 rewrite (Ho1 r Hne). reflexivity.
    + set (s1 := Level2.mk o1 (Level2.bullets s)).
      assert (Hs1 : forall r, r <> a ->
                              leaves dt h s1 r = leaves dt h s r).
      { intros r Hr. unfold leaves, risen. cbn [Level2.ordinate s1].
        rewrite (Ho1 r Hr). reflexivity. }
      assert (Hr1 : reached (leaves dt h s1) rest
                    = reached (leaves dt h s) rest).
      { apply (reached_ext _ _ (length rest)); [apply Nat.le_refl|].
        intros r Hr. apply Hs1. intros ->. contradiction. }
      destruct (IH rest (kept ++ [a]) s1) as [s' [Hu [Hb Ho]]].
      * simpl in Hlen. lia.
      * rewrite <- app_assoc. exact Hnd.
      * cbn [s1 Level2.bullets]. rewrite Hl, <- app_assoc. reflexivity.
      * rewrite length_app in Hu. cbn [length] in Hu.
        rewrite Nat.add_1_r in Hu. subst f. exists s'.
        split; [exact Hu|]. split.
        -- rewrite Hb, <- app_assoc. cbn [app orb andb negb]. f_equal.
           f_equal. rewrite Hr1. apply filter_ext_in. intros r Hr.
           assert (Hra : r <> a) by (intros ->; contradiction).
           rewrite (Hs1 r Hra).
           apply Nat.eqb_neq in Hra. rewrite Hra. reflexivity.
        -- intros r. rewrite (Ho r), Hr1. cbn [Level2.ordinate s1].
           destruct (Nat.eqb_spec r a) as [->|Hne].
           ++ cbn [orb]. rewrite (not_reached _ _ _ Har). exact Ho1a.
           ++ cbn [orb]. unfold risen. cbn [Level2.ordinate s1].
              rewrite (Ho1 r Hne). reflexivity.
Qed.

(** X23.  [Container.update] on the bullets, none held twice: the loop
    always ends; a bullet whose turn takes it above the window leaves the
    container in its turn, and the bullet behind it, which takes its place
    in the list, gets no turn in that frame: it is neither moved nor
    removed, even if it would leave too.  The bullets that get a turn rise
    by [256.0 * delta_time], the others stay where they were. *)
Theorem bullet_behind_a_leaving_one_gets_no_turn (dt h : float)
    (s : Level2.state) :
  NoDup (Container.game_objects (Level2.bullets s)) ->
  exists s',
    Level2.update dt h s = Ok s'
    /\ Container.game_objects (Level2.bullets s')
       = filter (fun r =>
                   negb (existsb (Nat.eqb r)
                           (reached (leaves dt h s)
                              (Container.game_objects (Level2.bullets s)))
                         && leaves dt h s r))
                (Container.game_objects (Level2.bullets s))
    /\ (forall r,
           Level2.ordinate s' r
           = if existsb (Nat.eqb r)
                  (reached (leaves dt h s)
                     (Container.game_objects (Level2.bullets s)))
             then risen dt s r else Level2.ordinate s r)
    /\ (forall a b rest,
           Container.game_objects (Level2.bullets s) = a :: b :: rest ->
           leaves dt h s a = true ->
           ~ In a (Container.game_objects (Level2.bullets s'))
           /\ In b (Container.game_objects (Level2.bullets s'))
           /\ Level2.ordinate s' b = Level2.ordinate s b).
Proof.
  intros Hnd. unfold Level2.update.
  destruct (update_from_reaches dt h
              (length (Container.game_objects (Level2.bullets s)))
              (Container.game_objects (Level2.bullets s)) [] s)
    as [s' [Hu [Hb Ho]]];
    [apply Nat.le_refl|exact Hnd|reflexivity|].
  cbn [length app] in Hu, Hb.
  exists s'. split; [exact Hu|]. split; [exact Hb|]. split; [exact Ho|].
  intros a b rest E Ha. rewrite Hb, (Ho b), E. rewrite E in Hnd.
  inversion Hnd as [|? ? Hna Hnd']; subst.
  inversion Hnd' as [|? ? Hnb _]; subst.
  assert (Hba : Nat.eqb b a = false).
  { apply Nat.eqb_neq. intros ->. apply Hna. left. reflexivity. }
  cbn [reached]. rewrite Ha. cbn [existsb filter].
  rewrite Nat.eqb_refl, Ha, Hba. cbn [orb andb negb].
  rewrite (not_reached _ _ _ Hnb). cbn [andb negb].
  split; [|split; [left; reflexivity|reflexivity]].
  intros [->|Hin]; [rewrite Nat.eqb_refl in Hba; discriminate|].
  apply filter_In in Hin. destruct Hin as [Hin _].
  apply Hna. right. exact Hin.
Qed.

Lemma bullet_behind_a_leaving_one_gets_no_turn_witness :
  exists s',
    Level2.update Scenario.dt0 14 Scenario.volley = Ok s'
    /\ leaves Scenario.dt0 14 Scenario.volley 1%nat = true
    /\ Container.game_objects (Level2.bullets s') = [1; 2]%nat
    /\ Level2.ordinate s' 1%nat = Level2.ordinate Scenario.volley 1%nat.
Proof.
  destruct (bullet_behind_a_leaving_one_gets_no_turn
              Scenario.dt0 14 Scenario.volley)
    as [s' [Hu [Hb [_ Hskip]]]].
  - apply distinct_NoDup. vm_compute. reflexivity.
  - exists s'. split; [exact Hu|].
    split; [vm_compute; reflexivity|].
    split; [rewrite Hb; vm_compute; reflexivity|].
    apply (Hskip 0%nat 1%nat [2%nat]); vm_compute; reflexivity.
Defined.

(** ** Hidden buttons, and the frames of a sprite *)

(** X24.  A hidden button is inert: whatever the pointer and the mouse
    buttons do, whichever mouse button it is, nothing raises and the
    button stays exactly as it was, so that it is still held to be under
    the pointer, or not, as when it was hidden. *)
Theorem hidden_button_is_inert {Surface F : Type}
    (b : Button.t Surface F) (es : list (Button.event F)) :
  Button.is_active b = false ->
  forallb from_the_mouse es = true ->
  Button.after_all b es = Some b.
Proof.
  intros Hb. induction es as [|e es IH]; intros H; [reflexivity|].
  cbn [forallb] in H. apply andb_true_iff in H. destruct H as [He Hes].
  cbn [Button.after_all].
  assert (E : Button.after b e = Some b).
  { destruct e; try discriminate; cbn [Button.after].
    - unfold Button.mouse_move_check. rewrite Hb. reflexivity.
    - unfold Button.mouse_button_down_check. rewrite Hb. reflexivity.
    - unfold Button.mouse_button_up_check. rewrite Hb. reflexivity. }
  rewrite E. apply IH. exact Hes.
Qed.

Lemma hidden_button_is_inert_witness :
  Button.after_all (Button.set_active Scenario.button false)
    [Button.Moved (50, 20); Button.Down 2 (50, 20); Button.Up 1 (50, 20)]
  = Some (Button.set_active Scenario.button false).
Proof.
  apply (hidden_button_is_inert
           (Button.set_active Scenario.button false)
           [Button.Moved (50, 20); Button.Down 2 (50, 20);
            Button.Up 1 (50, 20)]);
    reflexivity.
Defined.

(** X25.  The other operations of a sprite that shows the frame its
    [current_frame] names.  [set_current_frame] with an index in range
    shows the frame at that index, and with any other index changes
    nothing.  [add_frame] adds the frame at the end and changes nothing
    else: the current frame and the image shown are as before.
    [replace_frame] with an index in range puts the frame at that index,
    leaves the other frames, the current frame and the image shown as
    they were: when the index is that of the current frame, the sprite
    goes on showing the frame replaced. *)
Theorem sprite_frames_and_the_frame_shown {Surface : Type}
    (s : Sprite.t Surface) (img : Surface) (index : Z) :
  shows_current s ->
  (Py.in_range index (Sprite.frames s) = true ->
   shows_current (Sprite.set_current_frame s index)
   /\ Sprite.current_frame (Sprite.set_current_frame s index) = index
   /\ Sprite.frames (Sprite.set_current_frame s index) = Sprite.frames s)
  /\ (Py.in_range index (Sprite.frames s) = false ->
      Sprite.set_current_frame s index = s
      /\ Sprite.replace_frame s img index = s)
  /\ (shows_current (Sprite.add_frame s img)
      /\ Sprite.frames (Sprite.add_frame s img) = Sprite.frames s ++ [img]
      /\ Sprite.current_frame (Sprite.add_frame s img)
         = Sprite.current_frame s
      /\ Sprite.image (Sprite.add_frame s img) = Sprite.image s)
  /\ (Py.in_range index (Sprite.frames s) = true ->
      nth_error (Sprite.frames (Sprite.replace_frame s img index))
                (Z.to_nat index) = Some img
      /\ (forall k, k <> Z.to_nat index ->
                    nth_error
                      (Sprite.frames (Sprite.replace_frame s img index)) k
                    = nth_error (Sprite.frames s) k)
      /\ length (Sprite.frames (Sprite.replace_frame s img index))
         = length (Sprite.frames s)
      /\ Sprite.image (Sprite.replace_frame s img index) = Sprite.image s
      /\ Sprite.current_frame (Sprite.replace_frame s img index)
         = Sprite.current_frame s
      /\ (index <> Sprite.current_frame s ->
          shows_current (Sprite.replace_frame s img index))).
Proof.
  destruct s as [fs cur im]. unfold shows_current.
  cbn [Sprite.frames Sprite.current_frame Sprite.image].
  intros [Hcur Him].
  assert (Hlen : (Z.to_nat cur < length fs)%nat)
    by (apply nth_error_Some; congruence).
  assert (Hin : Py.in_range index fs = true ->
                (Z.to_nat index < length fs)%nat /\ 0 <= index).
  { unfold Py.in_range, Py.len. intros H. apply andb_true_iff in H.
    destruct H as [H0 H1]. apply Z.leb_le in H0. apply Z.ltb_lt in H1. lia. }
  split; [|split; [|split]].
  - intros H. unfold Sprite.set_current_frame.
    cbn [Sprite.frames]. rewrite H.
    destruct (Hin H) as [Hi H0].
    destruct (nth_error fs (Z.to_nat index)) as [f|] eqn:E.
    2:{ apply nth_error_None in E. lia. }
    cbn [Sprite.frames Sprite.current_frame Sprite.image]. auto.
  - intros H. unfold Sprite.set_current_frame, Sprite.replace_frame.
    cbn [Sprite.frames]. rewrite H. split; reflexivity.
  - unfold Sprite.add_frame.
    cbn [Sprite.frames Sprite.current_frame Sprite.image].
    split; [|split; [reflexivity|split; reflexivity]].
    split; [exact Hcur|].
    rewrite nth_error_app1 by exact Hlen. exact Him.
  - intros H. destruct (Hin H) as [Hi H0]. unfold Sprite.replace_frame.
    cbn [Sprite.frames]. rewrite H.
    cbn [Sprite.frames Sprite.current_frame Sprite.image].
    rewrite (update_nth img fs _ _ Hi), Nat.eqb_refl.
    rewrite (update_length img fs _ Hi).
    split; [reflexivity|]. split.
    { intros k Hk. rewrite (update_nth img fs _ _ Hi).
      apply Nat.eqb_neq in Hk. rewrite Hk. reflexivity. }
    split; [reflexivity|]. split; [reflexivity|].
    split; [reflexivity|]. intros Hne. split; [exact Hcur|].
    rewrite (update_nth img fs _ _ Hi).
    destruct (Nat.eqb_spec (Z.to_nat cur) (Z.to_nat index)) as [E|_];
      [|exact Him].
    apply Z2Nat.inj in E; [congruence|lia|lia].
Qed.

Lemma sprite_frames_and_the_frame_shown_witness :
  Sprite.image (Sprite.replace_frame Scenario.sprite 13%nat 1) = 11%nat
  /\ nth_error (Sprite.frames (Sprite.replace_frame Scenario.sprite 13%nat 1))
               1 = Some 13%nat.
Proof.
  destruct (sprite_frames_and_the_frame_shown Scenario.sprite 13%nat 1)
    as [_ [_ [_ H]]].
  - split; [discriminate|reflexivity].
  - destruct H as [Hn [_ [_ [Hi _]]]]; [reflexivity|].
    split; [exact Hi|exact Hn].
Defined.

(** ** The balls of [level_2] among the bullets *)

Lemma remove_object_missing (x : ref) (c : Container.t ref) :
  ~ In x (Container.game_objects c) ->
  Container.remove_object x c = Raise ValueError.
Proof.
  unfold Container.remove_object, ref in *. intros H.
  rewrite remove_missing by exact H. reflexivity.
Qed.

(** Reads the fields of a state written out. *)
Ltac ball_fields :=
  lazy beta iota zeta delta
    [Level2.Ball.add_score Level2.Ball.set_health Level2.Ball.set_balls
     Level2.Ball.set_bullets Level2.Ball.new_upgrade Level2.Ball.new_ball
     Level2.Ball.bullets Level2.Ball.balls Level2.Ball.upgrades
     Level2.Ball.health Level2.Ball.damage_cooldown Level2.Ball.type
     Level2.Ball.score Level2.Ball.current_level Level2.Ball.next_object
     Level2.Ball.draws].

(** A hit that brings the health of a ball to 0 or below takes the ball
    out of [balls], which held it once. *)
Lemma hit_kills (drop : nat -> bool) (new_health : Z)
    (s : Level2.Ball.state) (self : ref) (dmg : Z) (pre post : list ref) :
  PrimFloat.ltb 0 (Level2.Ball.damage_cooldown s self) = false ->
  Level2.Ball.health s self <= dmg ->
  Container.game_objects (Level2.Ball.balls s) = pre ++ self :: post ->
  ~ In self pre -> ~ In self post ->
  (self < Level2.Ball.next_object s)%nat ->
  exists s',
    Level2.Ball.hit drop new_health s self dmg = Ok s'
    /\ Level2.Ball.bullets s' = Level2.Ball.bullets s
    /\ Level2.Ball.damage_cooldown s' self
       = Level2.Ball.damage_cooldown s self
    /\ Level2.Ball.health s' self = Level2.Ball.health s self - dmg
    /\ ~ In self (Container.game_objects (Level2.Ball.balls s')).
Proof.
  intros Hcd Hh Hb Hpre Hpost Hfresh. unfold Level2.Ball.hit.
  rewrite Hcd.
  destruct s as [bu ba up he cd ty sc cl nx dr].
  cbn [Level2.Ball.health Level2.Ball.balls Level2.Ball.next_object
       Level2.Ball.damage_cooldown Level2.Ball.bullets] in *.
  ball_fields.
  unfold store at 1. rewrite Nat.eqb_refl.
  destruct (Z.leb_spec (he self - dmg) 0); [|lia].
  rewrite (remove_object_split self _ pre post Hb Hpre). cbn [bind].
  assert (Hn1 : Nat.eqb self nx = false) by (apply Nat.eqb_neq; lia).
  assert (Hn2 : Nat.eqb self (S nx) = false) by (apply Nat.eqb_neq; lia).
  assert (Hn3 : Nat.eqb self (S (S nx)) = false) by (apply Nat.eqb_neq; lia).
  assert (Hout : ~ In self (pre ++ post)) by (rewrite in_app_iff; tauto).
  destruct (drop dr || (ty self =? 2)); ball_fields;
    destruct (ty self =? 1); (eexists; split; [reflexivity|]);
    ball_fields; unfold store, Container.add_object;
    cbn [Container.game_objects];
    rewrite ?Hn1, ?Hn2, ?Hn3, ?Nat.eqb_refl;
    (split; [reflexivity|]); (split; [reflexivity|]);
    (split; [reflexivity|]);
    rewrite ?in_app_iff; cbn [In]; intros H'; decompose [or] H'; 
    try contradiction; try tauto; try lia.
Qed.

Lemma next_at {A : Type} (l : list A) (n : nat) (x : A) :
  nth_error l (S n) = Some x ->
  Container.next (Container.mk l (Z.of_nat n))
  = Ok (x, Container.mk l (Z.of_nat (S n))).
Proof.
  intros H. unfold Container.next.
  cbn [Container.game_objects Container.index]. unfold Py.len.
  assert (S n < length l)%nat by (apply nth_error_Some; congruence).
  destruct (Z.ltb_spec (Z.of_nat n + 1) (Z.of_nat (length l))); [|lia].
  replace (Z.of_nat n + 1) with (Z.of_nat (S n)) by lia.
  rewrite (getitem_nth _ _ _ H). reflexivity.
Qed.

Lemma next_stops {A : Type} (l : list A) (n : nat) :
  (length l <= S n)%nat ->
  Container.next (Container.mk l (Z.of_nat n)) = Raise StopIteration.
Proof.
  intros H. unfold Container.next.
  cbn [Container.game_objects Container.index]. unfold Py.len.
  destruct (Z.ltb_spec (Z.of_nat n + 1) (Z.of_nat (length l))); [lia|].
  reflexivity.
Qed.

(** A hit that brings the health of a ball to 0 or below when the ball is
    not in [balls] raises. *)
Lemma hit_absent (drop : nat -> bool) (new_health : Z)
    (s : Level2.Ball.state) (self : ref) (dmg : Z) :
  PrimFloat.ltb 0 (Level2.Ball.damage_cooldown s self) = false ->
  Level2.Ball.health s self - dmg <= 0 ->
  ~ In self (Container.game_objects (Level2.Ball.balls s)) ->
  Level2.Ball.hit drop new_health s self dmg = Raise ValueError.
Proof.
  intros Hcd Hh Hout. unfold Level2.Ball.hit. rewrite Hcd.
  destruct s as [bu ba up he cd ty sc cl nx dr].
  cbn [Level2.Ball.health Level2.Ball.balls] in *.
  ball_fields. unfold store at 1. rewrite Nat.eqb_refl.
  destruct (Z.leb_spec (he self - dmg) 0); [|lia].
  rewrite (remove_object_missing _ _ Hout). reflexivity.
Qed.

(** X26.  A ball of [level_2] that two bullets hit in one frame, the
    first hit bringing its health to 0 or below, raises [ValueError]:
    [hit] takes the ball out of [balls] a second time.  The two bullets
    here are the second and the fourth of the container: the loop does not
    test the first, and passes over the one behind a bullet it removes. *)
Theorem second_hit_on_a_dead_ball_raises
    (touches : ref -> bool) (damage : Z) (drop : nat -> bool)
    (new_health : Z) (s : Level2.Ball.state) (self : ref)
    (b0 b1 b2 b3 : ref) (rest pre post : list ref) :
  Container.game_objects (Level2.Ball.bullets s)
  = b0 :: b1 :: b2 :: b3 :: rest ->
  NoDup (b0 :: b1 :: b2 :: b3 :: rest) ->
  touches b1 = true -> touches b3 = true ->
  PrimFloat.ltb 0 (Level2.Ball.damage_cooldown s self) = false ->
  0 <= damage -> Level2.Ball.health s self <= damage ->
  Container.game_objects (Level2.Ball.balls s) = pre ++ self :: post ->
  ~ In self pre -> ~ In self post ->
  (self < Level2.Ball.next_object s)%nat ->
  Level2.Ball.hit_by_bullets touches damage drop new_health s self
  = Raise ValueError.
Proof.
  intros Hl Hnd Ht1 Ht3 Hcd Hd Hh Hb Hpre Hpost Hfresh.
  unfold Level2.Ball.hit_by_bullets, Container.iter. rewrite Hl.
  cbn [length Level2.Ball.strike Level2.Ball.set_bullets
       Level2.Ball.bullets].
  change 0 with (Z.of_nat 0).
  rewrite (next_at (b0 :: b1 :: b2 :: b3 :: rest) 0 b1 eq_refl).
  rewrite Ht1.
  assert (H01 : ~ In b1 [b0]).
  { inversion Hnd as [|? ? H0 _]; subst. simpl in *. intuition. }
  erewrite (remove_object_split b1 _ [b0] (b2 :: b3 :: rest));
    [|reflexivity|exact H01].
  cbn [bind app Container.index].
  match goal with
  | |- context [Level2.Ball.hit drop new_health ?s1 self damage] =>
      destruct (hit_kills drop new_health s1 self damage pre post)
        as [s' [Hhit [Hbs [Hcd' [Hh' Hout]]]]]; try assumption
  end.
  rewrite Hhit. cbn [bind].
  rewrite Hbs. cbn [Level2.Ball.bullets Level2.Ball.set_bullets].
  rewrite (next_at (b0 :: b2 :: b3 :: rest) 1 b3 eq_refl). rewrite Ht3.
  cbn [Level2.Ball.set_bullets Level2.Ball.bullets].
  assert (H3 : ~ In b3 [b0; b2]).
  { inversion Hnd as [|? ? H0 Hnd1]; subst.
    inversion Hnd1 as [|? ? H1 Hnd2]; subst.
    inversion Hnd2 as [|? ? H2 _]; subst. simpl in *. intuition. }
  erewrite (remove_object_split b3 _ [b0; b2] rest);
    [|reflexivity|exact H3].
  cbn [bind].
  rewrite hit_absent; [reflexivity| | |].
  - cbn [Level2.Ball.damage_cooldown Level2.Ball.set_bullets].
    rewrite Hcd'. exact Hcd.
  - cbn [Level2.Ball.health Level2.Ball.set_bullets]. rewrite Hh'.
    cbn [Level2.Ball.health Level2.Ball.set_bullets]. lia.
  - cbn [Level2.Ball.balls Level2.Ball.set_bullets]. exact Hout.
Qed.

Lemma second_hit_on_a_dead_ball_raises_witness :
  Level2.Ball.hit_by_bullets (fun b => Nat.odd b) 1 (fun _ => false) 1
    Scenario.salvo 10%nat
  = Raise ValueError.
Proof.
  apply (second_hit_on_a_dead_ball_raises
           (fun b => Nat.odd b) 1 (fun _ => false) 1 Scenario.salvo 10%nat
           0%nat 1%nat 2%nat 3%nat [] [] []).
  - reflexivity.
  - apply distinct_NoDup. reflexivity.
  - reflexivity.
  - reflexivity.
  - reflexivity.
  - lia.
  - cbn. lia.
  - reflexivity.
  - intros [].
  - intros [].
  - cbn. lia.
Defined.

(** The loop started at index [n], the ball touching no bullet after that
    index. *)
Lemma strike_misses (touches : ref -> bool) (damage : Z)
    (drop : nat -> bool) (new_health : Z) (s : Level2.Ball.state)
    (self : ref) (l : list ref) :
  forall (fuel n : nat),
    (length l <= n + fuel)%nat ->
    (forall b, In b (skipn (S n) l) -> touches b = false) ->
    Level2.Ball.strike touches damage drop new_health (S fuel)
      (Level2.Ball.set_bullets s (Container.mk l (Z.of_nat n))) self
    = Ok (Level2.Ball.set_bullets s
            (Container.mk l (Z.of_nat (Nat.max n (length l - 1))))).
Proof.
  induction fuel as [|fuel IH]; intros n Hlen Hmiss.
  - cbn [Level2.Ball.strike Level2.Ball.set_bullets Level2.Ball.bullets].
    rewrite next_stops by lia.
    replace (Nat.max n (length l - 1)) with n by lia. reflexivity.
  - remember (S fuel) as f eqn:Hf.
    cbn [Level2.Ball.strike Level2.Ball.set_bullets Level2.Ball.bullets].
    destruct (Nat.lt_ge_cases (S n) (length l)) as [Hlt|Hge].
    + destruct (nth_error l (S n)) as [x|] eqn:Hx.
      2:{ apply nth_error_None in Hx. lia. }
      rewrite (next_at _ _ _ Hx).
      rewrite (Hmiss x).
      2:{ rewrite (skipn_cons_nth _ _ _ Hx). left. reflexivity. }
      subst f.
      change (Level2.Ball.set_bullets
                (Level2.Ball.set_bullets s (Container.mk l (Z.of_nat n)))
                (Container.mk l (Z.of_nat (S n))))
        with (Level2.Ball.set_bullets s (Container.mk l (Z.of_nat (S n)))).
      rewrite IH; [|lia|].
      * replace (Nat.max (S n) (length l - 1))
          with (Nat.max n (length l - 1)) by lia.
        reflexivity.
      * intros b Hb. apply Hmiss. rewrite (skipn_cons_nth _ _ _ Hx).
        right. exact Hb.
    + rewrite next_stops by lia.
      replace (Nat.max n (length l - 1)) with n by lia. reflexivity.
Qed.

(** X27.  The first bullet of the container never hits: when the ball
    touches no bullet but, possibly, the first, its loop over the bullets
    removes none and does not hit the ball; it leaves everything as it
    was, but for the index of the iteration, left on the last bullet. *)
Theorem first_bullet_never_hits
    (touches : ref -> bool) (damage : Z) (drop : nat -> bool)
    (new_health : Z) (s : Level2.Ball.state) (self : ref) :
  (forall b, In b (tl (Container.game_objects (Level2.Ball.bullets s))) ->
             touches b = false) ->
  Level2.Ball.hit_by_bullets touches damage drop new_health s self
  = Ok (Level2.Ball.set_bullets s
          (Container.mk
             (Container.game_objects (Level2.Ball.bullets s))
             (Z.of_nat
                (length (Container.game_objects (Level2.Ball.bullets s))
                 - 1)))).
Proof.
  intros H. unfold Level2.Ball.hit_by_bullets, Container.iter.
  change 0 with (Z.of_nat 0).
  rewrite strike_misses; [rewrite Nat.max_0_l; reflexivity|lia|].
  intros b Hb. apply H.
  destruct (Container.game_objects (Level2.Ball.bullets s)); exact Hb.
Qed.

Lemma first_bullet_never_hits_witness :
  Level2.Ball.hit_by_bullets (fun b => Nat.eqb b 0) 1 (fun _ => false) 1
    Scenario.salvo 10%nat
  = Ok (Level2.Ball.set_bullets Scenario.salvo
          (Container.mk [0; 1; 2; 3]%nat 3)).
Proof.
  apply (first_bullet_never_hits
           (fun b => Nat.eqb b 0) 1 (fun _ => false) 1 Scenario.salvo
           10%nat).
  intros b Hb. cbn in Hb. decompose [or] Hb; subst; try reflexivity.
  contradiction.
Defined.

(** ** The balls an upgrade of [level_1] adds *)

(** What one turn of the loop of an upgrade of type 0 adds. *)
Lemma spawn_two_effect (angles : nat -> float) (s : Level1.state)
    (b : ref) :
  (b < Level1.next_ball s)%nat ->
  Container.game_objects (Level1.balls (Level1.spawn_two angles s b))
  = Container.game_objects (Level1.balls s)
    ++ [Level1.next_ball s; S (Level1.next_ball s)]
  /\ Level1.next_ball (Level1.spawn_two angles s b)
     = S (S (Level1.next_ball s))
  /\ Level1.drawn (Level1.spawn_two angles s b) = S (S (Level1.drawn s))
  /\ (forall r, (r < Level1.next_ball s)%nat ->
                Level1.position (Level1.spawn_two angles s b) r
                = Level1.position s r
                /\ Level1.angle (Level1.spawn_two angles s b) r
                   = Level1.angle s r)
  /\ Level1.position (Level1.spawn_two angles s b) (Level1.next_ball s)
     = Vector2.add (Vector2.mk 0 0) (Level1.position s b)
  /\ Level1.position (Level1.spawn_two angles s b)
       (S (Level1.next_ball s))
     = Vector2.add (Vector2.mk 0 0) (Level1.position s b)
  /\ Level1.angle (Level1.spawn_two angles s b) (Level1.next_ball s)
     = angles (Level1.drawn s)
  /\ Level1.angle (Level1.spawn_two angles s b) (S (Level1.next_ball s))
     = angles (S (Level1.drawn s)).
Proof.
  intros Hb. destruct s as [pos ang ba nx dr].
  cbn [Level1.next_ball Level1.position Level1.angle Level1.balls
       Level1.drawn] in *.
  lazy beta iota zeta delta
    [Level1.spawn_two Level1.spawn_ball Level1.next_ball Level1.position
     Level1.angle Level1.balls Level1.drawn Container.add_object
     Container.game_objects Container.index].
  assert (E1 : Nat.eqb b nx = false) by (apply Nat.eqb_neq; lia).
  assert (E2 : Nat.eqb nx (S nx) = false) by (apply Nat.eqb_neq; lia).
  unfold store. rewrite ?Nat.eqb_refl, ?E1, ?E2.
  split; [rewrite <- app_assoc; reflexivity|].
  split; [reflexivity|]. split; [reflexivity|].
  split.
  { intros r Hr.
    assert (R1 : Nat.eqb r nx = false) by (apply Nat.eqb_neq; lia).
    assert (R2 : Nat.eqb r (S nx) = false) by (apply Nat.eqb_neq; lia).
    rewrite R1, R2. split; reflexivity. }
  destruct (pos b) as [x y].
  repeat split; reflexivity.
Qed.

(** What the whole loop adds: two balls for every ball met, where that
    ball is. *)
Lemma multiply_all (angles : nat -> float) :
  forall (met : list ref) (s : Level1.state),
    (forall b, In b met -> (b < Level1.next_ball s)%nat) ->
    Container.game_objects
      (Level1.balls (fold_left (Level1.spawn_two angles) met s))
    = Container.game_objects (Level1.balls s)
      ++ seq (Level1.next_ball s) (2 * length met)
    /\ (forall r, (r < Level1.next_ball s)%nat ->
                  Level1.position
                    (fold_left (Level1.spawn_two angles) met s) r
                  = Level1.position s r
                  /\ Level1.angle
                       (fold_left (Level1.spawn_two angles) met s) r
                     = Level1.angle s r)
    /\ forall k b,
         nth_error met k = Some b ->
         let s' := fold_left (Level1.spawn_two angles) met s in
         let child := (Level1.next_ball s + 2 * k)%nat in
         Level1.position s' child
         = Vector2.add (Vector2.mk 0 0) (Level1.position s b)
         /\ Level1.position s' (S child)
            = Vector2.add (Vector2.mk 0 0) (Level1.position s b)
         /\ Level1.angle s' child = angles (Level1.drawn s + 2 * k)%nat
         /\ Level1.angle s' (S child)
            = angles (S (Level1.drawn s + 2 * k))%nat.
Proof.
  induction met as [|b met IH]; intros s Hfresh.
  - cbn [fold_left length Nat.mul seq]. rewrite app_nil_r.
    split; [reflexivity|]. split; [auto|].
    intros [|k] b' H; discriminate.
  - cbn [fold_left].
    destruct (spawn_two_effect angles s b (Hfresh b (or_introl eq_refl)))
      as [Hobj [Hnext [Hdr [Hold [Hp0 [Hp1 [Ha0 Ha1]]]]]]].
    destruct (IH (Level1.spawn_two angles s b)) as [Iobj [Iold Inew]].
    { intros b' Hb'. rewrite Hnext.
      specialize (Hfresh b' (or_intror Hb')). lia. }
    rewrite Hnext in Iobj, Iold, Inew. rewrite Hdr in Inew.
    split; [|split].
    + rewrite Iobj, Hobj, <- app_assoc. f_equal.
      replace (2 * length (b :: met))%nat
        with (S (S (2 * length met))) by (cbn [length]; lia).
      reflexivity.
    + intros r Hr. destruct (Iold r) as [I1 I2]; [lia|].
      destruct (Hold r Hr) as [H1 H2]. rewrite I1, I2. auto.
    + intros [|k] b' Hk; cbn [nth_error] in Hk; cbv zeta.
      * injection Hk as <-.
        rewrite Nat.mul_0_r, !Nat.add_0_r.
        destruct (Iold (Level1.next_ball s)) as [I1 I2]; [lia|].
        destruct (Iold (S (Level1.next_ball s))) as [I3 I4]; [lia|].
        rewrite I1, I2, I3, I4. auto.
      * specialize (Inew k b' Hk). cbv zeta in Inew.
        assert (Hb' : (b' < Level1.next_ball s)%nat).
        { apply Hfresh. right. eapply nth_error_In; eauto. }
        destruct (Hold b' Hb') as [Hpb _]. rewrite Hpb in Inew.
        replace (Level1.next_ball s + 2 * S k)%nat
          with (S (S (Level1.next_ball s)) + 2 * k)%nat by lia.
        replace (Level1.drawn s + 2 * S k)%nat
          with (S (S (Level1.drawn s)) + 2 * k)%nat by lia.
        exact Inew.
Qed.

(** X28.  An upgrade of type 0 of level 1 does nothing when there are
    128 balls or more.  Otherwise it leaves the balls there were as they
    are and adds two balls for each of them but the first, which the loop
    over the copy of the container does not meet: of n balls it makes
    3n - 2, and none when there is none; the two balls added for a ball
    are where that ball is. *)
Theorem upgrade_multiplies_all_balls_but_the_first
    (angles : nat -> float) (s : Level1.state) :
  (forall b, In b (Container.game_objects (Level1.balls s)) ->
             (b < Level1.next_ball s)%nat) ->
  (128 <= Container.len (Level1.balls s) ->
   Level1.multiply angles s = Ok s)
  /\ (Container.len (Level1.balls s) < 128 ->
      exists s',
        Level1.multiply angles s = Ok s'
        /\ Container.game_objects (Level1.balls s')
           = Container.game_objects (Level1.balls s)
             ++ seq (Level1.next_ball s)
                    (2 * (length (Container.game_objects (Level1.balls s))
                          - 1))
        /\ (forall r, (r < Level1.next_ball s)%nat ->
                      Level1.position s' r = Level1.position s r
                      /\ Level1.angle s' r = Level1.angle s r)
        /\ forall k b,
             nth_error (Container.game_objects (Level1.balls s)) (S k)
             = Some b ->
             Level1.position s' (Level1.next_ball s + 2 * k)%nat
             = Vector2.add (Vector2.mk 0 0) (Level1.position s b)
             /\ Level1.position s' (S (Level1.next_ball s + 2 * k))%nat
                = Vector2.add (Vector2.mk 0 0) (Level1.position s b)).
Proof.
  intros Hfresh. unfold Level1.multiply. split.
  - intros H. destruct (Z.ltb_spec (Container.len (Level1.balls s)) 128);
      [lia|reflexivity].
  - intros H. destruct (Z.ltb_spec (Container.len (Level1.balls s)) 128);
      [|lia].
    rewrite for_in_tail. cbn [bind].
    unfold Container.copy, Container.init. cbn [Container.game_objects].
    destruct (multiply_all angles
                (tl (Container.game_objects (Level1.balls s))) s)
      as [Hobj [Hold Hnew]].
    { intros b Hb. apply Hfresh.
      destruct (Container.game_objects (Level1.balls s));
        [destruct Hb|right; exact Hb]. }
    eexists. split; [reflexivity|]. split; [|split; [exact Hold|]].
    + rewrite Hobj. f_equal. f_equal. f_equal.
      destruct (Container.game_objects (Level1.balls s)); simpl; lia.
    + intros k b Hk.
      assert (Hk' : nth_error
                      (tl (Container.game_objects (Level1.balls s))) k
                    = Some b).
      { destruct (Container.game_objects (Level1.balls s));
          [discriminate|exact Hk]. }
      specialize (Hnew k b Hk'). cbv zeta in Hnew.
      destruct Hnew as [H1 [H2 _]]. auto.
Qed.

Lemma upgrade_multiplies_all_balls_but_the_first_witness :
  exists s',
    Level1.multiply (fun _ => 1%float) Scenario.three_balls = Ok s'
    /\ Container.game_objects (Level1.balls s') = [0; 1; 2; 3; 4; 5; 6]%nat
    /\ Level1.position s' 3%nat = Vector2.mk 200 500
    /\ Level1.position s' 6%nat = Vector2.mk 300 400.
Proof.
  destruct (proj2 (upgrade_multiplies_all_balls_but_the_first
                     (fun _ => 1%float) Scenario.three_balls
                     ltac:(intros b Hb; cbn in Hb;
                           decompose [or] Hb; subst; cbn; lia)))
    as [s' [Hm [Hobj [_ Hnew]]]].
  - vm_compute. reflexivity.
  - exists s'. split; [exact Hm|]. split; [exact Hobj|].
    destruct (Hnew 0%nat 1%nat eq_refl) as [H3 _].
    destruct (Hnew 1%nat 2%nat eq_refl) as [_ H6].
    split; [refine (eq_trans H3 _)|refine (eq_trans H6 _)];
      vm_compute; reflexivity.
Defined.
